(** * Discodrome: a shallow embedding of the catalog client, the message
    senders and the music commands, with the properties the specification
    states about them.

    Sources embedded: [subsonic.py] (Song, search, get_random_songs,
    get_similar_songs, stream), [ui.py] (SysMsg, ErrMsg and the two
    helpers that build track selection menus) and [extensions/music.py]
    (MusicCog: get_voice_client, play, stop, show_queue, clear_queue, skip,
    autoplay, on_voice_state_update).  [data.py] and [player.py] are not
    among the sources; what the commands need of them is modelled from the
    specification and marked as such.  The two stub commands of the cog,
    whose bodies are empty, are left out.

    A Python [str] is held as its UTF-8 encoding; lengths and slices
    count characters, not bytes.  [Song] is the class of [subsonic.py] as
    it stands there: it has no [cover_id], and reading that attribute
    raises.

    A handler is a function from the world to a result and a new world.
    The world holds the guild store, the voice clients, the state of the
    interaction response and a trace of the effects performed; what the
    platform answers to a delivery attempt is scripted in the world, and
    what lies outside the process (the catalog service, the file system,
    the voice handshake) is a [Host]. *)

From Stdlib Require Import ZArith QArith_base String Ascii List Bool Lia DecimalString.
From stdpp Require Import base option gmap.
From Equations Require Import Equations.
Import ListNotations.
Local Open Scope string_scope.
Local Open Scope Z_scope.
Local Open Scope list_scope.
Set Warnings "-register-all".

(** ** Python values, exceptions and results *)

Module Py.

(** A decoded JSON document, as [response.json()] returns it.  Objects keep
    their keys in insertion order, as Python dicts do. *)
Inductive json : Type :=
| JNull
| JBool (b : bool)
| JNum (n : Z)
| JFloat (mantissa exponent : Z)
| JStr (s : string)
| JArr (items : list json)
| JObj (fields : list (string * json)).

Inductive exn : Type :=
| KeyError (key : string)
| TypeError
| AttributeError
| ValueError
| RequestException
| ClientException.

Inductive outcome (A : Type) : Type :=
| Ok (a : A)
| Raise (e : exn).
Arguments Ok {A} a.
Arguments Raise {A} e.

Definition obind {A B} (r : outcome A) (k : A -> outcome B) : outcome B :=
  match r with
  | Ok a => k a
  | Raise e => Raise e
  end.

Fixpoint dict_get (k : string) (d : list (string * json)) : option json :=
  match d with
  | [] => None
  | (k', v) :: d' => if String.eqb k' k then Some v else dict_get k d'
  end.

(** [d[k] = v]: an existing key keeps its position, a new key goes last. *)
Fixpoint dict_set (k : string) (v : json) (d : list (string * json))
  : list (string * json) :=
  match d with
  | [] => [(k, v)]
  | (k', v') :: d' =>
      if String.eqb k' k then (k', v) :: d' else (k', v') :: dict_set k v d'
  end.

(** [a | b] on dicts. *)
Definition dict_union (a b : list (string * json)) : list (string * json) :=
  fold_left (fun acc kv => dict_set (fst kv) (snd kv) acc) b a.

Fixpoint str_contains (needle hay : string) : bool :=
  String.prefix needle hay ||
  match hay with
  | EmptyString => false
  | String _ hay' => str_contains needle hay'
  end.

Definition is_str (k : string) (v : json) : bool :=
  match v with
  | JStr s => String.eqb s k
  | _ => false
  end.

(** [k in v] for a string [k]. *)
Definition contains (k : string) (v : json) : outcome bool :=
  match v with
  | JObj d => Ok (match dict_get k d with Some _ => true | None => false end)
  | JArr l => Ok (existsb (is_str k) l)
  | JStr s => Ok (str_contains k s)
  | JNull | JBool _ | JNum _ | JFloat _ _ => Raise TypeError
  end.

(** [v[k]] for a string [k]. *)
Definition getitem (v : json) (k : string) : outcome json :=
  match v with
  | JObj d =>
      match dict_get k d with
      | Some x => Ok x
      | None => Raise (KeyError k)
      end
  | _ => Raise TypeError
  end.

(** A Python [str] is held as its UTF-8 encoding, so that a character may
    take several bytes: a first byte followed by continuation bytes
    ([10xxxxxx]).  Lengths, slices and iteration go by characters, as in
    Python; comparing two encodings byte by byte orders them as Python
    orders the strings, by code point. *)
Definition is_continuation (c : ascii) : bool :=
  match c with
  | Ascii _ _ _ _ _ _ b6 b7 => b7 && negb b6
  end.

(** [len(s)] for a str: the number of its characters. *)
Fixpoint str_len (s : string) : nat :=
  match s with
  | EmptyString => 0
  | String c s' => if is_continuation c then str_len s' else S (str_len s')
  end.

(** [s[:k]] for a str and [0 <= k]: its first [k] characters. *)
Fixpoint str_take (k : nat) (s : string) : string :=
  match s with
  | EmptyString => EmptyString
  | String c s' =>
      if is_continuation c then String c (str_take k s')
      else
        match k with
        | O => EmptyString
        | S k' => String c (str_take k' s')
        end
  end.

(** The characters of a str, each a str of its own. *)
Fixpoint characters (s : string) : list string :=
  match s with
  | EmptyString => []
  | String c s' =>
      match s' with
      | String c' _ =>
          if is_continuation c' then
            match characters s' with
            | first :: rest => String c first :: rest
            | [] => [String c EmptyString]
            end
          else String c EmptyString :: characters s'
      | EmptyString => [String c EmptyString]
      end
  end.

Definition chars (s : string) : list json := map JStr (characters s).

(** The items a [for item in v] loop visits. *)
Definition iter (v : json) : outcome (list json) :=
  match v with
  | JArr l => Ok l
  | JObj d => Ok (map (fun kv => JStr (fst kv)) d)
  | JStr s => Ok (chars s)
  | JNull | JBool _ | JNum _ | JFloat _ _ => Raise TypeError
  end.

(** [str(n)] for an int. *)
Definition str_of_int (n : Z) : string := NilZero.string_of_int (Z.to_int n).

(** [f"{x}"] for an environment variable that may be unset. *)
Definition str_of_env (x : option string) : string :=
  match x with
  | Some s => s
  | None => "None"
  end.

Definition json_of_env (x : option string) : json :=
  match x with
  | Some s => JStr s
  | None => JNull
  end.

End Py.
Export Py.

(** ** subsonic.py *)

Module Subsonic.

(** The process environment and the remote service, as the client sees
    them. *)
Record Env : Type := {
  SUB_SERVER : option string;
  SUB_USER : option string;
  SUB_PASSWORD : option string;
  (** [requests.get(url, params=params).json()] *)
  requests_get_json : string -> list (string * json) -> outcome json;
  (** [requests.get(url, params=params, stream=True).url] *)
  requests_get_url : string -> list (string * json) -> outcome string
}.

Definition SUBSONIC_REQUEST_PARAMS (E : Env) : list (string * json) :=
  [ ("u", json_of_env (SUB_USER E));
    ("p", json_of_env (SUB_PASSWORD E));
    ("v", JStr "1.15.0");
    ("c", JStr "submeister");
    ("f", JStr "json") ].

Record Song : Type := {
  _id : json;
  _title : json;
  _album : json;
  _artist : json;
  _duration : json
}.

(** [json_object[k] if k in json_object else d] *)
Definition field_or (json_object : json) (k : string) (d : json) : outcome json :=
  obind (contains k json_object) (fun present =>
  if present then getitem json_object k else Ok d).

(** [Song.__init__] *)
Definition Song_init (json_object : json) : outcome Song :=
  obind (field_or json_object "id" (JStr "")) (fun id =>
  obind (field_or json_object "title" (JStr "Unknown Track")) (fun title =>
  obind (field_or json_object "artist" (JStr "Unknown Artist")) (fun album =>
  obind (field_or json_object "album" (JStr "Unknown Album")) (fun artist =>
  obind (field_or json_object "duration" (JNum 0)) (fun duration =>
  Ok {| _id := id; _title := title; _album := album; _artist := artist;
        _duration := duration |}))))).

Definition id (s : Song) : json := _id s.
Definition title (s : Song) : json := _title s.
Definition album (s : Song) : json := _album s.
Definition artist (s : Song) : json := _artist s.
Definition duration (s : Song) : json := _duration s.

(** [song.cover_id]: the class defines no such attribute. *)
Definition cover_id (s : Song) : outcome json := Raise AttributeError.

(** [format(n, "02d")] *)
Definition format_02d (n : Z) : string :=
  if (0 <=? n) && (n <? 10) then ("0" ++ str_of_int n)%string else str_of_int n.

Definition minutes_seconds (n : Z) : string :=
  (format_02d (n / 60) ++ ":" ++ format_02d (n mod 60))%string.

Definition duration_printable (s : Song) : outcome string :=
  match _duration s with
  | JNum n => Ok (minutes_seconds n)
  | JBool b => Ok (minutes_seconds (if b then 1 else 0))
  | JFloat _ _ => Raise ValueError
  | JNull | JStr _ | JArr _ | JObj _ => Raise TypeError
  end.

(** [for item in items: results.append(Song(item))] *)
Fixpoint collect_songs (items : list json) (results : list Song)
  : outcome (list Song) :=
  match items with
  | [] => Ok results
  | item :: items' =>
      obind (Song_init item) (fun s => collect_songs items' (results ++ [s]))
  end.

(** The part the three list operations share: walk the envelope down to
    the song list under [result_key] and build a Song from each item. *)
Definition songs_of_response (result_key : string) (search_data : json)
  : outcome (list Song) :=
  obind (getitem search_data "subsonic-response") (fun envelope =>
  obind (getitem envelope result_key) (fun result =>
  obind (getitem result "song") (fun song =>
  obind (iter song) (fun items =>
  collect_songs items [])))).

Definition search (E : Env) (query : string)
  (artist_count artist_offset album_count album_offset song_count song_offset : Z)
  : outcome (list Song) :=
  let search_params :=
    [ ("query", JStr query);
      ("artistCount", JStr (str_of_int artist_count));
      ("artistOffset", JStr (str_of_int artist_offset));
      ("albumCount", JStr (str_of_int album_count));
      ("albumOffset", JStr (str_of_int album_offset));
      ("songCount", JStr (str_of_int song_count));
      ("songOffset", JStr (str_of_int song_offset)) ] in
  let params := dict_union (SUBSONIC_REQUEST_PARAMS E) search_params in
  obind (requests_get_json E (str_of_env (SUB_SERVER E) ++ "/rest/search3.view")%string params)
    (fun search_data => songs_of_response "searchResult3" search_data).

Definition set_if_given (k : string) (v : option json) (d : list (string * json))
  : list (string * json) :=
  match v with
  | Some x => dict_set k x d
  | None => d
  end.

Definition get_random_songs (E : Env)
  (size : option Z) (genre : option string) (from_year to_year : option Z)
  (music_folder_id : option string) : outcome (list Song) :=
  let search_params :=
    set_if_given "musicFolderId" (JStr <$> music_folder_id)
    (set_if_given "toYear" (JNum <$> to_year)
    (set_if_given "fromYear" (JNum <$> from_year)
    (set_if_given "genre" (JStr <$> genre)
    (set_if_given "size" (JNum <$> size) [])))) in
  let params := dict_union (SUBSONIC_REQUEST_PARAMS E) search_params in
  obind (requests_get_json E (str_of_env (SUB_SERVER E) ++ "/rest/getRandomSongs.view")%string params)
    (fun search_data => songs_of_response "randomSongs" search_data).

Definition get_similar_songs (E : Env) (id : json) (count : Z)
  : outcome (list Song) :=
  let search_params := [ ("id", id); ("count", JNum count) ] in
  let params := dict_union (SUBSONIC_REQUEST_PARAMS E) search_params in
  obind (requests_get_json E (str_of_env (SUB_SERVER E) ++ "/rest/getSimilarSongs2.view")%string params)
    (fun search_data => songs_of_response "similarSongs2" search_data).

Definition stream (E : Env) (id : json) : outcome string :=
  let stream_params := [ ("id", id) ] in
  requests_get_url E (str_of_env (SUB_SERVER E) ++ "/rest/stream.view")%string
    (dict_union (SUBSONIC_REQUEST_PARAMS E) stream_params).

End Subsonic.
Export Subsonic.

(** ** The chat platform, the guild store and the world the handlers run in *)

Module Discord.

(** Modelled from the spec: the Album entity of the catalog client, whose
    class is not among the sources ("identifier, name, artist, ordered
    sequence of Track, song count, total duration, cover-art identifier"). *)
Record Album : Type := {
  album_id : json;
  name : json;
  album_artist : json;
  songs : list Song;
  song_count : json;
  album_duration : json;
  album_cover_id : json
}.

(** Modelled from the spec: the autoplay modes of [data.py]. *)
Inductive AutoplayMode : Type := NONE | RANDOM | SIMILAR.

(** Everything outside the three source files that the handlers call. *)
Record Host : Type := {
  catalog :> Env;
  (** [repr] of a value that is neither a string, an int, a bool nor None *)
  repr : json -> string;
  (** [await get_album_art_file(cover_id)] *)
  get_album_art_file : json -> outcome (option string);
  (** [subsonic.search_album(query)] *)
  search_album : string -> outcome (option Album);
  (** [discord.File(path, filename=...)]: [None] when the file opens, the
      text of the exception otherwise *)
  discord_File : string -> option string;
  (** [channel.connect()]: whether the voice handshake succeeds *)
  connect_succeeds : bool;
  (** the bot's own member id *)
  bot_user : Z;
  (** the autoplay mode of a guild that never set one *)
  default_autoplay : AutoplayMode;
  (** the track a guild played most recently, as the engine remembers it *)
  recent_track : Z -> option Song
}.

Record VoiceClient : Type := {
  vc_guild : Z;
  vc_members : list Z;
  vc_playing : bool
}.

Record VoiceState : Type := {
  channel : option (list Z)
}.

Record Interaction : Type := {
  guild : option Z;
  guild_id : Z;
  user_voice : option VoiceState;
  display_name : string
}.

(** What one delivery attempt ([followup.send] or
    [response.send_message]) does: it returns, or it raises
    [discord.NotFound], another [discord.HTTPException], or any other
    [Exception]. *)
Inductive Delivery : Type :=
| Delivered
| NotFound
| HTTPException (e : string)
| OtherException (e : string).

Inductive Route : Type := Followup | Response.

Record Embed : Type := {
  color : Z;
  embed_title : string;
  description : option string;
  embed_thumbnail : option string
}.

Inductive LogLevel : Type := DEBUG | INFO | WARNING | ERROR.

Inductive Event : Type :=
| Log (level : LogLevel) (text : string)
| Send (route : Route) (file : option string) (embed : Embed)
       (ephemeral : bool) (result : Delivery)
| Sleep (seconds : Q)
| VoiceConnect (vc : nat)
| VoiceStop (vc : nat)
| VoicePlay (vc : nat) (url : string)
| VoiceDisconnect (vc : nat)
| AutoplayExpansion (mode : AutoplayMode).

(** Modelled from the spec: the per-guild playback state of [data.py] and
    [player.py].  A queue slot holds whatever object was put there, so it
    can hold [None]. *)
Record Player : Type := {
  queue : list (option Song);
  current_song : option Song
}.

Record World : Type := {
  guild_players : gmap Z Player;
  guild_autoplay : gmap Z AutoplayMode;
  (** every voice-client object ever created, by identity *)
  voice_heap : list VoiceClient;
  (** [bot.voice_clients] *)
  voice_clients : list nat;
  (** [interaction.response.is_done()] *)
  response_done : bool;
  (** what the next delivery attempts will do; an attempt beyond the
      script is delivered *)
  deliveries : list Delivery;
  (** the effects performed so far, oldest first *)
  trace : list Event
}.

Definition M (A : Type) : Type := World -> outcome A * World.

Definition ret {A} (a : A) : M A := fun w => (Ok a, w).
Definition raise {A} (e : exn) : M A := fun w => (Raise e, w).
Definition bind {A B} (m : M A) (k : A -> M B) : M B :=
  fun w =>
    match m w with
    | (Ok a, w') => k a w'
    | (Raise e, w') => (Raise e, w')
    end.
Definition lift {A} (r : outcome A) : M A := fun w => (r, w).
Definition get : M World := fun w => (Ok w, w).
Definition modify (f : World -> World) : M unit := fun w => (Ok tt, f w).

Notation "'do' x <- m ; k" := (bind m (fun x => k))
  (at level 10, x name, m at level 100, k at level 200).
Notation "'exec' m ; k" := (bind m (fun _ => k))
  (at level 10, m at level 100, k at level 200).

Definition with_trace (f : list Event -> list Event) (w : World) : World :=
  {| guild_players := guild_players w; guild_autoplay := guild_autoplay w;
     voice_heap := voice_heap w; voice_clients := voice_clients w;
     response_done := response_done w; deliveries := deliveries w;
     trace := f (trace w) |}.

Definition with_response_done (b : bool) (w : World) : World :=
  {| guild_players := guild_players w; guild_autoplay := guild_autoplay w;
     voice_heap := voice_heap w; voice_clients := voice_clients w;
     response_done := b; deliveries := deliveries w; trace := trace w |}.

Definition with_deliveries (d : list Delivery) (w : World) : World :=
  {| guild_players := guild_players w; guild_autoplay := guild_autoplay w;
     voice_heap := voice_heap w; voice_clients := voice_clients w;
     response_done := response_done w; deliveries := d; trace := trace w |}.

Definition with_players (f : gmap Z Player -> gmap Z Player) (w : World) : World :=
  {| guild_players := f (guild_players w); guild_autoplay := guild_autoplay w;
     voice_heap := voice_heap w; voice_clients := voice_clients w;
     response_done := response_done w; deliveries := deliveries w;
     trace := trace w |}.

Definition with_autoplay (f : gmap Z AutoplayMode -> gmap Z AutoplayMode)
  (w : World) : World :=
  {| guild_players := guild_players w; guild_autoplay := f (guild_autoplay w);
     voice_heap := voice_heap w; voice_clients := voice_clients w;
     response_done := response_done w; deliveries := deliveries w;
     trace := trace w |}.

Definition with_voice (heap : list VoiceClient) (clients : list nat)
  (w : World) : World :=
  {| guild_players := guild_players w; guild_autoplay := guild_autoplay w;
     voice_heap := heap; voice_clients := clients;
     response_done := response_done w; deliveries := deliveries w;
     trace := trace w |}.

Definition emit (e : Event) : M unit := modify (with_trace (fun t => t ++ [e])).

Definition log (level : LogLevel) (text : string) : M unit := emit (Log level text).

(** [await asyncio.sleep(seconds)] inside a command: the delay is recorded;
    a command is followed on its own, one command or event at a time. *)
Definition sleep (seconds : Q) : M unit := emit (Sleep seconds).

End Discord.
Export Discord.

(** ** ui.py *)

Module UI.

Definition nl : string := String (ascii_of_nat 10) EmptyString.

(** What an f-string prints for a value. *)
Definition format_value (H : Host) (v : json) : string :=
  match v with
  | JStr s => s
  | JNum n => str_of_int n
  | JBool true => "True"
  | JBool false => "False"
  | JNull => "None"
  | JFloat _ _ | JArr _ | JObj _ => repr H v
  end.

(** [interaction is None or interaction.guild is None] *)
Definition no_longer_valid (interaction : option Interaction) : bool :=
  match interaction with
  | None => true
  | Some i => match guild i with None => true | Some _ => false end
  end.

(** One call of [followup.send] or [response.send_message]: the next
    scripted result is consumed and the attempt is recorded; a delivered
    initial response completes the interaction response. *)
Definition deliver (route : Route) (file : option string) (embed : Embed)
  (ephemeral : bool) : M Delivery :=
  fun w =>
    let result := hd Delivered (deliveries w) in
    let w1 := with_deliveries (tl (deliveries w)) w in
    let w2 := with_trace (fun t => t ++ [Send route file embed ephemeral result]) w1 in
    let w3 := match result, route with
              | Delivered, Response => with_response_done true w2
              | _, _ => w2
              end in
    (Ok result, w3).

(** [interaction.response.is_done()] *)
Definition is_done : M bool := fun w => (Ok (response_done w), w).

(** How the [while attempt < 3] loop of a sender ends. *)
Inductive loop_exit : Type :=
| Sent
| Exhausted (attempt : Z).

Definition retry_delay : Q := Qmake 1 2.

Definition inspect {A} (a : A) : {b : A | a = b} := exist _ a eq_refl.
#[local] Notation "x 'eqn:' p" := (exist _ x p) (only parsing, at level 20).

Module SysMsg.

Equations? send_loop (attempt : Z) (file : option string) (embed : Embed)
  (ephemeral : bool) : M loop_exit by wf (Z.to_nat (3 - attempt)) lt :=
  send_loop attempt file embed ephemeral with inspect (attempt <? 3) := {
    | true eqn: Hlt =>
        do done <- is_done;
        do result <- deliver (if done then Followup else Response) file embed ephemeral;
        match result with
        | Delivered => ret Sent
        | NotFound =>
            exec log WARNING ("Attempt " ++ str_of_int (attempt + 1) ++
                 " at sending a system message failed (NotFound)...")%string;
            exec sleep retry_delay;
            send_loop (attempt + 1) file embed ephemeral
        | HTTPException e =>
            exec log WARNING ("Attempt " ++ str_of_int (attempt + 1) ++
                 " at sending a system message failed (HTTPException: " ++ e ++
                 ")...")%string;
            exec sleep retry_delay;
            send_loop (attempt + 1) file embed ephemeral
        | OtherException e =>
            exec log ERROR ("Unexpected error when sending system message: " ++ e)%string;
            exec sleep retry_delay;
            send_loop (attempt + 1) file embed ephemeral
        end
    | false eqn: _ => ret (Exhausted attempt) }.
Proof. all: apply Z.ltb_lt in Hlt; lia. Qed.

(** [SysMsg.msg] *)
Definition msg (H : Host) (interaction : option Interaction) (header : string)
  (message thumbnail : option string) (ephemeral : bool) : M unit :=
  if no_longer_valid interaction then
    log WARNING "Cannot send message: interaction is no longer valid"
  else
    let message :=
      match message with
      | Some m =>
          if (4096 <? str_len m)%nat
          then Some (str_take 4093 m ++ "...")%string
          else Some m
      | None => None
      end in
    let embed := {| color := 0x50C470; embed_title := header;
                    description := message; embed_thumbnail := None |} in
    do attachment <-
      match thumbnail with
      | None => ret (None, embed)
      | Some path =>
          match discord_File H path with
          | None =>
              ret (Some path,
                   {| color := color embed; embed_title := embed_title embed;
                      description := description embed;
                      embed_thumbnail := Some "attachment://image.png" |})
          | Some e =>
              exec log ERROR ("Failed to attach thumbnail: " ++ e)%string;
              ret (None, embed)
          end
      end;
    do exit <- send_loop 0 (fst attachment) (snd attachment) ephemeral;
    match exit with
    | Sent => ret tt
    | Exhausted attempt =>
        log ERROR ("Failed to send system message after " ++ str_of_int attempt ++
                   " attempts. Header: " ++ header)%string
    end.

Definition playback_ended (H : Host) (interaction : option Interaction) : M unit :=
  msg H interaction "Playback ended" None None false.

Definition disconnected (H : Host) (interaction : option Interaction) : M unit :=
  msg H interaction "Disconnected from voice channel" None None false.

Definition starting_queue_playback (H : Host) (interaction : option Interaction) : M unit :=
  msg H interaction "Started queue playback" None None false.

Definition stopping_queue_playback (H : Host) (interaction : option Interaction) : M unit :=
  msg H interaction "Stopped queue playback" None None false.

(** [interaction.user.display_name] *)
Definition user_display_name (interaction : option Interaction) : M string :=
  match interaction with
  | Some i => ret (display_name i)
  | None => raise AttributeError
  end.

Definition song_desc (H : Host) (song : Song) : outcome string :=
  obind (duration_printable song) (fun printable =>
  Ok ("**" ++ format_value H (title song) ++ "** - *" ++
      format_value H (artist song) ++ "*" ++ nl ++
      format_value H (album song) ++ " (" ++ printable ++ ")")%string).

Definition now_playing (H : Host) (interaction : option Interaction) (song : Song) : M unit :=
  do cover <- lift (cover_id song);
  do cover_art <- lift (get_album_art_file H cover);
  do desc <- lift (song_desc H song);
  msg H interaction "Now Playing:" (Some desc) cover_art false.

Definition added_to_queue (H : Host) (interaction : option Interaction) (song : Song) : M unit :=
  do desc <- lift (song_desc H song);
  do cover <- lift (cover_id song);
  do cover_art <- lift (get_album_art_file H cover);
  do who <- user_display_name interaction;
  msg H interaction (who ++ " added track to queue")%string (Some desc) cover_art false.

Definition added_album_to_queue (H : Host) (interaction : option Interaction) (album : Album) : M unit :=
  let desc := ("**" ++ format_value H (name album) ++ "** - *" ++
               format_value H (album_artist album) ++ "*" ++ nl ++
               format_value H (song_count album) ++ " songs (" ++
               format_value H (album_duration album) ++ " seconds)")%string in
  do cover_art <- lift (get_album_art_file H (album_cover_id album));
  do who <- user_display_name interaction;
  msg H interaction (who ++ " added album to queue")%string (Some desc) cover_art false.

Definition queue_cleared (H : Host) (interaction : option Interaction) : M unit :=
  do who <- user_display_name interaction;
  msg H interaction (who ++ " cleared the queue")%string None None false.

Definition skipping (H : Host) (interaction : option Interaction) : M unit :=
  msg H interaction "Skipped track" None None true.

End SysMsg.

Module ErrMsg.

Equations? send_loop (attempt : Z) (embed : Embed) : M loop_exit
  by wf (Z.to_nat (3 - attempt)) lt :=
  send_loop attempt embed with inspect (attempt <? 3) := {
    | true eqn: Hlt =>
        do done <- is_done;
        do result <- deliver (if done then Followup else Response) None embed true;
        match result with
        | Delivered => ret Sent
        | NotFound =>
            exec log WARNING ("Attempt " ++ str_of_int (attempt + 1) ++
                 " at sending an error message failed (NotFound)...")%string;
            exec sleep retry_delay;
            send_loop (attempt + 1) embed
        | HTTPException e =>
            exec log WARNING ("Attempt " ++ str_of_int (attempt + 1) ++
                 " at sending an error message failed (HTTPException: " ++ e ++
                 ")...")%string;
            exec sleep retry_delay;
            send_loop (attempt + 1) embed
        | OtherException e =>
            exec log ERROR ("Unexpected error when sending error message: " ++ e)%string;
            exec sleep retry_delay;
            send_loop (attempt + 1) embed
        end
    | false eqn: _ => ret (Exhausted attempt) }.
Proof. all: apply Z.ltb_lt in Hlt; lia. Qed.

(** [ErrMsg.msg] *)
Definition msg (interaction : option Interaction) (message : string) : M unit :=
  if no_longer_valid interaction then
    log WARNING "Cannot send error message: interaction is no longer valid"
  else
    let embed := {| color := 0x50C470; embed_title := "Error";
                    description := Some message; embed_thumbnail := None |} in
    do exit <- send_loop 0 embed;
    match exit with
    | Sent => ret tt
    | Exhausted attempt =>
        log ERROR ("Failed to send error message after " ++ str_of_int attempt ++
                   " attempts. Message: " ++ message)%string
    end.

Definition user_not_in_voice_channel (interaction : option Interaction) : M unit :=
  msg interaction "You are not connected to a voice channel.".

Definition bot_not_in_voice_channel (interaction : option Interaction) : M unit :=
  msg interaction "Not currently connected to a voice channel.".

Definition cannot_connect_to_voice_channel (interaction : option Interaction) : M unit :=
  msg interaction "Cannot connect to voice channel.".

Definition queue_is_empty (interaction : option Interaction) : M unit :=
  msg interaction "Queue is empty.".

Definition already_playing (interaction : option Interaction) : M unit :=
  msg interaction "Already playing.".

Definition not_playing (interaction : option Interaction) : M unit :=
  msg interaction "No track is playing.".

End ErrMsg.

(** *** The track selection helpers *)

(** [len(v)] *)
Definition len (v : json) : outcome Z :=
  match v with
  | JStr s => Ok (Z.of_nat (str_len s))
  | JArr l => Ok (Z.of_nat (List.length l))
  | JObj d => Ok (Z.of_nat (List.length d))
  | JNull | JBool _ | JNum _ | JFloat _ _ => Raise TypeError
  end.

(** [s[:k]] on a string: a negative [k] counts from the end. *)
Definition slice_to (k : Z) (s : string) : string :=
  if k <? 0 then str_take (Z.to_nat (Z.of_nat (str_len s) + k)) s
  else str_take (Z.to_nat k) s.

(** [(album[:68] + "...") if len(album) > 68 else album].  Only a string
    can be sliced and then concatenated with a string (a dict cannot be
    sliced at all: TypeError before Python 3.12). *)
Definition trimmed_album (album : json) : outcome json :=
  obind (len album) (fun n =>
  if 68 <? n then
    match album with
    | JStr s => Ok (JStr (slice_to 68 s ++ "..."))
    | _ => Raise TypeError
    end
  else Ok album).

(** The title and artist as shown on the first line of an entry: when
    [title + " - " + artist] is longer than 71 characters, the one of the
    two that compares greater is cut from the end by the excess over 68
    and gets an ellipsis. *)
Definition trimmed_top (title artist : json) : outcome (string * string) :=
  match title, artist with
  | JStr t, JStr a =>
      let top_str_length := Z.of_nat (str_len (t ++ " - " ++ a)) in
      if 71 <? top_str_length then
        if String.ltb a t then Ok ((slice_to (68 - top_str_length) t ++ "...")%string, a)
        else Ok (t, (slice_to (68 - top_str_length) a ++ "...")%string)
      else Ok (t, a)
  | _, _ => Raise TypeError
  end.

(** One round of the loop of [parse_search_as_track_selection_embed]: the
    text added for one song. *)
Definition selection_entry (H : Host) (song : Song) : outcome string :=
  obind (trimmed_album (album song)) (fun tr_album =>
  obind (trimmed_top (title song) (artist song)) (fun top =>
  obind (duration_printable song) (fun printable =>
  Ok ("**" ++ fst top ++ "** - *" ++ snd top ++ "* " ++ nl ++
      "*" ++ format_value H tr_album ++ "* (" ++ printable ++ ")" ++ nl ++ nl)%string))).

Fixpoint selection_entries (H : Host) (results : list Song) (options_str : string)
  : outcome string :=
  match results with
  | [] => Ok options_str
  | song :: results' =>
      obind (selection_entry H song) (fun entry =>
      selection_entries H results' (options_str ++ entry))
  end.

Definition parse_search_as_track_selection_embed (H : Host) (results : list Song)
  (query : string) (page_num : Z) : outcome Embed :=
  obind (selection_entries H results "") (fun options_str =>
  Ok {| color := 0xe67e22;
        embed_title := ("Results for: " ++ query)%string;
        description := Some (options_str ++ "Current page: " ++ str_of_int page_num)%string;
        embed_thumbnail := None |}).

Record SelectOption : Type := {
  label : string;
  option_description : string;
  value : Z
}.

(** [for i, song in enumerate(results)], from index [i] on. *)
Fixpoint selection_options (H : Host) (i : Z) (results : list Song)
  : list SelectOption :=
  match results with
  | [] => []
  | song :: results' =>
      {| label := format_value H (title song);
         option_description := ("by " ++ format_value H (artist song))%string;
         value := i |} :: selection_options H (i + 1) results'
  end.

Definition parse_search_as_track_selection_options (H : Host) (results : list Song)
  : list SelectOption :=
  selection_options H 0 results.

End UI.
Export UI.

(** ** The guild store and the voice clients *)

Module Data.

Definition default_player : Player := {| queue := []; current_song := None |}.

(** The playback state of a guild, whether or not its entry exists yet. *)
Definition player_of (w : World) (gid : Z) : Player :=
  default default_player (guild_players w !! gid).

Definition autoplay_of (H : Host) (w : World) (gid : Z) : AutoplayMode :=
  default (default_autoplay H) (guild_autoplay w !! gid).

(** Modelled from the spec: [data.guild_data(gid).player], "return the
    existing entry or create-and-insert a default one". *)
Definition guild_data (gid : Z) : M Player :=
  fun w =>
    match guild_players w !! gid with
    | Some p => (Ok p, w)
    | None => (Ok default_player, with_players (insert gid default_player) w)
    end.

(** Modelled from the spec: [data.guild_properties(gid).autoplay_mode]. *)
Definition guild_properties (H : Host) (gid : Z) : M AutoplayMode :=
  fun w =>
    match guild_autoplay w !! gid with
    | Some m => (Ok m, w)
    | None => (Ok (default_autoplay H), with_autoplay (insert gid (default_autoplay H)) w)
    end.

(** A write through the reference [guild_data] returned. *)
Definition update_player (gid : Z) (f : Player -> Player) : M unit :=
  modify (fun w => with_players (insert gid (f (player_of w gid))) w).

Definition set_autoplay_mode (gid : Z) (m : AutoplayMode) : M unit :=
  modify (with_autoplay (insert gid m)).

Definition queue_append (song : option Song) (p : Player) : Player :=
  {| queue := queue p ++ [song]; current_song := current_song p |}.

Definition queue_insert_front (song : option Song) (p : Player) : Player :=
  {| queue := song :: queue p; current_song := current_song p |}.

Definition queue_clear (p : Player) : Player :=
  {| queue := []; current_song := current_song p |}.

Definition set_queue (q : list (option Song)) (p : Player) : Player :=
  {| queue := q; current_song := current_song p |}.

Definition set_current_song (song : option Song) (p : Player) : Player :=
  {| queue := queue p; current_song := song |}.

End Data.
Export Data.

Module Voice.

Definition no_client : VoiceClient :=
  {| vc_guild := 0; vc_members := []; vc_playing := false |}.

(** The voice-client object behind a reference. *)
Definition vc_at (w : World) (vc : nat) : VoiceClient :=
  nth vc (voice_heap w) no_client.

Definition set_playing (b : bool) (c : VoiceClient) : VoiceClient :=
  {| vc_guild := vc_guild c; vc_members := vc_members c; vc_playing := b |}.

Definition update_vc (vc : nat) (f : VoiceClient -> VoiceClient) (w : World) : World :=
  with_voice (<[vc := f (vc_at w vc)]> (voice_heap w)) (voice_clients w) w.

(** [discord.utils.get(bot.voice_clients, guild=g)] *)
Definition utils_get (w : World) (g : option Z) : option nat :=
  match g with
  | None => None
  | Some g => find (fun vc => vc_guild (vc_at w vc) =? g) (voice_clients w)
  end.

(** [voice_client.is_playing()] *)
Definition is_playing (voice_client : option nat) : M bool :=
  match voice_client with
  | None => raise AttributeError
  | Some vc => fun w => (Ok (vc_playing (vc_at w vc)), w)
  end.

(** [voice_client.stop()] *)
Definition stop (vc : nat) : M unit :=
  exec modify (update_vc vc (set_playing false));
  emit (VoiceStop vc).

(** [voice_client.play(source, after=...)] *)
Definition play (vc : nat) (url : string) : M unit :=
  exec modify (update_vc vc (set_playing true));
  emit (VoicePlay vc url).

(** [await voice_client.disconnect()] *)
Definition disconnect (vc : nat) : M unit :=
  exec modify (fun w =>
    with_voice (voice_heap (update_vc vc (set_playing false) w))
               (filter (fun r => r ≠ vc) (voice_clients w)) w);
  emit (VoiceDisconnect vc).

(** [await channel.connect()] on a channel with the given members. *)
Definition connect (H : Host) (gid : Z) (members : list Z) : M nat :=
  if connect_succeeds H then
    do w <- get;
    let vc := length (voice_heap w) in
    let client := {| vc_guild := gid; vc_members := members ++ [bot_user H];
                     vc_playing := false |} in
    exec modify (with_voice (voice_heap w ++ [client]) (voice_clients w ++ [vc]));
    exec emit (VoiceConnect vc);
    ret vc
  else raise ClientException.

End Voice.

(** ** player.py, from the specification *)

Module PlayerEngine.

(** Modelled from the spec: the tracks an autoplay expansion produces
    (section 4.3.1), missing with [player.py].  RANDOM asks the catalog for
    a batch of random tracks; SIMILAR asks for tracks similar to the most
    recently played one, or to a random seed when there is none. *)
Definition autoplay_tracks (H : Host) (gid : Z) (mode : AutoplayMode)
  : outcome (list Song) :=
  match mode with
  | NONE => Ok []
  | RANDOM => get_random_songs H None None None None None
  | SIMILAR =>
      match recent_track H gid with
      | Some t => get_similar_songs H (id t) 50
      | None =>
          obind (get_random_songs H (Some 1) None None None None) (fun seed =>
          match seed with
          | [] => Ok []
          | t :: _ => get_similar_songs H (id t) 50
          end)
      end
  end.

(** Modelled from the spec: autoplay expansion (section 4.3.1), missing
    with [player.py]: the tracks produced are appended to the queue. *)
Definition autoplay_expansion (H : Host) (gid : Z) (mode : AutoplayMode) : M unit :=
  exec emit (AutoplayExpansion mode);
  do tracks <- lift (autoplay_tracks H gid mode);
  update_player gid (fun p => set_queue (queue p ++ map Some tracks) p).

(** Modelled from the spec: the second half of [startQueuePlayback]
    (section 4.3): "pop front of queue into current_track.  If still
    nothing to play, report queue empty without error.  Request track's
    stream URL from Media Catalog Client, instruct the voice connection to
    begin streaming it". *)
Definition start_front (H : Host) (interaction : Interaction) (vc : nat) : M unit :=
  let gid := guild_id interaction in
  do player <- guild_data gid;
  match queue player with
  | [] => ErrMsg.queue_is_empty (Some interaction)
  | front :: rest =>
      exec update_player gid (fun p => set_current_song front (set_queue rest p));
      match front with
      | None => raise AttributeError
      | Some track =>
          do url <- lift (stream H (id track));
          Voice.play vc url
      end
  end.

(** Modelled from the spec: [startQueuePlayback] (section 4.3), the
    [play_audio_queue] of the missing [player.py]: "if a track is already
    streaming, no-op.  Otherwise: pop front of queue into current_track; if
    queue was empty and autoplay_mode != NONE, first invoke autoplay
    expansion to produce tracks before popping". *)
Definition play_audio_queue (H : Host) (interaction : Interaction) (vc : nat) : M unit :=
  let gid := guild_id interaction in
  do playing <- Voice.is_playing (Some vc);
  if playing then ret tt
  else
    do player <- guild_data gid;
    do mode <- guild_properties H gid;
    exec match queue player, mode with
         | [], RANDOM | [], SIMILAR => autoplay_expansion H gid mode
         | _, _ => ret tt
         end;
    start_front H interaction vc.

(** Modelled from the spec: [skip] (section 4.3), the [skip_track] of the
    missing [player.py]: "halts active streaming, discards current_track
    without requeueing, then calls startQueuePlayback to advance". *)
Definition skip_track (H : Host) (interaction : Interaction) (vc : nat) : M unit :=
  exec Voice.stop vc;
  exec update_player (guild_id interaction) (set_current_song None);
  play_audio_queue H interaction vc.

End PlayerEngine.

(** ** extensions/music.py *)

Module MusicCog.

(** The two methods of the guild's player object that the commands call;
    [player.py] is not among the sources. *)
Record Engine : Type := {
  play_audio_queue : Interaction -> nat -> M unit;
  skip_track : Interaction -> nat -> M unit
}.

(** The engine of the specification. *)
Definition spec_engine (H : Host) : Engine :=
  {| play_audio_queue := PlayerEngine.play_audio_queue H;
     skip_track := PlayerEngine.skip_track H |}.

Definition get_voice_client (H : Host) (interaction : Interaction)
  (should_connect : bool) : M (option nat) :=
  do w <- get;
  match Voice.utils_get w (guild interaction) with
  | Some vc => ret (Some vc)
  | None =>
      if should_connect then
        match user_voice interaction with
        | Some {| channel := Some members |} =>
            do vc <- Voice.connect H (guild_id interaction) members;
            ret (Some vc)
        | Some {| channel := None |} | None =>
            (* AttributeError, caught *)
            exec ErrMsg.cannot_connect_to_voice_channel (Some interaction);
            ret None
        end
      else ret None
  end.

(** [for song in album.songs: player.queue.append(song)] *)
Fixpoint append_each (gid : Z) (songs : list Song) : M unit :=
  match songs with
  | [] => ret tt
  | song :: songs' =>
      exec update_player gid (queue_append (Some song));
      append_each gid songs'
  end.

Definition play (H : Host) (P : Engine) (interaction : Interaction)
  (querytype query : option string) : M unit :=
  let gid := guild_id interaction in
  match user_voice interaction with
  | None => ErrMsg.user_not_in_voice_channel (Some interaction)
  | Some _ =>
      do voice_client <- get_voice_client H interaction true;
      match voice_client with
      | None =>
          (* [voice_client.is_playing()] on [None] *)
          raise AttributeError
      | Some vc =>
      do playing <- Voice.is_playing (Some vc);
      if playing && (if query is None then true else false) then
        ErrMsg.already_playing (Some interaction)
      else
        do player <- guild_data gid;
        match query with
        | None =>
            do empty_and_off <-
              match queue player with
              | [] =>
                  do mode <- guild_properties H gid;
                  ret (if mode is NONE then true else false)
              | _ :: _ => ret false
              end;
            if empty_and_off : bool then ErrMsg.queue_is_empty (Some interaction)
            else
              exec SysMsg.starting_queue_playback H (Some interaction);
              play_audio_queue P interaction vc
        | Some query =>
            match querytype with
            | None => ErrMsg.msg (Some interaction) "Please provide a query type."
            | Some querytype =>
                if String.eqb querytype "track" then
                  do songs <- lift (search H query 0 0 0 0 1 0);
                  match songs with
                  | [] =>
                      ErrMsg.msg (Some interaction)
                        ("No track found for **" ++ query ++ "**.")%string
                  | song :: _ =>
                      exec update_player gid (queue_append (Some song));
                      exec SysMsg.added_to_queue H (Some interaction) song;
                      play_audio_queue P interaction vc
                  end
                else if String.eqb querytype "album" then
                  do album <- lift (search_album H query);
                  match album with
                  | None =>
                      ErrMsg.msg (Some interaction)
                        ("No album found for **" ++ query ++ "**.")%string
                  | Some album =>
                      exec append_each gid (songs album);
                      exec SysMsg.added_album_to_queue H (Some interaction) album;
                      play_audio_queue P interaction vc
                  end
                else play_audio_queue P interaction vc
            end
        end
      end
  end.

Definition stop (H : Host) (interaction : Interaction) : M unit :=
  let gid := guild_id interaction in
  do player <- guild_data gid;
  (* [ui.ErrMsg.not_playing(interaction)] without [await]: the coroutine
     object is created and dropped, its body never runs *)
  let _ := match current_song player with
           | None => Some (ErrMsg.not_playing (Some interaction))
           | Some _ => None
           end in
  do voice_client <- get_voice_client H interaction false;
  match voice_client with
  | None => ErrMsg.bot_not_in_voice_channel (Some interaction)
  | Some vc =>
      exec Voice.stop vc;
      exec update_player gid (fun p => queue_insert_front (current_song p) p);
      exec update_player gid (set_current_song None);
      SysMsg.stopping_queue_playback H (Some interaction)
  end.

Definition clear_queue (H : Host) (interaction : Interaction) : M unit :=
  do player <- guild_data (guild_id interaction);
  exec update_player (guild_id interaction) queue_clear;
  SysMsg.queue_cleared H (Some interaction).

Definition skip (H : Host) (P : Engine) (interaction : Interaction) : M unit :=
  do voice_client <- get_voice_client H interaction false;
  match voice_client with
  | None => ErrMsg.bot_not_in_voice_channel (Some interaction)
  | Some vc =>
      do playing <- Voice.is_playing (Some vc);
      if negb playing then ErrMsg.not_playing (Some interaction)
      else
        exec guild_data (guild_id interaction);
        skip_track P interaction vc
  end.

Definition autoplay (H : Host) (P : Engine) (interaction : Interaction)
  (mode_name mode_value : string) : M unit :=
  let gid := guild_id interaction in
  exec (if String.eqb mode_value "none" then
          exec guild_properties H gid; set_autoplay_mode gid NONE
        else if String.eqb mode_value "random" then
          exec guild_properties H gid; set_autoplay_mode gid RANDOM
        else if String.eqb mode_value "similar" then
          exec guild_properties H gid; set_autoplay_mode gid SIMILAR
        else ret tt);
  exec (if String.eqb mode_value "none" then
          SysMsg.msg H (Some interaction)
            ("Autoplay disabled by " ++ display_name interaction)%string None None false
        else
          SysMsg.msg H (Some interaction)
            ("Autoplay enabled by " ++ display_name interaction)%string
            (Some ("Autoplay mode: **" ++ mode_name ++ "**")%string) None false);
  do voice_client <- get_voice_client H interaction false;
  match voice_client with
  | None => ret tt
  | Some vc =>
      do playing <- Voice.is_playing (Some vc);
      if negb playing then
        exec guild_data gid;
        play_audio_queue P interaction vc
      else ret tt
  end.

(** [await sleep(10)] in the occupancy watcher: while the handler is
    suspended the rest of the system runs; [during_wait] is what it does to
    the world (members joining or leaving, other handlers). *)
Definition wait (seconds : Q) (during_wait : World -> World) : M unit :=
  exec sleep seconds;
  modify during_wait.

(** [len(voice_client.channel.members) == 1] *)
Definition alone (w : World) (vc : nat) : bool :=
  (length (vc_members (Voice.vc_at w vc)) =? 1)%nat.

Definition on_voice_state_update (during_wait : World -> World) (member_guild : Z)
  : M unit :=
  do w <- get;
  match Voice.utils_get w (Some member_guild) with
  | None => ret tt
  | Some vc =>
      if alone w vc then
        exec log DEBUG "Bot is alone in voice channel, waiting 10 seconds before disconnecting...";
        exec wait (Qmake 10 1) during_wait;
        do w' <- get;
        if alone w' vc then
          exec Voice.disconnect vc;
          exec guild_data member_guild;
          exec update_player member_guild queue_clear;
          exec update_player member_guild (set_current_song None);
          log INFO "The bot has disconnected and cleared the queue as there are no users in the voice channel."
        else
          log DEBUG "Bot is no longer alone in voice channel, aborting disconnect..."
      else ret tt
  end.

(** One numbered entry of the queue listing; a slot that holds [None] has
    no [title]. *)
Definition queue_entry (H : Host) (i : nat) (slot : option Song) : outcome string :=
  match slot with
  | None => Raise AttributeError
  | Some song =>
      obind (duration_printable song) (fun printable =>
      Ok (str_of_int (Z.of_nat i + 1) ++ ". **" ++ format_value H (title song) ++
          "** - *" ++ format_value H (artist song) ++ "*" ++ nl ++
          format_value H (album song) ++ " (" ++ printable ++ ")" ++ nl ++ nl)%string)
  end.

(** [for i, song in enumerate(queue): output += ...], from index [i] on. *)
Fixpoint queue_entries (H : Host) (i : nat) (slots : list (option Song))
  (output : string) : outcome string :=
  match slots with
  | [] => Ok output
  | slot :: slots' =>
      obind (queue_entry H i slot) (fun entry =>
      queue_entries H (S i) slots' (output ++ entry))
  end.

Definition show_queue (H : Host) (interaction : Interaction) : M unit :=
  let gid := guild_id interaction in
  do player <- guild_data gid;
  do playing_now <- guild_data gid;
  do output <-
    match current_song playing_now with
    | Some _ =>
        do player' <- guild_data gid;
        match current_song player' with
        | None => raise AttributeError
        | Some song =>
            do printable <- lift (duration_printable song);
            ret ("**Now Playing:**" ++ nl ++ format_value H (title song) ++ " - *" ++
                 format_value H (artist song) ++ "*" ++ nl ++
                 format_value H (album song) ++ " (" ++ printable ++ ")" ++ nl ++ nl)%string
        end
    | None => ret ""
    end;
  (* [queue] was bound to the list object first; the entry is the same *)
  do listed <- guild_data gid;
  do output <- lift (queue_entries H 0 (queue listed) output);
  let output := if String.eqb output "" then "Queue is empty!" else output in
  SysMsg.msg H (Some interaction) "Queue" (Some output) None false.

End MusicCog.

(** ** Reading a trace *)

Module Observe.

(** The delivery attempts and delays of a trace, in order. *)
Inductive tick : Type :=
| Attempt (result : Delivery)
| Delay (seconds : Q).

Definition tick_of (e : Event) : option tick :=
  match e with
  | Send _ _ _ _ result => Some (Attempt result)
  | Sleep seconds => Some (Delay seconds)
  | _ => None
  end.

Definition ticks (t : list Event) : list tick := omap tick_of t.

Definition is_attempt (k : tick) : bool :=
  match k with Attempt _ => true | Delay _ => false end.

Definition attempts (t : list Event) : nat :=
  length (List.filter is_attempt (ticks t)).

Definition delays (t : list Event) : list Q :=
  omap (fun k => match k with Delay s => Some s | Attempt _ => None end) (ticks t).

Definition failed (d : Delivery) : bool :=
  match d with Delivered => false | _ => true end.


(** The events a run added to the trace. *)
Definition new_events (w w' : World) : list Event :=
  drop (length (trace w)) (trace w').

(** A world that differs from [w] only in what the senders touch. *)
Definition after_messages (w : World) (done : bool) (script : list Delivery)
  (t : list Event) : World :=
  {| guild_players := guild_players w; guild_autoplay := guild_autoplay w;
     voice_heap := voice_heap w; voice_clients := voice_clients w;
     response_done := done; deliveries := script; trace := t |}.

(** The attempts and delays that [n] rounds of the retry loop make of a
    script, whether all of them fail, and what is left of the script. *)
Fixpoint schedule (n : nat) (script : list Delivery) : list tick :=
  match n with
  | O => []
  | S n' =>
      match hd Delivered script with
      | Delivered => [Attempt Delivered]
      | result => Attempt result :: Delay retry_delay :: schedule n' (tl script)
      end
  end.

Fixpoint gives_up (n : nat) (script : list Delivery) : bool :=
  match n with
  | O => true
  | S n' => failed (hd Delivered script) && gives_up n' (tl script)
  end.

Fixpoint unread (n : nat) (script : list Delivery) : list Delivery :=
  match n with
  | O => script
  | S n' =>
      match hd Delivered script with
      | Delivered => tl script
      | _ => unread n' (tl script)
      end
  end.


(** The events the senders make. *)
Definition sender_event (e : Event) : bool :=
  match e with
  | Log _ _ | Send _ _ _ _ _ | Sleep _ => true
  | _ => false
  end.

(** One call of a sender: it returns normally in a world that differs from
    the start in the response flag, the script and the trace only.  With an
    invalid interaction it only logs a warning; otherwise its attempts and
    delays are those of three rounds of the loop, and when all three fail
    its last act is the error log. *)
Definition sender_run (w : World) (valid : bool) (run : outcome unit * World)
  (warning give_up_log : string) : Prop :=
  exists new done script,
    run = (Ok tt, after_messages w done script (trace w ++ new)) /\
    forallb sender_event new = true /\
    (valid = false -> new = [Log WARNING warning]) /\
    (valid = true ->
       ticks new = schedule 3 (deliveries w) /\
       (gives_up 3 (deliveries w) = true ->
        last new = Some (Log ERROR give_up_log))).

(** A trace event that starts a stream or expands the queue. *)
Definition is_voice_play (e : Event) : bool :=
  match e with VoicePlay _ _ => true | _ => false end.

Definition is_expansion (e : Event) : bool :=
  match e with AutoplayExpansion _ => true | _ => false end.

Definition started_playback (t : list Event) : bool := existsb is_voice_play t.

Definition expansion_invoked (t : list Event) : bool := existsb is_expansion t.

Definition quiet (e : Event) : bool := negb (is_voice_play e || is_expansion e).

(** Every guild's playback state and autoplay mode read the same in both
    worlds. *)
Definition same_guild_state (H : Host) (w w1 : World) : Prop :=
  (forall g, player_of w1 g = player_of w g) /\
  (forall g, autoplay_of H w1 g = autoplay_of H w g).

(** [w1] comes after [w], with the guild state as it was and without a
    stream started or the queue expanded in between. *)
Definition quiet_step (H : Host) (w w1 : World) : Prop :=
  same_guild_state H w w1 /\
  exists ev, trace w1 = trace w ++ ev /\ forallb quiet ev = true.

(** The world once the guild's playback entry was looked up. *)
Definition entered (gid : Z) (w : World) : World := snd (guild_data gid w).

(** The world once the guild's playback entry and then its properties were
    looked up. *)
Definition looked_up (H : Host) (gid : Z) (w : World) : World :=
  snd (guild_properties H gid (entered gid w)).
(** The world the occupancy watcher finds when its wait is over. *)
Definition at_recheck (during_wait : World -> World) (w : World) : World :=
  during_wait
    (with_trace (fun t => t ++ [Sleep (Qmake 10 1)])
       (with_trace
          (fun t => t ++ [Log DEBUG "Bot is alone in voice channel, waiting 10 seconds before disconnecting..."])
          w)).

(** The delivery attempts of a trace with what they carried. *)
Record Dispatch : Type := {
  sent_route : Route;
  sent_file : option string;
  sent_embed : Embed;
  sent_ephemeral : bool;
  sent_result : Delivery
}.

Definition sent_of (e : Event) : option Dispatch :=
  match e with
  | Send route file embed ephemeral result =>
      Some {| sent_route := route; sent_file := file; sent_embed := embed;
              sent_ephemeral := ephemeral; sent_result := result |}
  | _ => None
  end.

Definition sends (t : list Event) : list Dispatch := omap sent_of t.

(** The results of the attempts that [n] rounds of the retry loop make of
    a script. *)
Fixpoint tried (n : nat) (script : list Delivery) : list Delivery :=
  match n with
  | O => []
  | S n' =>
      match hd Delivered script with
      | Delivered => [Delivered]
      | result => result :: tried n' (tl script)
      end
  end.

(** The route of an attempt made when the response flag is [done]. *)
Definition route_for (done : bool) : Route := if done then Followup else Response.

Definition is_voice_connect (e : Event) : bool :=
  match e with VoiceConnect _ => true | _ => false end.

(** The url and parameters of the request [get_random_songs] makes. *)
Definition random_songs_request (E : Env)
  (size : option Z) (genre : option string) (from_year to_year : option Z)
  (music_folder_id : option string) : string * list (string * json) :=
  ((str_of_env (SUB_SERVER E) ++ "/rest/getRandomSongs.view")%string,
   dict_union (SUBSONIC_REQUEST_PARAMS E)
     (set_if_given "musicFolderId" (JStr <$> music_folder_id)
     (set_if_given "toYear" (JNum <$> to_year)
     (set_if_given "fromYear" (JNum <$> from_year)
     (set_if_given "genre" (JStr <$> genre)
     (set_if_given "size" (JNum <$> size) [])))))).


(** *** Vocabulary of the further properties *)

(** The embed of a system message without thumbnail: the header as title
    and the message, cut to the display limit of 4096 characters, as
    description. *)
Definition sys_embed (header : string) (message : option string) : Embed :=
  {| color := 0x50C470; embed_title := header;
     description :=
       match message with
       | Some m =>
           if (4096 <? str_len m)%nat
           then Some (str_take 4093 m ++ "...")%string
           else Some m
       | None => None
       end;
     embed_thumbnail := None |}.

(** The same embed pointing to the attached image. *)
Definition with_thumbnail (e : Embed) : Embed :=
  {| color := color e; embed_title := embed_title e; description := description e;
     embed_thumbnail := Some "attachment://image.png" |}.

(** The file [SysMsg.msg] attaches: the thumbnail when it can be opened. *)
Definition attached (H : Host) (thumbnail : option string) : option string :=
  match thumbnail with
  | Some path =>
      match discord_File H path with
      | None => Some path
      | Some _ => None
      end
  | None => None
  end.

(** The embed of an error message. *)
Definition err_embed (message : string) : Embed :=
  {| color := 0x50C470; embed_title := "Error"; description := Some message;
     embed_thumbnail := None |}.

(** Between [w] and [w0] nothing was sent and no scripted delivery result
    was used up. *)
Definition unsent (w w0 : World) : Prop :=
  deliveries w0 = deliveries w /\
  exists pre, trace w0 = trace w ++ pre /\ sends pre = [].

(** The run of a command started in [w] reported [text] to the caller as
    an error: it returned normally and made at least one delivery attempt;
    every attempt it made was ephemeral, without file, and carried the
    error embed with [text]; and the attempts met the results the platform
    had in store, one after the other up to the first delivery or the
    third failure. *)
Definition reported (w : World) (run : outcome unit * World) (text : string) : Prop :=
  let ds := sends (new_events w (snd run)) in
  fst run = Ok tt /\
  ds <> [] /\
  Forall (fun d => sent_embed d = err_embed text /\ sent_ephemeral d = true /\
                   sent_file d = None) ds /\
  map sent_result ds = tried 3 (deliveries w).

(** The run of a command started in [w] sent the notice with [header] and
    [message]: as [reported], with the embed of a system message. *)
Definition notified (w : World) (run : outcome unit * World) (header : string)
  (message : option string) (ephemeral : bool) : Prop :=
  let ds := sends (new_events w (snd run)) in
  fst run = Ok tt /\
  ds <> [] /\
  Forall (fun d => sent_embed d = sys_embed header message /\
                   sent_ephemeral d = ephemeral /\ sent_file d = None) ds /\
  map sent_result ds = tried 3 (deliveries w).

(** The run made no delivery attempt at all. *)
Definition silent (w : World) (run : outcome unit * World) : Prop :=
  sends (new_events w (snd run)) = [].

(** The service answers every request with a well-formed envelope whose
    song list under [result_key] is [items]. *)
Definition answers (E : Env) (result_key : string) (items : list json) : Prop :=
  forall url params,
    exists top envelope result,
      requests_get_json E url params = Ok (JObj top) /\
      dict_get "subsonic-response" top = Some (JObj envelope) /\
      dict_get result_key envelope = Some (JObj result) /\
      dict_get "song" result = Some (JArr items).

(** The result is one Song per record, in order, each the Song its record
    alone gives. *)
Definition one_to_one (records : list (list (string * json)))
  (r : outcome (list Song)) : Prop :=
  exists songs,
    r = Ok songs /\
    length songs = length records /\
    Forall2 (fun d s => Song_init (JObj d) = Ok s) records songs.

(** A JSON value that is neither a string nor a container. *)
Definition scalar (v : json) : bool :=
  match v with
  | JNull | JBool _ | JNum _ | JFloat _ _ => true
  | _ => false
  end.

(** What one call of a sender does with the two ways of answering an
    interaction: all its attempts go the same way, through the initial
    response when the response is not done yet and through the followup
    when it is; a response that is done stays done; and the call leaves the
    response done exactly when it was done before or an attempt was
    delivered. *)
Definition one_way (w : World) (run : outcome unit * World) : Prop :=
  let ds := sends (new_events w (snd run)) in
  Forall (fun d => sent_route d = route_for (response_done w)) ds /\
  (response_done w = true -> response_done (snd run) = true) /\
  ((exists d, In d ds /\ sent_result d = Delivered) ->
   response_done (snd run) = true) /\
  (response_done (snd run) = true ->
   response_done w = true \/ exists d, In d ds /\ sent_result d = Delivered).

(** Every registered voice client refers to a client object. *)
Definition well_formed_voice (w : World) : Prop :=
  Forall (fun r => (r < length (voice_heap w))%nat) (voice_clients w).

(** What a refusal of a command is: the command is the error message
    [text] sent from the world [w0]; it returns normally and leaves every
    guild's playback state and autoplay mode as they were in [w], starting
    no stream; issued in a guild it reports [text] to the caller, with at
    least one delivery attempt, and outside a guild it sends nothing. *)
Definition refused (H : Host) (i : Interaction) (w : World)
  (run : outcome unit * World) (text : string) (w0 : World) : Prop :=
  run = ErrMsg.msg (Some i) text w0 /\
  fst run = Ok tt /\
  quiet_step H w (snd run) /\
  (guild i <> None -> reported w run text) /\
  (guild i = None -> silent w run).

(** The heading of the queue listing, for the current track. *)
Definition queue_heading (H : Host) (song : Song) : outcome string :=
  obind (duration_printable song) (fun printable =>
  Ok ("**Now Playing:**" ++ nl ++ format_value H (title song) ++ " - *" ++
      format_value H (artist song) ++ "*" ++ nl ++
      format_value H (album song) ++ " (" ++ printable ++ ")" ++ nl ++ nl)%string).

(** The text [show_queue] builds from a playback state: the heading for
    the current track, if any, then the numbered entries of the queue. *)
Definition queue_listing (H : Host) (p : Player) : outcome string :=
  obind (match current_song p with
         | Some song => queue_heading H song
         | None => Ok ""
         end)
    (MusicCog.queue_entries H 0 (queue p)).

(** The notice [autoplay] sends for a choice. *)
Definition autoplay_header (i : Interaction) (mode_value : string) : string :=
  if String.eqb mode_value "none" then ("Autoplay disabled by " ++ display_name i)%string
  else ("Autoplay enabled by " ++ display_name i)%string.

Definition autoplay_message (mode_name mode_value : string) : option string :=
  if String.eqb mode_value "none" then None
  else Some ("Autoplay mode: **" ++ mode_name ++ "**")%string.

(** The world [play] hands on after appending one track. *)
Definition with_track (gid : Z) (song : Song) (w : World) : World :=
  snd (update_player gid (queue_append (Some song)) (entered gid w)).

(** The autoplay mode that the value of the command's choice selects. *)
Definition chosen_mode (mode_value : string) (before : AutoplayMode) : AutoplayMode :=
  if String.eqb mode_value "none" then NONE
  else if String.eqb mode_value "random" then RANDOM
  else if String.eqb mode_value "similar" then SIMILAR
  else before.

(** The character of a decimal digit. *)
Definition digit (d : Z) : ascii := ascii_of_nat (48 + Z.to_nat d).

(** A number below 100 written with two digits. *)
Definition two_digits (k : Z) : string :=
  String (digit (k / 10)) (String (digit (k mod 10)) EmptyString).

(** A duration that [duration_printable] can print: an int (or a bool,
    which is one). *)
Definition is_printable (v : json) : bool :=
  match v with
  | JNum _ | JBool _ => true
  | _ => false
  end.




(** A song whose tags are text and whose duration is an int. *)
Definition text_tags (s : Song) : Prop :=
  (exists t, title s = JStr t) /\ (exists a, artist s = JStr a) /\
  (exists al, album s = JStr al) /\ (exists n, duration s = JNum n).

End Observe.
Export Observe.

(** ** Sample worlds *)

Module Fixtures.

Definition song_a : Song :=
  {| _id := JStr "17"; _title := JStr "Blue in Green"; _album := JStr "Miles Davis";
     _artist := JStr "Kind of Blue"; _duration := JNum 337 |}.

Definition song_b : Song :=
  {| _id := JStr "18"; _title := JStr "All Blues"; _album := JStr "Miles Davis";
     _artist := JStr "Kind of Blue"; _duration := JNum 693 |}.

Definition kind_of_blue : Album :=
  {| album_id := JStr "3"; name := JStr "Kind of Blue";
     album_artist := JStr "Miles Davis"; songs := [song_a; song_b];
     song_count := JNum 2; album_duration := JNum 1030;
     album_cover_id := JStr "al-3" |}.

(** A service that finds no song and lists none at random. *)
Definition empty_results : json :=
  JObj [ ("subsonic-response",
          JObj [ ("status", JStr "ok");
                 ("searchResult3", JObj [ ("song", JArr []) ]);
                 ("randomSongs", JObj [ ("song", JArr []) ]);
                 ("similarSongs2", JObj [ ("song", JArr []) ]) ]) ].

Definition service : Env :=
  {| SUB_SERVER := Some "http://music.example";
     SUB_USER := Some "user";
     SUB_PASSWORD := Some "secret";
     requests_get_json := fun _ _ => Ok empty_results;
     requests_get_url := fun url _ => Ok url |}.

Definition host : Host :=
  {| catalog := service;
     repr := fun _ => "?";
     get_album_art_file := fun _ => Ok None;
     search_album := fun _ => Ok (Some kind_of_blue);
     discord_File := fun _ => None;
     connect_succeeds := true;
     bot_user := 1;
     default_autoplay := NONE;
     recent_track := fun _ => None |}.

(** A member of guild 7, sitting in its voice channel. *)
Definition listener : Interaction :=
  {| guild := Some 7; guild_id := 7;
     user_voice := Some {| channel := Some [2] |};
     display_name := "ana" |}.

(** Guild 7 with the bot connected to its voice channel. *)
Definition connected (playing : bool) (members : list Z) (p : Player)
  (script : list Delivery) : World :=
  {| guild_players := {[ 7 := p ]};
     guild_autoplay := ∅;
     voice_heap := [ {| vc_guild := 7; vc_members := members; vc_playing := playing |} ];
     voice_clients := [0%nat];
     response_done := false;
     deliveries := script;
     trace := [] |}.

Definition idle_with_queue : World :=
  connected false [2; 1] {| queue := [Some song_b]; current_song := None |} [].

Definition playing_song_a : World :=
  connected true [2; 1] {| queue := [Some song_b]; current_song := Some song_a |} [].

Definition nothing_queued : World :=
  connected false [2; 1] {| queue := []; current_song := None |} [].


Definition bot_alone : World :=
  connected false [1] {| queue := [Some song_b]; current_song := None |} [].

(** During the wait a member comes back to the channel. *)
Definition member_returns (w : World) : World :=
  with_voice [ {| vc_guild := 7; vc_members := [1; 2]; vc_playing := false |} ]
    (voice_clients w) w.

(** *** Further sample data *)

(** The record the service holds for [song_a]. *)
Definition blue_in_green_record : json :=
  JObj [ ("id", JStr "17"); ("title", JStr "Blue in Green");
         ("artist", JStr "Miles Davis"); ("album", JStr "Kind of Blue");
         ("duration", JNum 337) ].

(** A record whose duration is a clock text instead of a number of
    seconds. *)
Definition clock_text_record : list (string * json) :=
  [ ("id", JStr "19"); ("title", JStr "Flamenco Sketches");
    ("duration", JStr "9:26") ].

(** The Song the constructor builds from [clock_text_record]. *)
Definition flamenco_sketches : Song :=
  {| _id := JStr "19"; _title := JStr "Flamenco Sketches";
     _album := JStr "Unknown Artist"; _artist := JStr "Unknown Album";
     _duration := JStr "9:26" |}.

(** A service that answers every request with the song list [items]. *)
Definition service_listing (items : list json) : Env :=
  {| SUB_SERVER := Some "http://music.example";
     SUB_USER := Some "user";
     SUB_PASSWORD := Some "secret";
     requests_get_json := fun _ _ =>
       Ok (JObj [ ("subsonic-response",
                   JObj [ ("status", JStr "ok");
                          ("searchResult3", JObj [ ("song", JArr items) ]);
                          ("randomSongs", JObj [ ("song", JArr items) ]);
                          ("similarSongs2", JObj [ ("song", JArr items) ]) ]) ]);
     requests_get_url := fun url _ => Ok url |}.

Definition host_listing (items : list json) : Host :=
  {| catalog := service_listing items;
     repr := fun _ => "?";
     get_album_art_file := fun _ => Ok None;
     search_album := fun _ => Ok None;
     discord_File := fun _ => None;
     connect_succeeds := true;
     bot_user := 1;
     default_autoplay := NONE;
     recent_track := fun _ => None |}.

(** A host on which no cover file can be opened. *)
Definition host_without_covers : Host :=
  {| catalog := service;
     repr := fun _ => "?";
     get_album_art_file := fun _ => Ok None;
     search_album := fun _ => Ok None;
     discord_File := fun _ => Some "No such file";
     connect_succeeds := true;
     bot_user := 1;
     default_autoplay := NONE;
     recent_track := fun _ => None |}.

(** A member of guild 7 who sits in no voice channel. *)
Definition outsider : Interaction :=
  {| guild := Some 7; guild_id := 7; user_voice := None; display_name := "bo" |}.

(** Guild 7 with a track queued and the bot in no voice channel. *)
Definition not_connected : World :=
  {| guild_players := {[ 7 := {| queue := [Some song_b]; current_song := None |} ]};
     guild_autoplay := ∅;
     voice_heap := [];
     voice_clients := [];
     response_done := false;
     deliveries := [];
     trace := [] |}.

(** Guild 7 with a queue whose first slot holds no track. *)
Definition with_empty_slot : World :=
  connected false [2; 1] {| queue := [None; Some song_b]; current_song := None |} [].

End Fixtures.

(** * Properties *)

(** ** The catalog client *)

Module SubsonicFacts.

Lemma field_or_dict (d : list (string * json)) (k : string) (dflt : json) :
  field_or (JObj d) k dflt = Ok (default dflt (dict_get k d)).
Proof.
  unfold field_or; simpl. destruct (dict_get k d); reflexivity.
Qed.

(** What the constructor builds from a dict, field by field. *)
Lemma Song_init_dict (d : list (string * json)) :
  Song_init (JObj d) =
  Ok {| _id := default (JStr "") (dict_get "id" d);
        _title := default (JStr "Unknown Track") (dict_get "title" d);
        _album := default (JStr "Unknown Artist") (dict_get "artist" d);
        _artist := default (JStr "Unknown Album") (dict_get "album" d);
        _duration := default (JNum 0) (dict_get "duration" d) |}.
Proof.
  unfold Song_init. rewrite !field_or_dict. reflexivity.
Qed.

(** The title and duration of a Track are the record's, with their own
    sentinels. *)
Lemma Song_title_duration (d : list (string * json)) (s : Song) :
  Song_init (JObj d) = Ok s ->
  title s = default (JStr "Unknown Track") (dict_get "title" d) /\
  duration s = default (JNum 0) (dict_get "duration" d).
Proof.
  rewrite Song_init_dict. intros [= <-]. split; reflexivity.
Qed.

(** The artist of a Track is the record's album and the other way round,
    each with the other's sentinel. *)
Lemma Song_artist_album (d : list (string * json)) (s : Song) :
  Song_init (JObj d) = Ok s ->
  artist s = default (JStr "Unknown Album") (dict_get "album" d) /\
  album s = default (JStr "Unknown Artist") (dict_get "artist" d).
Proof.
  rewrite Song_init_dict. intros [= <-]. split; reflexivity.
Qed.

Definition sample_record : json :=
  JObj [ ("id", JStr "17"); ("title", JStr "Blue in Green");
         ("artist", JStr "Miles Davis"); ("album", JStr "Kind of Blue");
         ("duration", JNum 337) ].

(** C2, at a record that carries every field and at the empty record: the
    Track's artist is the record's album ("Kind of Blue") and its album is
    the record's artist ("Miles Davis"), where the claim has artist from
    artist and album from album; with the fields missing the artist
    defaults to "Unknown Album" and the album to "Unknown Artist".  Title
    and duration are as claimed. *)
Theorem Song_init_swaps_artist_and_album :
  (exists s, Song_init sample_record = Ok s /\
     title s = JStr "Blue in Green" /\ duration s = JNum 337 /\
     artist s = JStr "Kind of Blue" /\ album s = JStr "Miles Davis") /\
  (exists s, Song_init (JObj []) = Ok s /\
     title s = JStr "Unknown Track" /\ duration s = JNum 0 /\
     artist s = JStr "Unknown Album" /\ album s = JStr "Unknown Artist").
Proof.
  split; eexists; (split; [reflexivity |]); repeat split.
Qed.

(** A response whose result object has no song list makes the walk down
    the envelope fail on the last key. *)
Lemma songs_of_response_without_list
  (result_key : string) (top envelope result : list (string * json)) :
  dict_get "subsonic-response" top = Some (JObj envelope) ->
  dict_get result_key envelope = Some (JObj result) ->
  dict_get "song" result = None ->
  songs_of_response result_key (JObj top) = Raise (KeyError "song").
Proof.
  intros Htop Henv Hres. unfold songs_of_response; simpl.
  rewrite Htop; simpl. rewrite Henv; simpl. rewrite Hres. reflexivity.
Qed.

(** With the list present and empty the result is the empty list. *)
Lemma songs_of_response_empty_list
  (result_key : string) (top envelope result : list (string * json)) :
  dict_get "subsonic-response" top = Some (JObj envelope) ->
  dict_get result_key envelope = Some (JObj result) ->
  dict_get "song" result = Some (JArr []) ->
  songs_of_response result_key (JObj top) = Ok [].
Proof.
  intros Htop Henv Hres. unfold songs_of_response; simpl.
  rewrite Htop; simpl. rewrite Henv; simpl. rewrite Hres. reflexivity.
Qed.

(** A service that answers every request with a result object without a
    song list. *)
Definition no_match (result_key : string) : json :=
  JObj [ ("subsonic-response",
          JObj [ ("status", JStr "ok"); ("version", JStr "1.16.1");
                 (result_key, JObj []) ]) ].

Definition no_match_service (result_key : string) : Env :=
  {| SUB_SERVER := Some "http://music.example";
     SUB_USER := Some "user";
     SUB_PASSWORD := Some "secret";
     requests_get_json := fun _ _ => Ok (no_match result_key);
     requests_get_url := fun url _ => Ok url |}.

(** C3, at a service that reports zero matches by leaving the song list
    out: search, get_random_songs and get_similar_songs each raise
    KeyError on "song" where the claim has them return the empty list. *)
Theorem list_operations_raise_without_song_list :
  search (no_match_service "searchResult3") "nothing like this" 0 0 0 0 1 0
    = Raise (KeyError "song") /\
  get_random_songs (no_match_service "randomSongs") None None None None None
    = Raise (KeyError "song") /\
  get_similar_songs (no_match_service "similarSongs2") (JStr "17") 50
    = Raise (KeyError "song").
Proof.
  repeat split; reflexivity.
Qed.

End SubsonicFacts.

(** ** The message senders *)

Module SenderFacts.

Lemma after_messages_same (w : World) :
  after_messages w (response_done w) (deliveries w) (trace w ++ []) = w.
Proof.
  destruct w; unfold after_messages; simpl. rewrite app_nil_r. reflexivity.
Qed.

Lemma after_messages_again (w : World) done script t done' script' t' :
  after_messages (after_messages w done script t) done' script' t'
  = after_messages w done' script' t'.
Proof. reflexivity. Qed.

Lemma new_events_app (w w' : World) (new : list Event) :
  trace w' = trace w ++ new -> new_events w w' = new.
Proof.
  intros E. unfold new_events. rewrite E. apply drop_app_length.
Qed.

Lemma ticks_app (t1 t2 : list Event) : ticks (t1 ++ t2) = ticks t1 ++ ticks t2.
Proof. unfold ticks. apply omap_app. Qed.






(** The loop test fails: the loop is left at once. *)
Lemma sys_loop_done (a : Z) file embed ephemeral (w : World) :
  3 <= a -> SysMsg.send_loop a file embed ephemeral w = (Ok (Exhausted a), w).
Proof.
  intros Ha. simp send_loop.
  destruct (UI.inspect (a <? 3)) as [[] Hb]; [exfalso | reflexivity].
  pose proof (Z.ltb_spec a 3) as Hs. rewrite Hb in Hs. inversion Hs. lia.
Qed.

Lemma err_loop_done (a : Z) embed (w : World) :
  3 <= a -> ErrMsg.send_loop a embed w = (Ok (Exhausted a), w).
Proof.
  intros Ha. simp send_loop.
  destruct (UI.inspect (a <? 3)) as [[] Hb]; [exfalso | reflexivity].
  pose proof (Z.ltb_spec a 3) as Hs. rewrite Hb in Hs. inversion Hs. lia.
Qed.

(** The loop test holds: one round, written with the rest of the loop. *)
Lemma sys_loop_step (a : Z) file embed ephemeral (w : World) :
  a < 3 ->
  SysMsg.send_loop a file embed ephemeral w =
  (do done <- is_done;
   do result <- deliver (if done then Followup else Response) file embed ephemeral;
   match result with
   | Delivered => ret Sent
   | NotFound =>
       exec log WARNING ("Attempt " ++ str_of_int (a + 1) ++
            " at sending a system message failed (NotFound)...")%string;
       exec sleep retry_delay;
       SysMsg.send_loop (a + 1) file embed ephemeral
   | HTTPException e =>
       exec log WARNING ("Attempt " ++ str_of_int (a + 1) ++
            " at sending a system message failed (HTTPException: " ++ e ++
            ")...")%string;
       exec sleep retry_delay;
       SysMsg.send_loop (a + 1) file embed ephemeral
   | OtherException e =>
       exec log ERROR ("Unexpected error when sending system message: " ++ e)%string;
       exec sleep retry_delay;
       SysMsg.send_loop (a + 1) file embed ephemeral
   end) w.
Proof.
  intros Ha. set (k := SysMsg.send_loop (a + 1) file embed ephemeral).
  simp send_loop.
  destruct (UI.inspect (a <? 3)) as [[] Hb]; [reflexivity | exfalso].
  pose proof (Z.ltb_spec a 3) as Hs. rewrite Hb in Hs. inversion Hs. lia.
Qed.

Lemma err_loop_step (a : Z) embed (w : World) :
  a < 3 ->
  ErrMsg.send_loop a embed w =
  (do done <- is_done;
   do result <- deliver (if done then Followup else Response) None embed true;
   match result with
   | Delivered => ret Sent
   | NotFound =>
       exec log WARNING ("Attempt " ++ str_of_int (a + 1) ++
            " at sending an error message failed (NotFound)...")%string;
       exec sleep retry_delay;
       ErrMsg.send_loop (a + 1) embed
   | HTTPException e =>
       exec log WARNING ("Attempt " ++ str_of_int (a + 1) ++
            " at sending an error message failed (HTTPException: " ++ e ++
            ")...")%string;
       exec sleep retry_delay;
       ErrMsg.send_loop (a + 1) embed
   | OtherException e =>
       exec log ERROR ("Unexpected error when sending error message: " ++ e)%string;
       exec sleep retry_delay;
       ErrMsg.send_loop (a + 1) embed
   end) w.
Proof.
  intros Ha. set (k := ErrMsg.send_loop (a + 1) embed).
  simp send_loop.
  destruct (UI.inspect (a <? 3)) as [[] Hb]; [reflexivity | exfalso].
  pose proof (Z.ltb_spec a 3) as Hs. rewrite Hb in Hs. inversion Hs. lia.
Qed.

(** A failed round hands the rest of the loop a world that differs in the
    script and the trace only. *)
Lemma failed_round_world (w : World) (rest : list Delivery) (e1 e2 e3 : Event) :
  with_trace (fun t => t ++ [e3])
    (with_trace (fun t => t ++ [e2])
       (with_trace (fun t => t ++ [e1]) (with_deliveries rest w)))
  = after_messages w (response_done w) rest (trace w ++ [e1; e2; e3]).
Proof.
  unfold with_trace, with_deliveries, after_messages; simpl.
  rewrite <- !app_assoc. reflexivity.
Qed.

Lemma delivered_round_world (w : World) (rest : list Delivery) (e : Event) (route : Route) :
  exists done,
    match route with
    | Followup => with_trace (fun t => t ++ [e]) (with_deliveries rest w)
    | Response =>
        with_response_done true (with_trace (fun t => t ++ [e]) (with_deliveries rest w))
    end = after_messages w done rest (trace w ++ [e]).
Proof.
  destruct route; eexists; reflexivity.
Qed.

Ltac loop_run_tac done_lemma step_lemma IH a w :=
  let d := fresh "d" in
  let Hw := fresh "Hw" in
  let new := fresh "new" in
  let Hrun := fresh "Hrun" in
  let Hticks := fresh "Hticks" in
  let Hkind := fresh "Hkind" in
  first
    [ (* no round left *)
      rewrite done_lemma by lia;
      exists [], (response_done w); split;
      [ rewrite after_messages_same; replace a with 3 by lia; reflexivity
      | split; reflexivity ]
    | rewrite step_lemma by lia;
      unfold Discord.bind at 1 2; unfold is_done, deliver;
      cbn [schedule gives_up unread];
      destruct (hd Delivered (deliveries w));
      cbn [failed andb];
      [ (* delivered *)
        match goal with
        | |- context [Send ?r ?f ?e ?p Delivered] =>
            destruct (delivered_round_world w (tl (deliveries w))
                        (Send r f e p Delivered) r) as [d Hw];
            exists [Send r f e p Delivered], d; split;
            [ unfold Discord.ret; rewrite <- Hw; reflexivity
            | split; reflexivity ]
        end
      | | | ];
      (unfold Discord.bind, log, sleep, emit, modify;
       rewrite failed_round_world;
       match goal with
       | |- context [after_messages w ?d0 ?s (trace w ++ ?evs)] =>
           destruct (IH (a + 1) (after_messages w d0 s (trace w ++ evs)))
             as (new & d & Hrun & Hticks & Hkind); [lia |];
           exists (evs ++ new), d; split;
           [ rewrite Hrun; cbn [deliveries trace after_messages];
             rewrite <- app_assoc; reflexivity
           | split;
             [ rewrite ticks_app; cbn [deliveries after_messages] in Hticks;
               rewrite Hticks; reflexivity
             | rewrite forallb_app, Hkind; reflexivity ] ]
       end) ].

(** The whole loop, from any attempt count [3 - n]: it ends, in a world
    that differs from the start in the response flag, the script and the
    trace, and its attempts and delays are those of [schedule]. *)
Lemma err_loop_run (n : nat) (embed : Embed) :
  forall (a : Z) (w : World), a = 3 - Z.of_nat n ->
  exists new done,
    ErrMsg.send_loop a embed w
    = (Ok (if gives_up n (deliveries w) then Exhausted 3 else Sent),
       after_messages w done (unread n (deliveries w)) (trace w ++ new)) /\
    ticks new = schedule n (deliveries w) /\
    forallb sender_event new = true.
Proof.
  induction n as [|n IH].
  - intros a w Ha. loop_run_tac err_loop_done err_loop_step False a w.
  - intros a w Ha. loop_run_tac err_loop_done err_loop_step IH a w.
Qed.

Lemma sys_loop_run (n : nat) file (embed : Embed) ephemeral :
  forall (a : Z) (w : World), a = 3 - Z.of_nat n ->
  exists new done,
    SysMsg.send_loop a file embed ephemeral w
    = (Ok (if gives_up n (deliveries w) then Exhausted 3 else Sent),
       after_messages w done (unread n (deliveries w)) (trace w ++ new)) /\
    ticks new = schedule n (deliveries w) /\
    forallb sender_event new = true.
Proof.
  induction n as [|n IH].
  - intros a w Ha. loop_run_tac sys_loop_done sys_loop_step False a w.
  - intros a w Ha. loop_run_tac sys_loop_done sys_loop_step IH a w.
Qed.

Lemma ErrMsg_msg_run (interaction : option Interaction) (message : string) (w : World) :
  sender_run w (negb (no_longer_valid interaction)) (ErrMsg.msg interaction message w)
    "Cannot send error message: interaction is no longer valid"
    ("Failed to send error message after 3 attempts. Message: " ++ message).
Proof.
  unfold sender_run, ErrMsg.msg.
  destruct (no_longer_valid interaction); cbn [negb].
  - exists [Log WARNING "Cannot send error message: interaction is no longer valid"],
      (response_done w), (deliveries w).
    split; [reflexivity | split; [reflexivity | split; [reflexivity | discriminate]]].
  - set (embed := {| color := _ |}).
    destruct (err_loop_run 3 embed 0 w eq_refl) as (new & done & Hrun & Hticks & Hkind).
    unfold Discord.bind at 1. rewrite Hrun.
    destruct (gives_up 3 (deliveries w)) eqn:Hgive.
    + exists (new ++ [Log ERROR ("Failed to send error message after 3 attempts. Message: " ++ message)]),
        done, (unread 3 (deliveries w)).
      split; [| split; [| split; [discriminate | intros _; split]]].
      * unfold log, emit, modify, with_trace, after_messages; simpl.
        rewrite <- app_assoc. reflexivity.
      * rewrite forallb_app, Hkind. reflexivity.
      * rewrite ticks_app, Hticks. simpl. apply app_nil_r.
      * intros _. apply last_snoc.
    + exists new, done, (unread 3 (deliveries w)).
      split; [reflexivity |].
      split; [exact Hkind |].
      split; [discriminate | intros _; split; [exact Hticks | discriminate]].
Qed.

Lemma SysMsg_msg_run (H : Host) (interaction : option Interaction) (header : string)
  (message thumbnail : option string) (ephemeral : bool) (w : World) :
  sender_run w (negb (no_longer_valid interaction))
    (SysMsg.msg H interaction header message thumbnail ephemeral w)
    "Cannot send message: interaction is no longer valid"
    ("Failed to send system message after 3 attempts. Header: " ++ header).
Proof.
  unfold sender_run, SysMsg.msg.
  destruct (no_longer_valid interaction); cbn [negb].
  - exists [Log WARNING "Cannot send message: interaction is no longer valid"],
      (response_done w), (deliveries w).
    split; [reflexivity | split; [reflexivity | split; [reflexivity | discriminate]]].
  - set (embed := {| color := _ |}).
    assert (Hattach : exists pre file embed',
      (match thumbnail with
       | None => ret (None, embed)
       | Some path =>
           match discord_File H path with
           | None =>
               ret (Some path,
                    {| color := color embed; embed_title := embed_title embed;
                       description := description embed;
                       embed_thumbnail := Some "attachment://image.png" |})
           | Some e =>
               exec log ERROR ("Failed to attach thumbnail: " ++ e)%string;
               ret (None, embed)
           end
       end) w
      = (Ok (file, embed'),
         after_messages w (response_done w) (deliveries w) (trace w ++ pre))
      /\ ticks pre = [] /\ forallb sender_event pre = true).
    { destruct thumbnail as [path|]; [destruct (discord_File H path) as [e|] |].
      - exists [Log ERROR ("Failed to attach thumbnail: " ++ e)], None, embed.
        split; [| split; reflexivity]. destruct w; reflexivity.
      - eexists [], _, _. rewrite after_messages_same. repeat split; reflexivity.
      - eexists [], _, _. rewrite after_messages_same. repeat split; reflexivity. }
    destruct Hattach as (pre & file & embed' & Hattach & Hpre & Hprekind).
    unfold Discord.bind at 1. rewrite Hattach. cbn [fst snd].
    set (w1 := after_messages w _ _ _).
    destruct (sys_loop_run 3 file embed' ephemeral 0 w1 eq_refl)
      as (new & done & Hrun & Hticks & Hkind).
    unfold Discord.bind at 1. rewrite Hrun.
    subst w1. cbn [deliveries trace after_messages] in *.
    rewrite after_messages_again.
    destruct (gives_up 3 (deliveries w)) eqn:Hgive.
    + exists (pre ++ new ++ [Log ERROR ("Failed to send system message after 3 attempts. Header: " ++ header)]),
        done, (unread 3 (deliveries w)).
      split; [| split; [| split; [discriminate | intros _; split]]].
      * unfold log, emit, modify, with_trace, after_messages; simpl.
        rewrite <- !app_assoc. reflexivity.
      * rewrite !forallb_app, Hprekind, Hkind. reflexivity.
      * rewrite !ticks_app, Hpre, Hticks. simpl. apply app_nil_r.
      * intros _. rewrite app_assoc. apply last_snoc.
    + exists (pre ++ new), done, (unread 3 (deliveries w)).
      split; [| split; [| split; [discriminate | intros _; split; [| discriminate]]]].
      * rewrite <- app_assoc. reflexivity.
      * rewrite forallb_app, Hprekind, Hkind. reflexivity.
      * rewrite ticks_app, Hpre, Hticks. reflexivity.
Qed.



(** C10: when the interaction is absent or carries no guild, both senders
    log one warning and return: no delivery attempt, no delay, no
    exception. *)
Theorem senders_return_on_invalid_interaction (H : Host)
  (interaction : option Interaction) (header text : string)
  (message thumbnail : option string) (ephemeral : bool) (w : World) :
  interaction = None \/ (exists i, interaction = Some i /\ guild i = None) ->
  let sys := SysMsg.msg H interaction header message thumbnail ephemeral w in
  let err := ErrMsg.msg interaction text w in
  (fst sys = Ok tt /\
   new_events w (snd sys)
     = [Log WARNING "Cannot send message: interaction is no longer valid"] /\
   attempts (new_events w (snd sys)) = 0%nat /\
   delays (new_events w (snd sys)) = []) /\
  (fst err = Ok tt /\
   new_events w (snd err)
     = [Log WARNING "Cannot send error message: interaction is no longer valid"] /\
   attempts (new_events w (snd err)) = 0%nat /\
   delays (new_events w (snd err)) = []).
Proof.
  intros Hinvalid.
  assert (Hnv : no_longer_valid interaction = true).
  { destruct Hinvalid as [-> | (i & -> & Hg)]; [reflexivity |].
    simpl. rewrite Hg. reflexivity. }
  cbn zeta. unfold SysMsg.msg, ErrMsg.msg. rewrite Hnv.
  unfold log, emit, modify. cbn [fst snd].
  rewrite !(new_events_app w _ [_]) by reflexivity.
  repeat split.
Qed.

End SenderFacts.

(** ** Strings *)

Module TextFacts.

Lemma length_append (a b : string) :
  String.length (a ++ b) = (String.length a + String.length b)%nat.
Proof. induction a as [|c a IH]; simpl; [reflexivity | f_equal; exact IH]. Qed.

Lemma str_len_append (a b : string) : str_len (a ++ b) = (str_len a + str_len b)%nat.
Proof.
  induction a as [|c a IH]; simpl; [reflexivity |].
  destruct (is_continuation c); rewrite IH; reflexivity.
Qed.

Lemma str_len_take (k : nat) (s : string) :
  str_len (str_take k s) = Nat.min k (str_len s).
Proof.
  revert k. induction s as [|c s IH]; intros k; simpl.
  - destruct k; reflexivity.
  - destruct (is_continuation c) eqn:Hc; simpl.
    + rewrite Hc. apply IH.
    + destruct k as [|k]; simpl; [reflexivity |]. rewrite Hc, IH. reflexivity.
Qed.

Lemma str_take_all (k : nat) (s : string) :
  (str_len s <= k)%nat -> str_take k s = s.
Proof.
  revert k. induction s as [|c s IH]; intros k Hk; simpl in *; [reflexivity |].
  destruct (is_continuation c).
  - rewrite IH by exact Hk. reflexivity.
  - destruct k as [|k]; [lia |]. rewrite IH by lia. reflexivity.
Qed.



End TextFacts.

(** ** What the senders dispatch *)

Module DispatchFacts.
Import SenderFacts TextFacts.

Lemma sends_app (t1 t2 : list Event) : sends (t1 ++ t2) = sends t1 ++ sends t2.
Proof. unfold sends. apply omap_app. Qed.

Lemma delivered_round_flag (w : World) (rest : list Delivery) (e : Event) :
  match route_for (response_done w) with
  | Followup => with_trace (fun t => t ++ [e]) (with_deliveries rest w)
  | Response =>
      with_response_done true (with_trace (fun t => t ++ [e]) (with_deliveries rest w))
  end = after_messages w true rest (trace w ++ [e]).
Proof.
  unfold route_for. destruct (response_done w) eqn:Hd; [| reflexivity].
  unfold after_messages, with_trace, with_deliveries; cbn. rewrite Hd. reflexivity.
Qed.

Ltac loop_detail_tac done_lemma step_lemma IH a w :=
  let new := fresh "new" in
  let Hrun := fresh "Hrun" in
  let Hsends := fresh "Hsends" in
  first
    [ rewrite done_lemma by lia;
      exists []; split;
      [ cbn [gives_up unread negb]; rewrite orb_false_r, after_messages_same;
        replace a with 3 by lia; reflexivity
      | reflexivity ]
    | rewrite step_lemma by lia;
      unfold Discord.bind at 1 2; unfold is_done, deliver;
      cbn [gives_up unread tried];
      change (if response_done w then Followup else Response)
        with (route_for (response_done w));
      destruct (hd Delivered (deliveries w));
      cbn [failed andb negb];
      [ match goal with
        | |- context [Send ?r ?f ?e ?p Delivered] =>
            exists [Send r f e p Delivered]; split;
            [ unfold Discord.ret;
              rewrite (delivered_round_flag w (tl (deliveries w)) (Send r f e p Delivered));
              rewrite orb_true_r; reflexivity
            | reflexivity ]
        end
      | | | ];
      (unfold Discord.bind, log, sleep, emit, modify;
       rewrite failed_round_world;
       match goal with
       | |- context [after_messages w ?d0 ?s (trace w ++ ?evs)] =>
           destruct (IH (a + 1) (after_messages w d0 s (trace w ++ evs)))
             as (new & Hrun & Hsends); [lia |];
           exists (evs ++ new); split;
           [ rewrite Hrun; cbn [deliveries trace response_done after_messages];
             rewrite <- app_assoc; reflexivity
           | rewrite sends_app; cbn [deliveries response_done after_messages] in Hsends;
             rewrite Hsends; reflexivity ]
       end) ].

Lemma err_loop_detail (n : nat) (embed : Embed) :
  forall (a : Z) (w : World), a = 3 - Z.of_nat n ->
  exists new,
    ErrMsg.send_loop a embed w
    = (Ok (if gives_up n (deliveries w) then Exhausted 3 else Sent),
       after_messages w (response_done w || negb (gives_up n (deliveries w)))
         (unread n (deliveries w)) (trace w ++ new)) /\
    sends new
    = map (fun r => {| sent_route := route_for (response_done w); sent_file := None;
                       sent_embed := embed; sent_ephemeral := true; sent_result := r |})
        (tried n (deliveries w)).
Proof.
  induction n as [|n IH].
  - intros a w Ha. loop_detail_tac err_loop_done err_loop_step False a w.
  - intros a w Ha. loop_detail_tac err_loop_done err_loop_step IH a w.
Qed.

Lemma sys_loop_detail (n : nat) file (embed : Embed) ephemeral :
  forall (a : Z) (w : World), a = 3 - Z.of_nat n ->
  exists new,
    SysMsg.send_loop a file embed ephemeral w
    = (Ok (if gives_up n (deliveries w) then Exhausted 3 else Sent),
       after_messages w (response_done w || negb (gives_up n (deliveries w)))
         (unread n (deliveries w)) (trace w ++ new)) /\
    sends new
    = map (fun r => {| sent_route := route_for (response_done w); sent_file := file;
                       sent_embed := embed; sent_ephemeral := ephemeral;
                       sent_result := r |})
        (tried n (deliveries w)).
Proof.
  induction n as [|n IH].
  - intros a w Ha. loop_detail_tac sys_loop_done sys_loop_step False a w.
  - intros a w Ha. loop_detail_tac sys_loop_done sys_loop_step IH a w.
Qed.

Lemma ErrMsg_msg_detail (interaction : option Interaction) (message : string)
  (w : World) :
  no_longer_valid interaction = false ->
  exists new,
    ErrMsg.msg interaction message w
    = (Ok tt,
       after_messages w (response_done w || negb (gives_up 3 (deliveries w)))
         (unread 3 (deliveries w)) (trace w ++ new)) /\
    sends new
    = map (fun r => {| sent_route := route_for (response_done w); sent_file := None;
                       sent_embed := err_embed message; sent_ephemeral := true;
                       sent_result := r |})
        (tried 3 (deliveries w)).
Proof.
  intros Hvalid. unfold ErrMsg.msg. rewrite Hvalid.
  destruct (err_loop_detail 3 (err_embed message) 0 w eq_refl) as (new & Hrun & Hsends).
  unfold Discord.bind at 1. fold (err_embed message). rewrite Hrun.
  destruct (gives_up 3 (deliveries w)).
  - eexists (new ++ [Log ERROR _]). split.
    + unfold log, emit, modify, with_trace, after_messages; cbn.
      rewrite <- app_assoc. reflexivity.
    + rewrite sends_app, Hsends. cbn. apply app_nil_r.
  - exists new. split; [reflexivity | exact Hsends].
Qed.

Lemma SysMsg_msg_detail (H : Host) (interaction : option Interaction) (header : string)
  (message thumbnail : option string) (ephemeral : bool) (w : World) :
  no_longer_valid interaction = false ->
  exists pre new,
    SysMsg.msg H interaction header message thumbnail ephemeral w
    = (Ok tt,
       after_messages w (response_done w || negb (gives_up 3 (deliveries w)))
         (unread 3 (deliveries w)) (trace w ++ pre ++ new)) /\
    pre = match thumbnail with
          | Some path =>
              match discord_File H path with
              | Some e => [Log ERROR ("Failed to attach thumbnail: " ++ e)%string]
              | None => []
              end
          | None => []
          end /\
    sends new
    = map (fun r =>
             {| sent_route := route_for (response_done w);
                sent_file := attached H thumbnail;
                sent_embed :=
                  match attached H thumbnail with
                  | Some _ => with_thumbnail (sys_embed header message)
                  | None => sys_embed header message
                  end;
                sent_ephemeral := ephemeral; sent_result := r |})
        (tried 3 (deliveries w)).
Proof.
  intros Hvalid. unfold SysMsg.msg. rewrite Hvalid.
  fold (sys_embed header message).
  assert (Hfinish : forall pre file embed (w1 : World),
    w1 = after_messages w (response_done w) (deliveries w) (trace w ++ pre) ->
    exists new,
      (do exit <- SysMsg.send_loop 0 file embed ephemeral;
       match exit with
       | Sent => ret tt
       | Exhausted attempt =>
           log ERROR ("Failed to send system message after " ++ str_of_int attempt ++
                      " attempts. Header: " ++ header)%string
       end) w1
      = (Ok tt,
         after_messages w (response_done w || negb (gives_up 3 (deliveries w)))
           (unread 3 (deliveries w)) (trace w ++ pre ++ new)) /\
      sends new
      = map (fun r => {| sent_route := route_for (response_done w); sent_file := file;
                         sent_embed := embed; sent_ephemeral := ephemeral;
                         sent_result := r |})
          (tried 3 (deliveries w))).
  { intros pre file embed w1 ->.
    destruct (sys_loop_detail 3 file embed ephemeral 0
                (after_messages w (response_done w) (deliveries w) (trace w ++ pre)) eq_refl)
      as (new & Hrun & Hsends).
    unfold Discord.bind at 1. rewrite Hrun.
    cbn [deliveries trace response_done after_messages] in *.
    destruct (gives_up 3 (deliveries w)).
    - eexists (new ++ [Log ERROR _]). split.
      + unfold log, emit, modify, with_trace, after_messages; cbn.
        rewrite <- !app_assoc. reflexivity.
      + rewrite sends_app, Hsends. cbn. apply app_nil_r.
    - exists new. split; [| exact Hsends].
      rewrite <- app_assoc. reflexivity. }
  unfold attached.
  destruct thumbnail as [path|]; [destruct (discord_File H path) as [e|] |].
  - destruct (Hfinish [Log ERROR ("Failed to attach thumbnail: " ++ e)%string] None
                (sys_embed header message)
                (with_trace (fun t => t ++ [Log ERROR ("Failed to attach thumbnail: " ++ e)%string]) w))
      as (new & Hrun & Hsends).
    { destruct w; reflexivity. }
    exists [Log ERROR ("Failed to attach thumbnail: " ++ e)%string], new.
    split; [| split; [reflexivity | exact Hsends]].
    unfold Discord.bind at 1. unfold Discord.bind at 1.
    unfold log, emit, modify at 1. cbn [fst snd Discord.ret].
    exact Hrun.
  - destruct (Hfinish [] (Some path) (with_thumbnail (sys_embed header message)) w)
      as (new & Hrun & Hsends).
    { rewrite after_messages_same. reflexivity. }
    exists [], new. split; [| split; [reflexivity | exact Hsends]].
    unfold Discord.bind at 1. cbn [Discord.ret fst snd]. exact Hrun.
  - destruct (Hfinish [] None (sys_embed header message) w) as (new & Hrun & Hsends).
    { rewrite after_messages_same. reflexivity. }
    exists [], new. split; [| split; [reflexivity | exact Hsends]].
    unfold Discord.bind at 1. cbn [Discord.ret fst snd]. exact Hrun.
Qed.

Lemma tried_nonempty (n : nat) (script : list Delivery) : tried (S n) script <> [].
Proof. cbn. destruct (hd Delivered script); discriminate. Qed.

Lemma delivered_tried (n : nat) (script : list Delivery) :
  In Delivered (tried n script) <-> gives_up n script = false.
Proof.
  revert script. induction n as [|n IH]; intros script; cbn.
  - split; [intros [] | discriminate].
  - destruct (hd Delivered script) eqn:Hhd; cbn.
    + split; [reflexivity | intros _; left; reflexivity].
    + rewrite <- IH. split; [intros [[=] | Hin]; exact Hin | intros Hin; right; exact Hin].
    + rewrite <- IH. split; [intros [[=] | Hin]; exact Hin | intros Hin; right; exact Hin].
    + rewrite <- IH. split; [intros [[=] | Hin]; exact Hin | intros Hin; right; exact Hin].
Qed.

Lemma invalid_sends_nothing_sys (H : Host) (interaction : option Interaction)
  (header : string) (message thumbnail : option string) (ephemeral : bool) (w : World) :
  no_longer_valid interaction = true ->
  SysMsg.msg H interaction header message thumbnail ephemeral w
  = (Ok tt, with_trace (fun t => t ++ [Log WARNING "Cannot send message: interaction is no longer valid"]) w).
Proof. intros Hnv. unfold SysMsg.msg. rewrite Hnv. reflexivity. Qed.

Lemma invalid_sends_nothing_err (interaction : option Interaction) (text : string)
  (w : World) :
  no_longer_valid interaction = true ->
  ErrMsg.msg interaction text w
  = (Ok tt, with_trace (fun t => t ++ [Log WARNING "Cannot send error message: interaction is no longer valid"]) w).
Proof. intros Hnv. unfold ErrMsg.msg. rewrite Hnv. reflexivity. Qed.

(** The text of a system message is cut to the display limit: whatever
    the message and whatever the attempts do, every attempt of
    [SysMsg.msg] carries the header as title and a description of at most
    4096 characters: the message itself when it fits, else its first 4093
    characters and an ellipsis. *)
Theorem sys_message_fits_display_limit (H : Host) (interaction : option Interaction)
  (header : string) (message thumbnail : option string) (ephemeral : bool)
  (w : World) :
  let run := SysMsg.msg H interaction header message thumbnail ephemeral w in
  Forall (fun d =>
            embed_title (sent_embed d) = header /\
            sent_ephemeral d = ephemeral /\
            match message, description (sent_embed d) with
            | None, None => True
            | Some m, Some text =>
                (str_len text <= 4096)%nat /\
                ((str_len m <= 4096)%nat -> text = m) /\
                ((4096 < str_len m)%nat ->
                 str_len text = 4096%nat /\
                 text = (str_take 4093 m ++ "...")%string)
            | _, _ => False
            end)
    (sends (new_events w (snd run))) /\
  (no_longer_valid interaction = false -> sends (new_events w (snd run)) <> []).
Proof.
  cbn zeta. destruct (no_longer_valid interaction) eqn:Hvalid.
  - rewrite (invalid_sends_nothing_sys H interaction header message thumbnail ephemeral w Hvalid).
    cbn [snd]. rewrite (new_events_app w _ [_]) by reflexivity.
    split; [constructor | discriminate].
  - destruct (SysMsg_msg_detail H interaction header message thumbnail ephemeral w Hvalid)
      as (pre & new & Hrun & Hpre & Hsends).
    rewrite Hrun. cbn [snd].
    rewrite (new_events_app w _ (pre ++ new)) by reflexivity.
    assert (Hpre0 : sends pre = []).
    { subst pre. destruct thumbnail as [path|]; [destruct (discord_File H path) |]; reflexivity. }
    rewrite sends_app, Hpre0, Hsends. cbn [app].
    split.
    + apply Forall_map. apply Forall_forall. intros r _. cbn [sent_embed sent_ephemeral].
      assert (Htitle : forall e, embed_title (with_thumbnail e) = embed_title e) by reflexivity.
      assert (Hdesc : forall e, description (with_thumbnail e) = description e) by reflexivity.
      destruct (attached H thumbnail); rewrite ?Htitle, ?Hdesc;
        (split; [reflexivity |]; split; [reflexivity |]);
        (unfold sys_embed; cbn [description];
         destruct message as [m|]; [| exact I];
         destruct (Nat.ltb_spec 4096 (str_len m)) as [Hlong | Hshort];
         [ assert (Hlen : str_len (str_take 4093 m ++ "...")%string = 4096%nat)
             by (rewrite str_len_append, str_len_take;
                 change (str_len "...") with 3%nat; lia);
           split; [lia |]; split; [lia | intros _; split; [exact Hlen | reflexivity]]
         | split; [lia |]; split; [reflexivity | lia] ]).
    + intros _ Hnil. apply map_eq_nil in Hnil. exact (tried_nonempty 2 _ Hnil).
Qed.

(** An error message is sent as it is: every attempt of [ErrMsg.msg] is
    ephemeral, has no file, and carries the title "Error" and the whole
    message as description, however long the message is. *)
Theorem error_message_sent_whole (interaction : option Interaction) (text : string)
  (w : World) :
  let run := ErrMsg.msg interaction text w in
  Forall (fun d =>
            sent_ephemeral d = true /\ sent_file d = None /\
            embed_title (sent_embed d) = "Error" /\
            description (sent_embed d) = Some text /\
            embed_thumbnail (sent_embed d) = None)
    (sends (new_events w (snd run))) /\
  (no_longer_valid interaction = false -> sends (new_events w (snd run)) <> []).
Proof.
  cbn zeta. destruct (no_longer_valid interaction) eqn:Hvalid.
  - rewrite (invalid_sends_nothing_err interaction text w Hvalid).
    cbn [snd]. rewrite (new_events_app w _ [_]) by reflexivity.
    split; [constructor | discriminate].
  - destruct (ErrMsg_msg_detail interaction text w Hvalid) as (new & Hrun & Hsends).
    rewrite Hrun. cbn [snd].
    rewrite (new_events_app w _ new) by reflexivity. rewrite Hsends.
    split.
    + apply Forall_map. apply Forall_forall. intros r _. repeat split.
    + intros _ Hnil. apply map_eq_nil in Hnil. exact (tried_nonempty 2 _ Hnil).
Qed.

(** A thumbnail that cannot be opened does not stop the message: the
    failure is logged first, and every attempt goes out without file and
    without thumbnail.  A thumbnail that opens is attached to every attempt
    and the embed points to it. *)
Theorem thumbnail_failure_is_not_fatal (H : Host) (interaction : option Interaction)
  (header path : string) (message : option string) (ephemeral : bool) (w : World) :
  no_longer_valid interaction = false ->
  let run := SysMsg.msg H interaction header message (Some path) ephemeral w in
  let new := new_events w (snd run) in
  fst run = Ok tt /\ sends new <> [] /\
  match discord_File H path with
  | Some e =>
      hd_error new = Some (Log ERROR ("Failed to attach thumbnail: " ++ e)) /\
      Forall (fun d => sent_file d = None /\ embed_thumbnail (sent_embed d) = None)
        (sends new)
  | None =>
      Forall (fun d => sent_file d = Some path /\
                       embed_thumbnail (sent_embed d) = Some "attachment://image.png")
        (sends new)
  end.
Proof.
  intros Hvalid. cbn zeta.
  destruct (SysMsg_msg_detail H interaction header message (Some path) ephemeral w Hvalid)
    as (pre & new & Hrun & Hpre & Hsends).
  rewrite Hrun. cbn [fst snd].
  rewrite (new_events_app w _ (pre ++ new)) by reflexivity.
  cbn [attached] in Hsends.
  destruct (discord_File H path) as [e|]; subst pre.
  - rewrite sends_app, Hsends. cbn [sends omap sent_of app].
    split; [reflexivity |]. split.
    + intros Hnil. apply map_eq_nil in Hnil. exact (tried_nonempty 2 _ Hnil).
    + split; [reflexivity |].
      apply Forall_map, Forall_forall. intros r _. split; reflexivity.
  - cbn [app]. rewrite Hsends.
    split; [reflexivity |]. split.
    + intros Hnil. apply map_eq_nil in Hnil. exact (tried_nonempty 2 _ Hnil).
    + apply Forall_map, Forall_forall. intros r _. split; reflexivity.
Qed.

(** The initial response of an interaction is used until it is delivered
    and never after, by both senders: every call goes one way, and a call
    in which an attempt was delivered leaves the response done, so that
    every later call goes through the followup. *)
Theorem initial_response_then_followup (H : Host) (interaction : option Interaction)
  (header text : string) (message thumbnail : option string) (ephemeral : bool)
  (w : World) :
  one_way w (SysMsg.msg H interaction header message thumbnail ephemeral w) /\
  one_way w (ErrMsg.msg interaction text w).
Proof.
  unfold one_way. cbn zeta.
  assert (Hall : forall (run : outcome unit * World) new (f : Delivery -> Dispatch),
    (forall r, sent_route (f r) = route_for (response_done w)) ->
    (forall r, sent_result (f r) = r) ->
    snd run = after_messages w (response_done w || negb (gives_up 3 (deliveries w)))
                (unread 3 (deliveries w)) (trace w ++ new) ->
    sends new = map f (tried 3 (deliveries w)) ->
    Forall (fun d => sent_route d = route_for (response_done w))
      (sends (new_events w (snd run))) /\
    (response_done w = true -> response_done (snd run) = true) /\
    ((exists d, In d (sends (new_events w (snd run))) /\ sent_result d = Delivered) ->
     response_done (snd run) = true) /\
    (response_done (snd run) = true ->
     response_done w = true \/
     exists d, In d (sends (new_events w (snd run))) /\ sent_result d = Delivered)).
  { intros run new f Hroute Hresult Hw Hs.
    rewrite Hw. rewrite (new_events_app w _ new) by reflexivity.
    cbn [response_done after_messages]. rewrite Hs.
    split; [apply Forall_map, Forall_forall; intros r _; apply Hroute |].
    split; [intros ->; reflexivity |].
    split.
    - intros (d & Hin & Hd). apply in_map_iff in Hin as (r & <- & Hr).
      rewrite Hresult in Hd. subst r. apply delivered_tried in Hr. rewrite Hr.
      apply orb_true_r.
    - intros Hdone. apply orb_true_iff in Hdone as [Hdone | Hdel]; [left; exact Hdone |].
      right. apply negb_true_iff, delivered_tried in Hdel.
      exists (f Delivered). split; [apply in_map; exact Hdel | apply Hresult]. }
  assert (Hnone : forall (run : outcome unit * World) e,
    run = (Ok tt, with_trace (fun t => t ++ [Log WARNING e]) w) ->
    Forall (fun d => sent_route d = route_for (response_done w))
      (sends (new_events w (snd run))) /\
    (response_done w = true -> response_done (snd run) = true) /\
    ((exists d, In d (sends (new_events w (snd run))) /\ sent_result d = Delivered) ->
     response_done (snd run) = true) /\
    (response_done (snd run) = true ->
     response_done w = true \/
     exists d, In d (sends (new_events w (snd run))) /\ sent_result d = Delivered)).
  { intros run e ->. cbn [snd]. rewrite (new_events_app w _ [_]) by reflexivity.
    split; [constructor |]. split; [intros Hd; exact Hd |].
    split; [intros (d & [] & _) | intros Hd; left; exact Hd]. }
  split; destruct (no_longer_valid interaction) eqn:Hvalid.
  - eapply Hnone. apply invalid_sends_nothing_sys, Hvalid.
  - destruct (SysMsg_msg_detail H interaction header message thumbnail ephemeral w Hvalid)
      as (pre & new & Hrun & Hpre & Hsends).
    eapply (Hall _ (pre ++ new)); [| | rewrite Hrun; reflexivity |].
    3: { rewrite sends_app.
         assert (Hpre0 : sends pre = []).
         { subst pre. destruct thumbnail as [path|]; [destruct (discord_File H path) |];
             reflexivity. }
         rewrite Hpre0. exact Hsends. }
    + intros r. reflexivity.
    + intros r. reflexivity.
  - eapply Hnone. apply invalid_sends_nothing_err, Hvalid.
  - destruct (ErrMsg_msg_detail interaction text w Hvalid) as (new & Hrun & Hsends).
    eapply (Hall _ new); [| | rewrite Hrun; reflexivity | exact Hsends].
    + intros r. reflexivity.
    + intros r. reflexivity.
Qed.

(** *** Reports and notices on the trace *)

Lemma unsent_refl (w : World) : unsent w w.
Proof. split; [reflexivity |]. exists []. rewrite app_nil_r. split; reflexivity. Qed.

Lemma unsent_trans (w1 w2 w3 : World) : unsent w1 w2 -> unsent w2 w3 -> unsent w1 w3.
Proof.
  intros (D1 & pre1 & T1 & S1) (D2 & pre2 & T2 & S2).
  split; [congruence |]. exists (pre1 ++ pre2).
  rewrite T2, T1, <- app_assoc, sends_app, S1, S2. split; reflexivity.
Qed.

Lemma unsent_step (w w0 : World) (ev : list Event) :
  deliveries w0 = deliveries w -> trace w0 = trace w ++ ev -> sends ev = [] ->
  unsent w w0.
Proof. intros D T S. split; [exact D |]. exists ev. split; assumption. Qed.

Lemma unsent_silent (w w0 : World) :
  unsent w w0 -> sends (new_events w w0) = [].
Proof.
  intros (_ & pre & T & S). rewrite (new_events_app w w0 pre T). exact S.
Qed.

Lemma in_guild_valid (i : Interaction) :
  guild i <> None -> no_longer_valid (Some i) = false.
Proof. intros Hg. unfold no_longer_valid. destruct (guild i); congruence. Qed.

Lemma outside_guild_invalid (i : Interaction) :
  guild i = None -> no_longer_valid (Some i) = true.
Proof. intros Hg. unfold no_longer_valid. rewrite Hg. reflexivity. Qed.

(** An error message sent from [w0], where nothing was sent since [w], is
    a report as seen from [w]. *)
Lemma ErrMsg_msg_reported (i : Interaction) (text : string) (w w0 : World) :
  guild i <> None -> unsent w w0 ->
  reported w (ErrMsg.msg (Some i) text w0) text.
Proof.
  intros Hg (D & pre & T & S).
  destruct (ErrMsg_msg_detail (Some i) text w0 (in_guild_valid i Hg)) as (new & Hrun & Hsends).
  unfold reported. cbn zeta. rewrite Hrun. cbn [fst snd].
  rewrite (new_events_app w _ (pre ++ new))
    by (cbn [trace after_messages]; rewrite T, app_assoc; reflexivity).
  rewrite sends_app, S, Hsends, D. cbn [app].
  split; [reflexivity |]. split.
  { intros Hnil. apply map_eq_nil in Hnil. exact (tried_nonempty 2 _ Hnil). }
  split.
  { apply Forall_map, Forall_forall. intros r _. repeat split. }
  rewrite map_map. cbn [sent_result]. apply map_id.
Qed.

Lemma SysMsg_msg_notified (H : Host) (i : Interaction) (header : string)
  (message : option string) (ephemeral : bool) (w w0 : World) :
  guild i <> None -> unsent w w0 ->
  notified w (SysMsg.msg H (Some i) header message None ephemeral w0)
    header message ephemeral.
Proof.
  intros Hg (D & pre & T & S).
  destruct (SysMsg_msg_detail H (Some i) header message None ephemeral w0
              (in_guild_valid i Hg)) as (pre' & new & Hrun & -> & Hsends).
  unfold notified. cbn zeta. rewrite Hrun. cbn [fst snd app].
  rewrite (new_events_app w _ (pre ++ new))
    by (cbn [trace after_messages]; rewrite T, app_assoc; reflexivity).
  rewrite sends_app, S, Hsends, D. cbn [app attached].
  split; [reflexivity |]. split.
  { intros Hnil. apply map_eq_nil in Hnil. exact (tried_nonempty 2 _ Hnil). }
  split.
  { apply Forall_map, Forall_forall. intros r _. repeat split. }
  rewrite map_map. cbn [sent_result]. apply map_id.
Qed.

(** Outside a guild the senders only log their warning. *)
Lemma ErrMsg_msg_silent (i : Interaction) (text : string) (w w0 : World) :
  guild i = None -> unsent w w0 ->
  silent w (ErrMsg.msg (Some i) text w0).
Proof.
  intros Hg (D & pre & T & S). unfold silent.
  rewrite (invalid_sends_nothing_err (Some i) text w0 (outside_guild_invalid i Hg)).
  cbn [snd].
  rewrite (new_events_app w _ (pre ++ [Log WARNING "Cannot send error message: interaction is no longer valid"]))
    by (cbn [trace with_trace]; rewrite T, app_assoc; reflexivity).
  rewrite sends_app, S. reflexivity.
Qed.

Lemma SysMsg_msg_silent (H : Host) (i : Interaction) (header : string)
  (message thumbnail : option string) (ephemeral : bool) (w w0 : World) :
  guild i = None -> unsent w w0 ->
  silent w (SysMsg.msg H (Some i) header message thumbnail ephemeral w0).
Proof.
  intros Hg (D & pre & T & S). unfold silent.
  rewrite (invalid_sends_nothing_sys H (Some i) header message thumbnail ephemeral w0
             (outside_guild_invalid i Hg)).
  cbn [snd].
  rewrite (new_events_app w _ (pre ++ [Log WARNING "Cannot send message: interaction is no longer valid"]))
    by (cbn [trace with_trace]; rewrite T, app_assoc; reflexivity).
  rewrite sends_app, S. reflexivity.
Qed.

End DispatchFacts.

(** ** The guild store *)

Module StoreFacts.
Import SenderFacts DispatchFacts.

Lemma world_eta (w : World) :
  {| guild_players := guild_players w; guild_autoplay := guild_autoplay w;
     voice_heap := voice_heap w; voice_clients := voice_clients w;
     response_done := response_done w; deliveries := deliveries w;
     trace := trace w |} = w.
Proof. destruct w; reflexivity. Qed.

Lemma guild_data_run (gid : Z) (w : World) :
  guild_data gid w
  = (Ok (player_of w gid), with_players (insert gid (player_of w gid)) w).
Proof.
  unfold guild_data, player_of.
  destruct (guild_players w !! gid) as [p|] eqn:E; cbn [default]; [| reflexivity].
  unfold with_players. rewrite (insert_id _ _ _ E). rewrite world_eta. reflexivity.
Qed.

Lemma guild_properties_run (H : Host) (gid : Z) (w : World) :
  guild_properties H gid w
  = (Ok (autoplay_of H w gid), with_autoplay (insert gid (autoplay_of H w gid)) w).
Proof.
  unfold guild_properties, autoplay_of.
  destruct (guild_autoplay w !! gid) as [m|] eqn:E; cbn [default]; [| reflexivity].
  unfold with_autoplay. rewrite (insert_id _ _ _ E). rewrite world_eta. reflexivity.
Qed.

Lemma player_of_with_players (w : World) (gid g : Z) (p : Player) :
  player_of (with_players (insert gid p) w) g
  = if decide (gid = g) then p else player_of w g.
Proof.
  unfold player_of, with_players; cbn [guild_players].
  rewrite lookup_insert. destruct (decide (gid = g)); reflexivity.
Qed.

Lemma player_of_entered (gid g : Z) (w : World) :
  player_of (entered gid w) g = player_of w g.
Proof.
  unfold entered. rewrite guild_data_run. cbn [snd].
  rewrite player_of_with_players. destruct (decide (gid = g)); congruence.
Qed.

Lemma autoplay_of_with_autoplay (H : Host) (w : World) (gid g : Z) (m : AutoplayMode) :
  autoplay_of H (with_autoplay (insert gid m) w) g
  = if decide (gid = g) then m else autoplay_of H w g.
Proof.
  unfold autoplay_of, with_autoplay; cbn [guild_autoplay].
  rewrite lookup_insert. destruct (decide (gid = g)); reflexivity.
Qed.

Lemma same_guild_state_refl (H : Host) (w : World) : same_guild_state H w w.
Proof. split; reflexivity. Qed.

Lemma same_guild_state_trans (H : Host) (w1 w2 w3 : World) :
  same_guild_state H w1 w2 -> same_guild_state H w2 w3 -> same_guild_state H w1 w3.
Proof.
  intros [P1 A1] [P2 A2]. split; intros g; [rewrite P2, P1 | rewrite A2, A1]; reflexivity.
Qed.

Lemma quiet_step_refl (H : Host) (w : World) : quiet_step H w w.
Proof.
  split; [apply same_guild_state_refl |].
  exists []. rewrite app_nil_r. split; reflexivity.
Qed.

Lemma quiet_step_trans (H : Host) (w1 w2 w3 : World) :
  quiet_step H w1 w2 -> quiet_step H w2 w3 -> quiet_step H w1 w3.
Proof.
  intros [S1 (ev1 & T1 & Q1)] [S2 (ev2 & T2 & Q2)].
  split; [eapply same_guild_state_trans; eassumption |].
  exists (ev1 ++ ev2). rewrite T2, T1, <- app_assoc, forallb_app, Q1, Q2.
  split; reflexivity.
Qed.

Lemma quiet_step_entered (H : Host) (gid : Z) (w : World) :
  quiet_step H w (entered gid w).
Proof.
  split; [split |].
  - intros g. apply player_of_entered.
  - intros g. unfold entered. rewrite guild_data_run. reflexivity.
  - exists []. unfold entered. rewrite guild_data_run, app_nil_r. split; reflexivity.
Qed.

Lemma quiet_step_properties (H : Host) (gid : Z) (w : World) :
  quiet_step H w (snd (guild_properties H gid w)).
Proof.
  rewrite guild_properties_run. cbn [snd]. split; [split |].
  - intros g. reflexivity.
  - intros g. rewrite autoplay_of_with_autoplay.
    destruct (decide (gid = g)); congruence.
  - exists []. rewrite app_nil_r. split; reflexivity.
Qed.

Lemma quiet_step_looked_up (H : Host) (gid : Z) (w : World) :
  quiet_step H w (looked_up H gid w).
Proof.
  eapply quiet_step_trans; [apply quiet_step_entered | apply quiet_step_properties].
Qed.

Lemma sender_event_quiet (ev : list Event) :
  forallb sender_event ev = true -> forallb quiet ev = true.
Proof.
  induction ev as [|e ev IH]; [reflexivity |]. cbn [forallb].
  intros [He Hev]%andb_true_iff. rewrite (IH Hev), andb_true_r.
  destruct e; try discriminate; reflexivity.
Qed.

Lemma quiet_step_after_messages (H : Host) (w : World) done script new :
  forallb sender_event new = true ->
  quiet_step H w (after_messages w done script (trace w ++ new)).
Proof.
  intros Hk. split; [split; reflexivity |].
  exists new. split; [reflexivity | apply sender_event_quiet, Hk].
Qed.

(** The senders return normally and leave the guild state alone. *)
Lemma ErrMsg_msg_quiet (H : Host) (interaction : option Interaction) (text : string)
  (w : World) :
  fst (ErrMsg.msg interaction text w) = Ok tt /\
  quiet_step H w (snd (ErrMsg.msg interaction text w)).
Proof.
  destruct (ErrMsg_msg_run interaction text w) as (new & done & script & -> & Hk & _).
  split; [reflexivity | apply quiet_step_after_messages, Hk].
Qed.

Lemma SysMsg_msg_quiet (H : Host) (interaction : option Interaction) (header : string)
  (message thumbnail : option string) (ephemeral : bool) (w : World) :
  fst (SysMsg.msg H interaction header message thumbnail ephemeral w) = Ok tt /\
  quiet_step H w (snd (SysMsg.msg H interaction header message thumbnail ephemeral w)).
Proof.
  destruct (SysMsg_msg_run H interaction header message thumbnail ephemeral w)
    as (new & done & script & -> & Hk & _).
  split; [reflexivity | apply quiet_step_after_messages, Hk].
Qed.

Lemma quiet_step_new_events (H : Host) (w w1 : World) :
  quiet_step H w w1 ->
  trace w1 = trace w ++ new_events w w1 /\
  started_playback (new_events w w1) = false /\
  expansion_invoked (new_events w w1) = false.
Proof.
  intros [_ (ev & T & Q)]. rewrite (new_events_app w w1 ev T).
  split; [exact T |]. clear T.
  induction ev as [|e ev IH]; [split; reflexivity |].
  cbn [forallb] in Q. apply andb_true_iff in Q as [He Hev].
  destruct (IH Hev) as [IH1 IH2].
  unfold started_playback, expansion_invoked in *. cbn [existsb].
  rewrite IH1, IH2. unfold quiet in He.
  destruct (is_voice_play e), (is_expansion e); try discriminate; split; reflexivity.
Qed.

Lemma unsent_entered (gid : Z) (w : World) : unsent w (entered gid w).
Proof.
  unfold entered. rewrite guild_data_run.
  apply (unsent_step _ _ []); [reflexivity | | reflexivity].
  cbn [snd trace with_players]. rewrite app_nil_r. reflexivity.
Qed.

Lemma unsent_looked_up (H : Host) (gid : Z) (w : World) : unsent w (looked_up H gid w).
Proof.
  unfold looked_up, entered. rewrite guild_data_run. cbn [snd].
  rewrite guild_properties_run.
  apply (unsent_step _ _ []); [reflexivity | | reflexivity].
  cbn [snd trace with_players with_autoplay]. rewrite app_nil_r. reflexivity.
Qed.

Lemma voice_entered (gid : Z) (w : World) :
  voice_heap (entered gid w) = voice_heap w /\
  voice_clients (entered gid w) = voice_clients w.
Proof. unfold entered. rewrite guild_data_run. split; reflexivity. Qed.

Lemma voice_looked_up (H : Host) (gid : Z) (w : World) :
  voice_heap (looked_up H gid w) = voice_heap w /\
  voice_clients (looked_up H gid w) = voice_clients w.
Proof.
  unfold looked_up, entered. rewrite guild_data_run. cbn [snd].
  rewrite guild_properties_run. split; reflexivity.
Qed.

(** A system message leaves a world that differs from the start in what
    the senders touch only. *)
Lemma SysMsg_msg_world (H : Host) (interaction : option Interaction) (header : string)
  (message thumbnail : option string) (ephemeral : bool) (w : World) :
  exists noticed,
    SysMsg.msg H interaction header message thumbnail ephemeral w = (Ok tt, noticed) /\
    quiet_step H w noticed /\
    voice_heap noticed = voice_heap w /\
    voice_clients noticed = voice_clients w.
Proof.
  destruct (SysMsg_msg_run H interaction header message thumbnail ephemeral w)
    as (new & done & script & Hrun & Hk & _).
  eexists. split; [exact Hrun |].
  split; [apply quiet_step_after_messages, Hk |]. split; reflexivity.
Qed.


End StoreFacts.

(** ** The commands *)

Module MusicFacts.
Import SenderFacts DispatchFacts StoreFacts MusicCog.

Lemma vc_at_update (w : World) (vc : nat) (b : bool) :
  vc_playing (Voice.vc_at (Voice.update_vc vc (Voice.set_playing b) w) vc)
  = if decide (vc < length (voice_heap w))%nat then b else false.
Proof.
  unfold Voice.vc_at, Voice.update_vc, with_voice; cbn [voice_heap].
  rewrite !nth_lookup. destruct (decide (vc < length (voice_heap w)))%nat as [Hlt | Hge].
  - rewrite list_lookup_insert_eq by exact Hlt. reflexivity.
  - rewrite list_insert_ge by lia. rewrite lookup_ge_None_2 by lia. reflexivity.
Qed.

Lemma get_voice_client_found (H : Host) (i : Interaction) (b : bool) (w : World) (vc : nat) :
  Voice.utils_get w (guild i) = Some vc ->
  get_voice_client H i b w = (Ok (Some vc), w).
Proof.
  intros Hget. unfold get_voice_client, Discord.bind at 1, Discord.get. cbn beta iota.
  rewrite Hget. reflexivity.
Qed.

Lemma get_voice_client_quiet (H : Host) (i : Interaction) (b : bool) (w : World) :
  quiet_step H w (snd (get_voice_client H i b w)).
Proof.
  unfold get_voice_client, Discord.bind at 1, Discord.get. cbn beta iota.
  destruct (Voice.utils_get w (guild i)); [apply quiet_step_refl |].
  destruct b; [| apply quiet_step_refl].
  assert (Hfail : quiet_step H w
    (snd ((exec ErrMsg.cannot_connect_to_voice_channel (Some i); ret None) w
          : outcome (option nat) * World))).
  { unfold Discord.bind, ErrMsg.cannot_connect_to_voice_channel.
    destruct (ErrMsg_msg_quiet H (Some i) "Cannot connect to voice channel." w) as [Hok Hq].
    destruct (ErrMsg.msg _ _ w) as [r w1]. cbn [fst snd] in *. subst r. exact Hq. }
  destruct (user_voice i) as [[[members|]]|]; try exact Hfail.
  unfold Voice.connect. destruct (connect_succeeds H); [| apply quiet_step_refl].
  unfold Discord.bind, Discord.get, modify, emit, Discord.ret; cbn [snd].
  split; [split; reflexivity |].
  eexists [VoiceConnect _]. split; reflexivity.
Qed.

(** Obtaining a voice client sends nothing. *)
Lemma get_voice_client_some (H : Host) (i : Interaction) (b : bool) (w w1 : World)
  (vc : nat) :
  get_voice_client H i b w = (Ok (Some vc), w1) -> unsent w w1.
Proof.
  unfold get_voice_client, Discord.bind at 1, Discord.get. cbn beta iota.
  destruct (Voice.utils_get w (guild i)) as [found|].
  { intros [= _ <-]. apply unsent_refl. }
  destruct b; [| intros [=]].
  assert (Hfail :
    (exec ErrMsg.cannot_connect_to_voice_channel (Some i); ret None) w
    = (Ok (Some vc), w1) -> unsent w w1).
  { unfold Discord.bind, Discord.ret.
    destruct (ErrMsg.cannot_connect_to_voice_channel (Some i) w) as [[[]|e] w2];
      intros [=]. }
  destruct (user_voice i) as [[[members|]]|]; try exact Hfail.
  unfold Voice.connect. destruct (connect_succeeds H); [| intros [=]].
  unfold Discord.bind, Discord.get, modify, emit, Discord.ret. intros [= _ <-].
  apply (unsent_step _ _ [VoiceConnect (length (voice_heap w))]); reflexivity.
Qed.

Lemma bind_ok {A B} (m : M A) (k : A -> M B) (w w' : World) (a : A) :
  m w = (Ok a, w') -> Discord.bind m k w = k a w'.
Proof. intros E. unfold Discord.bind. rewrite E. reflexivity. Qed.

Lemma bind_raise {A B} (m : M A) (k : A -> M B) (w w' : World) (e : exn) :
  m w = (Raise e, w') -> Discord.bind m k w = (Raise e, w').
Proof. intros E. unfold Discord.bind. rewrite E. reflexivity. Qed.

Lemma update_player_run (gid : Z) (f : Player -> Player) (w : World) :
  update_player gid f w
  = (Ok tt, with_players (insert gid (f (player_of w gid))) w).
Proof. reflexivity. Qed.

(** The world [stop] hands to its confirmation message. *)
Definition stopped_world (vc : nat) (gid : Z) (w : World) : World :=
  with_players
    (insert gid {| queue := current_song (player_of w gid) :: queue (player_of w gid);
                   current_song := None |})
    (with_trace (fun t => t ++ [VoiceStop vc])
       (Voice.update_vc vc (Voice.set_playing false) w)).

Lemma stop_found (H : Host) (i : Interaction) (w : World) (vc : nat) :
  Voice.utils_get w (guild i) = Some vc ->
  stop H i w
  = SysMsg.stopping_queue_playback H (Some i) (stopped_world vc (guild_id i) w).
Proof.
  intros Hget. unfold stop.
  rewrite (bind_ok _ _ _ _ _ (guild_data_run (guild_id i) w)).
  cbn zeta.
  erewrite bind_ok by (apply get_voice_client_found; exact Hget).
  unfold Voice.stop.
  erewrite bind_ok by reflexivity.
  erewrite bind_ok by (rewrite update_player_run; reflexivity).
  erewrite bind_ok by (rewrite update_player_run; reflexivity).
  f_equal. unfold stopped_world.
  unfold with_players, with_trace, Voice.update_vc, with_voice, player_of, Voice.vc_at;
    cbn [guild_players guild_autoplay voice_heap voice_clients response_done
         deliveries trace].
  rewrite !insert_insert_eq, !lookup_insert_eq. reflexivity.
Qed.

(** What [stop] does once the bot's voice client is found: it returns
    normally, stops the client, puts whatever [current_song] holds in front
    of the queue and clears [current_song]. *)
Lemma stop_run (H : Host) (i : Interaction) (w : World) (vc : nat) :
  Voice.utils_get w (guild i) = Some vc ->
  let run := stop H i w in
  let p := player_of w (guild_id i) in
  fst run = Ok tt /\
  player_of (snd run) (guild_id i)
    = {| queue := current_song p :: queue p; current_song := None |} /\
  vc_playing (Voice.vc_at (snd run) vc) = false /\
  (exists new, new_events w (snd run) = VoiceStop vc :: new /\
               forallb sender_event new = true) /\
  (forall g, autoplay_of H (snd run) g = autoplay_of H w g).
Proof.
  intros Hget. cbn zeta. rewrite (stop_found H i w vc Hget).
  unfold SysMsg.stopping_queue_playback.
  destruct (SysMsg_msg_run H (Some i) "Stopped queue playback" None None false
              (stopped_world vc (guild_id i) w))
    as (new & done & script & -> & Hk & _).
  cbn [fst snd].
  split; [reflexivity |].
  split.
  { unfold stopped_world, after_messages, player_of, with_players; cbn [guild_players].
    rewrite lookup_insert_eq. reflexivity. }
  split.
  { pose proof (vc_at_update w vc false) as Hu.
    unfold stopped_world, after_messages, Voice.vc_at, Voice.update_vc, with_voice in *;
      cbn [voice_heap with_players with_trace] in *.
    rewrite Hu. destruct (decide _); reflexivity. }
  split.
  { exists new. split; [| exact Hk].
    apply new_events_app. unfold stopped_world.
    cbn [trace after_messages with_players with_trace Voice.update_vc with_voice].
    rewrite <- app_assoc. reflexivity. }
  intros g. reflexivity.
Qed.

(** *** The engine of the specification *)

(** An expansion records itself on the trace and appends the tracks the
    catalog gives; when the catalog fails, so does the expansion. *)
Lemma autoplay_expansion_run (H : Host) (gid : Z) (m : AutoplayMode) (w : World) :
  PlayerEngine.autoplay_expansion H gid m w
  = match PlayerEngine.autoplay_tracks H gid m with
    | Ok tracks =>
        (Ok tt,
         with_players
           (insert gid {| queue := queue (player_of w gid) ++ map Some tracks;
                          current_song := current_song (player_of w gid) |})
           (with_trace (fun t => t ++ [AutoplayExpansion m]) w))
    | Raise e => (Raise e, with_trace (fun t => t ++ [AutoplayExpansion m]) w)
    end.
Proof.
  unfold PlayerEngine.autoplay_expansion.
  erewrite bind_ok by reflexivity.
  unfold lift. destruct (PlayerEngine.autoplay_tracks H gid m) as [tracks|e].
  - erewrite bind_ok by reflexivity. reflexivity.
  - reflexivity.
Qed.

Lemma autoplay_expansion_trace (H : Host) (gid : Z) (m : AutoplayMode) (w : World) :
  trace (snd (PlayerEngine.autoplay_expansion H gid m w))
  = trace w ++ [AutoplayExpansion m].
Proof.
  rewrite autoplay_expansion_run.
  destruct (PlayerEngine.autoplay_tracks H gid m); reflexivity.
Qed.

Lemma start_front_empty (H : Host) (i : Interaction) (vc : nat) (w : World) :
  queue (player_of w (guild_id i)) = [] ->
  PlayerEngine.start_front H i vc w
  = ErrMsg.queue_is_empty (Some i) (entered (guild_id i) w).
Proof.
  intros Hq. unfold PlayerEngine.start_front. cbn zeta.
  rewrite (bind_ok _ _ _ _ _ (guild_data_run (guild_id i) w)).
  rewrite Hq. unfold entered. rewrite guild_data_run. reflexivity.
Qed.

Lemma start_front_pops (H : Host) (i : Interaction) (vc : nat) (w : World)
  (front : option Song) (rest : list (option Song)) :
  queue (player_of w (guild_id i)) = front :: rest ->
  let run := PlayerEngine.start_front H i vc w in
  player_of (snd run) (guild_id i) = {| queue := rest; current_song := front |} /\
  (exists ev, trace (snd run) = trace w ++ ev /\ expansion_invoked ev = false) /\
  (forall t url, front = Some t -> stream H (id t) = Ok url ->
     fst run = Ok tt /\ last (trace (snd run)) = Some (VoicePlay vc url)).
Proof.
  intros Hq. cbn zeta. unfold PlayerEngine.start_front. cbn zeta.
  rewrite (bind_ok _ _ _ _ _ (guild_data_run (guild_id i) w)).
  rewrite Hq.
  erewrite bind_ok by (rewrite update_player_run; reflexivity).
  remember (with_players _ (with_players _ w)) as w1 eqn:Ew1.
  assert (Hp : player_of w1 (guild_id i) = {| queue := rest; current_song := front |}).
  { subst w1. rewrite player_of_with_players, decide_True by reflexivity. reflexivity. }
  assert (Ht : trace w1 = trace w) by (subst w1; reflexivity).
  clear Ew1.
  destruct front as [t|].
  - unfold Discord.bind, lift. destruct (stream H (id t)) as [url|e] eqn:Hs.
    + unfold Voice.play, Discord.bind, emit, modify. cbn [fst snd].
      split; [exact Hp |]. split.
      * exists [VoicePlay vc url]. split; [| reflexivity].
        cbn [trace with_trace Voice.update_vc with_voice]. rewrite Ht. reflexivity.
      * intros t' url' [= <-] Hs'. rewrite Hs in Hs'. injection Hs' as <-.
        split; [reflexivity |]. cbn [trace with_trace]. apply last_snoc.
    + cbn [fst snd]. split; [exact Hp |]. split.
      * exists []. rewrite app_nil_r. split; [exact Ht | reflexivity].
      * intros t' url' [= <-] Hs'. rewrite Hs in Hs'. discriminate.
  - cbn [fst snd raise]. split; [exact Hp |]. split.
    + exists []. rewrite app_nil_r. split; [exact Ht | reflexivity].
    + intros t' url' [=].
Qed.

Lemma start_front_trace (H : Host) (i : Interaction) (vc : nat) (w : World) :
  exists ev, trace (snd (PlayerEngine.start_front H i vc w)) = trace w ++ ev /\
             expansion_invoked ev = false.
Proof.
  destruct (queue (player_of w (guild_id i))) as [|front rest] eqn:Hq.
  - rewrite (start_front_empty H i vc w Hq).
    destruct (ErrMsg_msg_quiet H (Some i) "Queue is empty." (entered (guild_id i) w))
      as [_ Hstep].
    pose proof (quiet_step_trans H _ _ _ (quiet_step_entered H (guild_id i) w) Hstep)
      as Hall.
    destruct (quiet_step_new_events H _ _ Hall) as (Ht & _ & He).
    eexists. split; [exact Ht | exact He].
  - destruct (start_front_pops H i vc w front rest Hq) as (_ & Hev & _). exact Hev.
Qed.

(** With nothing streaming, [play_audio_queue] looks the guild up, expands
    the queue when it is empty and autoplay is on, and starts the front of
    the queue. *)
Lemma play_audio_queue_idle (H : Host) (i : Interaction) (vc : nat) (w : World) :
  vc_playing (Voice.vc_at w vc) = false ->
  PlayerEngine.play_audio_queue H i vc w
  = (exec match queue (player_of w (guild_id i)), autoplay_of H w (guild_id i) with
          | [], RANDOM | [], SIMILAR =>
              PlayerEngine.autoplay_expansion H (guild_id i)
                (autoplay_of H w (guild_id i))
          | _, _ => ret tt
          end;
     PlayerEngine.start_front H i vc) (looked_up H (guild_id i) w).
Proof.
  intros Hidle. unfold PlayerEngine.play_audio_queue. cbn zeta.
  erewrite bind_ok by (unfold Voice.is_playing; rewrite Hidle; reflexivity).
  cbn iota.
  rewrite (bind_ok _ _ _ _ _ (guild_data_run (guild_id i) w)).
  rewrite (bind_ok _ _ _ _ _ (guild_properties_run H (guild_id i) _)).
  unfold looked_up, entered. rewrite guild_data_run. cbn [snd].
  rewrite guild_properties_run. cbn [snd]. reflexivity.
Qed.

Lemma play_audio_queue_streaming (H : Host) (i : Interaction) (vc : nat) (w : World) :
  vc_playing (Voice.vc_at w vc) = true ->
  PlayerEngine.play_audio_queue H i vc w = (Ok tt, w).
Proof.
  intros Hplaying. unfold PlayerEngine.play_audio_queue. cbn zeta.
  erewrite bind_ok by (unfold Voice.is_playing; rewrite Hplaying; reflexivity).
  reflexivity.
Qed.

Lemma play_audio_queue_front (H : Host) (i : Interaction) (vc : nat) (w : World)
  (front : option Song) (rest : list (option Song)) :
  vc_playing (Voice.vc_at w vc) = false ->
  queue (player_of w (guild_id i)) = front :: rest ->
  let run := PlayerEngine.play_audio_queue H i vc w in
  player_of (snd run) (guild_id i) = {| queue := rest; current_song := front |} /\
  (exists ev, trace (snd run) = trace w ++ ev /\ expansion_invoked ev = false) /\
  (forall t url, front = Some t -> stream H (id t) = Ok url ->
     fst run = Ok tt /\ last (trace (snd run)) = Some (VoicePlay vc url)).
Proof.
  intros Hidle Hq. cbn zeta. rewrite (play_audio_queue_idle H i vc w Hidle), Hq.
  erewrite bind_ok by reflexivity.
  destruct (quiet_step_looked_up H (guild_id i) w) as [[Hp _] (ev0 & Ht0 & _)].
  assert (ev0 = []) as ->.
  { unfold looked_up, entered in Ht0. rewrite guild_data_run in Ht0. cbn [snd] in Ht0.
    rewrite guild_properties_run in Ht0. cbn [snd trace with_autoplay with_players] in Ht0.
    apply (app_inv_head (trace w)). rewrite app_nil_r. symmetry. exact Ht0. }
  rewrite app_nil_r in Ht0.
  assert (Hq' : queue (player_of (looked_up H (guild_id i) w) (guild_id i)) = front :: rest)
    by (rewrite Hp; exact Hq).
  destruct (start_front_pops H i vc _ front rest Hq') as (Hpl & Hev & Hplay).
  rewrite Ht0 in Hev. auto.
Qed.

Lemma play_audio_queue_nothing (H : Host) (i : Interaction) (vc : nat) (w : World) :
  vc_playing (Voice.vc_at w vc) = false ->
  queue (player_of w (guild_id i)) = [] ->
  autoplay_of H w (guild_id i) = NONE ->
  PlayerEngine.play_audio_queue H i vc w
  = ErrMsg.queue_is_empty (Some i) (entered (guild_id i) (looked_up H (guild_id i) w)).
Proof.
  intros Hidle Hq Hm. rewrite (play_audio_queue_idle H i vc w Hidle), Hq, Hm.
  erewrite bind_ok by reflexivity.
  apply start_front_empty.
  destruct (quiet_step_looked_up H (guild_id i) w) as [[Hp _] _]. rewrite Hp. exact Hq.
Qed.

(** With nothing streaming, an empty queue and autoplay on, what
    [play_audio_queue] leaves is decided by the tracks the catalog gives:
    the first becomes the current track and the others the queue; with no
    track, or when the catalog fails, the playback state stays as it was. *)
Lemma play_audio_queue_expands (H : Host) (i : Interaction) (vc : nat) (w : World) :
  vc_playing (Voice.vc_at w vc) = false ->
  queue (player_of w (guild_id i)) = [] ->
  autoplay_of H w (guild_id i) <> NONE ->
  let run := PlayerEngine.play_audio_queue H i vc w in
  match PlayerEngine.autoplay_tracks H (guild_id i) (autoplay_of H w (guild_id i)) with
  | Ok (next :: more) =>
      player_of (snd run) (guild_id i)
      = {| queue := map Some more; current_song := Some next |}
  | Ok [] =>
      fst run = Ok tt /\ player_of (snd run) (guild_id i) = player_of w (guild_id i)
  | Raise e =>
      fst run = Raise e /\ player_of (snd run) (guild_id i) = player_of w (guild_id i)
  end.
Proof.
  intros Hidle Hq Hm. cbn zeta. rewrite (play_audio_queue_idle H i vc w Hidle), Hq.
  destruct (quiet_step_looked_up H (guild_id i) w) as [[Hp _] _].
  set (w0 := looked_up H (guild_id i) w) in *.
  assert (Hrun :
    (exec PlayerEngine.autoplay_expansion H (guild_id i) (autoplay_of H w (guild_id i));
     PlayerEngine.start_front H i vc) w0
    = match PlayerEngine.autoplay_tracks H (guild_id i) (autoplay_of H w (guild_id i)) with
      | Ok tracks =>
          PlayerEngine.start_front H i vc
            (with_players
               (insert (guild_id i)
                  {| queue := queue (player_of w0 (guild_id i)) ++ map Some tracks;
                     current_song := current_song (player_of w0 (guild_id i)) |})
               (with_trace (fun t => t ++ [AutoplayExpansion (autoplay_of H w (guild_id i))]) w0))
      | Raise e =>
          (Raise e,
           with_trace (fun t => t ++ [AutoplayExpansion (autoplay_of H w (guild_id i))]) w0)
      end).
  { unfold Discord.bind at 1. rewrite autoplay_expansion_run.
    destruct (PlayerEngine.autoplay_tracks H (guild_id i) (autoplay_of H w (guild_id i)));
      reflexivity. }
  assert (Hgoal :
    match PlayerEngine.autoplay_tracks H (guild_id i) (autoplay_of H w (guild_id i)) with
    | Ok (next :: more) =>
        player_of
          (snd ((exec PlayerEngine.autoplay_expansion H (guild_id i)
                        (autoplay_of H w (guild_id i));
                 PlayerEngine.start_front H i vc) w0)) (guild_id i)
        = {| queue := map Some more; current_song := Some next |}
    | Ok [] =>
        fst ((exec PlayerEngine.autoplay_expansion H (guild_id i)
                     (autoplay_of H w (guild_id i));
              PlayerEngine.start_front H i vc) w0) = Ok tt /\
        player_of
          (snd ((exec PlayerEngine.autoplay_expansion H (guild_id i)
                        (autoplay_of H w (guild_id i));
                 PlayerEngine.start_front H i vc) w0)) (guild_id i)
        = player_of w (guild_id i)
    | Raise e =>
        fst ((exec PlayerEngine.autoplay_expansion H (guild_id i)
                     (autoplay_of H w (guild_id i));
              PlayerEngine.start_front H i vc) w0) = Raise e /\
        player_of
          (snd ((exec PlayerEngine.autoplay_expansion H (guild_id i)
                        (autoplay_of H w (guild_id i));
                 PlayerEngine.start_front H i vc) w0)) (guild_id i)
        = player_of w (guild_id i)
    end).
  { rewrite Hrun.
    destruct (PlayerEngine.autoplay_tracks H (guild_id i) (autoplay_of H w (guild_id i)))
      as [[|next more]|e].
    - rewrite start_front_empty
        by (rewrite player_of_with_players, decide_True by reflexivity;
            cbn [queue]; rewrite Hp, Hq; reflexivity).
      unfold ErrMsg.queue_is_empty.
      match goal with
      | |- context [ErrMsg.msg ?a ?b ?x] =>
          destruct (ErrMsg_msg_quiet H a b x) as [Hok [[Hs _] _]]
      end.
      split; [exact Hok |].
      rewrite Hs, player_of_entered, player_of_with_players, decide_True by reflexivity.
      rewrite Hp. destruct (player_of w (guild_id i)) as [q c]. cbn in *. subst q.
      reflexivity.
    - match goal with
      | |- context [PlayerEngine.start_front H i vc ?x] =>
          destruct (start_front_pops H i vc x (Some next) (map Some more)) as (Hpl & _)
      end.
      { rewrite player_of_with_players, decide_True by reflexivity.
        cbn [queue]. rewrite Hp, Hq. reflexivity. }
      exact Hpl.
    - cbn [fst snd]. split; [reflexivity |].
      change (player_of (with_trace ?f ?x) (guild_id i)) with (player_of x (guild_id i)).
      apply Hp. }
  destruct (autoplay_of H w (guild_id i)); [congruence | exact Hgoal | exact Hgoal].
Qed.

Lemma trace_looked_up (H : Host) (gid : Z) (w : World) :
  trace (looked_up H gid w) = trace w.
Proof.
  unfold looked_up, entered. rewrite guild_data_run. cbn [snd].
  rewrite guild_properties_run. reflexivity.
Qed.

Lemma expansion_invoked_app (t1 t2 : list Event) :
  expansion_invoked (t1 ++ t2) = expansion_invoked t1 || expansion_invoked t2.
Proof. apply existsb_app. Qed.

(** Started with nothing streaming, [play_audio_queue] expands the queue
    exactly when the queue is empty and autoplay is on. *)
Lemma expansion_iff (H : Host) (i : Interaction) (vc : nat) (w : World) :
  vc_playing (Voice.vc_at w vc) = false ->
  expansion_invoked
    (new_events w (snd (PlayerEngine.play_audio_queue H i vc w))) = true
  <-> queue (player_of w (guild_id i)) = [] /\ autoplay_of H w (guild_id i) <> NONE.
Proof.
  intros Hidle. rewrite (play_audio_queue_idle H i vc w Hidle).
  pose proof (trace_looked_up H (guild_id i) w) as Ht0.
  set (w0 := looked_up H (guild_id i) w) in *.
  assert (Hplain :
    expansion_invoked (new_events w (snd ((exec ret tt; PlayerEngine.start_front H i vc) w0)))
    = false).
  { erewrite bind_ok by reflexivity.
    destruct (start_front_trace H i vc w0) as (ev & Hev & Hno).
    rewrite (new_events_app w _ ev) by (rewrite Hev, Ht0; reflexivity). exact Hno. }
  assert (Hexp : forall m,
    expansion_invoked
      (new_events w (snd ((exec PlayerEngine.autoplay_expansion H (guild_id i) m;
                           PlayerEngine.start_front H i vc) w0)))
    = true).
  { intros m. pose proof (autoplay_expansion_trace H (guild_id i) m w0) as Hexp.
    unfold Discord.bind.
    destruct (PlayerEngine.autoplay_expansion H (guild_id i) m w0) as [[[]|e] w1];
      cbn [snd] in *.
    - destruct (start_front_trace H i vc w1) as (ev & Hev & _).
      rewrite (new_events_app w _ ([AutoplayExpansion m] ++ ev))
        by (rewrite Hev, Hexp, Ht0, <- app_assoc; reflexivity).
      reflexivity.
    - rewrite (new_events_app w _ [AutoplayExpansion m])
        by (rewrite Hexp, Ht0; reflexivity).
      reflexivity. }
  destruct (queue (player_of w (guild_id i))) as [|front rest];
    destruct (autoplay_of H w (guild_id i)).
  - rewrite Hplain. split; [discriminate | intros [_ Hm]; congruence].
  - rewrite Hexp. split; [intros _; split; [reflexivity | discriminate] | reflexivity].
  - rewrite Hexp. split; [intros _; split; [reflexivity | discriminate] | reflexivity].
  - rewrite Hplain. split; [discriminate | intros [Hq _]; discriminate].
  - rewrite Hplain. split; [discriminate | intros [Hq _]; discriminate].
  - rewrite Hplain. split; [discriminate | intros [Hq _]; discriminate].
Qed.

Lemma play_audio_queue_trace (H : Host) (i : Interaction) (vc : nat) (w : World) :
  exists ev, trace (snd (PlayerEngine.play_audio_queue H i vc w)) = trace w ++ ev.
Proof.
  destruct (vc_playing (Voice.vc_at w vc)) eqn:Hplaying.
  - rewrite (play_audio_queue_streaming H i vc w Hplaying).
    exists []. rewrite app_nil_r. reflexivity.
  - rewrite (play_audio_queue_idle H i vc w Hplaying).
    pose proof (trace_looked_up H (guild_id i) w) as Ht0.
    set (w0 := looked_up H (guild_id i) w) in *.
    assert (Hplain : exists ev,
      trace (snd ((exec ret tt; PlayerEngine.start_front H i vc) w0)) = trace w ++ ev).
    { erewrite bind_ok by reflexivity.
      destruct (start_front_trace H i vc w0) as (ev & Hev & _).
      exists ev. rewrite Hev, Ht0. reflexivity. }
    assert (Hexp : forall m, exists ev,
      trace (snd ((exec PlayerEngine.autoplay_expansion H (guild_id i) m;
                   PlayerEngine.start_front H i vc) w0)) = trace w ++ ev).
    { intros m. pose proof (autoplay_expansion_trace H (guild_id i) m w0) as Hexp.
      unfold Discord.bind.
      destruct (PlayerEngine.autoplay_expansion H (guild_id i) m w0) as [[[]|e] w1];
        cbn [snd] in *.
      - destruct (start_front_trace H i vc w1) as (ev & Hev & _).
        exists ([AutoplayExpansion m] ++ ev).
        rewrite Hev, Hexp, Ht0, <- app_assoc. reflexivity.
      - exists [AutoplayExpansion m]. rewrite Hexp, Ht0. reflexivity. }
    destruct (queue (player_of w (guild_id i))) as [|front rest];
      destruct (autoplay_of H w (guild_id i)); auto.
Qed.

(** The world [skip_track] hands to [play_audio_queue]. *)
Definition skipped_world (vc : nat) (gid : Z) (w : World) : World :=
  with_players (insert gid (set_current_song None (player_of w gid)))
    (with_trace (fun t => t ++ [VoiceStop vc])
       (Voice.update_vc vc (Voice.set_playing false) w)).

Lemma skip_track_run (H : Host) (i : Interaction) (vc : nat) (w : World) :
  PlayerEngine.skip_track H i vc w
  = PlayerEngine.play_audio_queue H i vc (skipped_world vc (guild_id i) w).
Proof.
  unfold PlayerEngine.skip_track, Voice.stop.
  erewrite bind_ok by reflexivity.
  erewrite bind_ok by (rewrite update_player_run; reflexivity).
  reflexivity.
Qed.

Lemma skipped_world_idle (vc : nat) (gid : Z) (w : World) :
  vc_playing (Voice.vc_at (skipped_world vc gid w) vc) = false.
Proof.
  pose proof (vc_at_update w vc false) as Hu.
  unfold skipped_world, Voice.vc_at, Voice.update_vc, with_voice in *;
    cbn [voice_heap with_players with_trace] in *.
  rewrite Hu. destruct (decide _); reflexivity.
Qed.

Lemma skipped_world_player (vc : nat) (gid : Z) (w : World) :
  player_of (skipped_world vc gid w) gid
  = {| queue := queue (player_of w gid); current_song := None |}.
Proof.
  unfold skipped_world. rewrite player_of_with_players, decide_True by reflexivity.
  reflexivity.
Qed.

(** C5: with the track [t] playing, [stop] halts the stream, puts [t] back
    at the front of the queue and clears [current_song]; the
    [play_audio_queue] of the specification, called right after, takes [t]
    from the queue again and streams it.  [skip_track] also halts the
    stream, but in every guild state it hands the queue on as it was, with
    no current track: [t] is not put back.  What comes next is then the
    front of that queue; with an empty queue and autoplay off nothing comes
    next; with an empty queue and autoplay on the next tracks are those the
    catalog gives to the expansion, the first as current track and the
    others as queue. *)
Theorem stop_requeues_and_skip_discards (H : Host) (i : Interaction) (w : World)
  (vc : nat) (t : Song) :
  Voice.utils_get w (guild i) = Some vc ->
  current_song (player_of w (guild_id i)) = Some t ->
  let gid := guild_id i in
  let q := queue (player_of w gid) in
  let stopped := stop H i w in
  let replay := PlayerEngine.play_audio_queue H i vc (snd stopped) in
  let skipped := PlayerEngine.skip_track H i vc w in
  (fst stopped = Ok tt /\
   hd_error (new_events w (snd stopped)) = Some (VoiceStop vc) /\
   vc_playing (Voice.vc_at (snd stopped) vc) = false /\
   player_of (snd stopped) gid = {| queue := Some t :: q; current_song := None |}) /\
  (player_of (snd replay) gid = {| queue := q; current_song := Some t |} /\
   forall url, stream H (id t) = Ok url ->
     fst replay = Ok tt /\ last (trace (snd replay)) = Some (VoicePlay vc url)) /\
  (hd_error (new_events w (snd skipped)) = Some (VoiceStop vc) /\
   (exists handed,
      skipped = PlayerEngine.play_audio_queue H i vc handed /\
      new_events w handed = [VoiceStop vc] /\
      vc_playing (Voice.vc_at handed vc) = false /\
      player_of handed gid = {| queue := q; current_song := None |}) /\
   (forall front rest, q = front :: rest ->
      player_of (snd skipped) gid = {| queue := rest; current_song := front |}) /\
   (q = [] -> autoplay_of H w gid = NONE ->
      player_of (snd skipped) gid = {| queue := []; current_song := None |}) /\
   (q = [] -> autoplay_of H w gid <> NONE ->
      match PlayerEngine.autoplay_tracks H gid (autoplay_of H w gid) with
      | Ok (next :: more) =>
          player_of (snd skipped) gid
          = {| queue := map Some more; current_song := Some next |}
      | Ok [] =>
          fst skipped = Ok tt /\
          player_of (snd skipped) gid = {| queue := []; current_song := None |}
      | Raise e =>
          fst skipped = Raise e /\
          player_of (snd skipped) gid = {| queue := []; current_song := None |}
      end)).
Proof.
  intros Hget Hcur. cbn zeta.
  destruct (stop_run H i w vc Hget) as (Hok & Hp & Hidle & (new & Hnew & _) & _).
  rewrite Hcur in Hp.
  split; [| split].
  - rewrite Hnew. auto.
  - destruct (play_audio_queue_front H i vc (snd (stop H i w)) (Some t)
                (queue (player_of w (guild_id i))) Hidle)
      as (Hpl & _ & Hplay).
    { rewrite Hp. reflexivity. }
    split; [exact Hpl |]. intros url Hurl. exact (Hplay t url eq_refl Hurl).
  - rewrite skip_track_run.
    pose proof (skipped_world_idle vc (guild_id i) w) as Hidle'.
    pose proof (skipped_world_player vc (guild_id i) w) as Hp'.
    assert (Htr : trace (skipped_world vc (guild_id i) w) = trace w ++ [VoiceStop vc])
      by reflexivity.
    split; [| split; [| split; [| split]]].
    + destruct (play_audio_queue_trace H i vc (skipped_world vc (guild_id i) w))
        as (ev & Hev).
      rewrite (new_events_app w _ ([VoiceStop vc] ++ ev))
        by (rewrite Hev, Htr, <- app_assoc; reflexivity).
      reflexivity.
    + exists (skipped_world vc (guild_id i) w).
      split; [reflexivity |]. split; [apply new_events_app, Htr |].
      split; [exact Hidle' | exact Hp'].
    + intros front rest Hq.
      destruct (play_audio_queue_front H i vc _ front rest Hidle') as (Hpl & _).
      { rewrite Hp', Hq. reflexivity. }
      exact Hpl.
    + intros Hq Hm.
      rewrite play_audio_queue_nothing; [| exact Hidle' | rewrite Hp', Hq; reflexivity | exact Hm].
      destruct (ErrMsg_msg_quiet H (Some i) "Queue is empty."
                  (entered (guild_id i)
                     (looked_up H (guild_id i) (skipped_world vc (guild_id i) w))))
        as [_ [[Hs _] _]].
      unfold ErrMsg.queue_is_empty. rewrite Hs, player_of_entered.
      destruct (quiet_step_looked_up H (guild_id i) (skipped_world vc (guild_id i) w))
        as [[Hl _] _].
      rewrite Hl, Hp', Hq. reflexivity.
    + intros Hq Hm.
      pose proof (play_audio_queue_expands H i vc (skipped_world vc (guild_id i) w)
                    Hidle') as Hexp.
      cbn zeta in Hexp. rewrite Hp' in Hexp. cbn [queue] in Hexp.
      change (autoplay_of H (skipped_world vc (guild_id i) w) (guild_id i))
        with (autoplay_of H w (guild_id i)) in Hexp.
      specialize (Hexp Hq Hm). rewrite <- Hq. exact Hexp.
Qed.

End MusicFacts.

Module PlayFacts.
Import SenderFacts DispatchFacts StoreFacts MusicFacts MusicCog.

Lemma quiet_step_sender (H : Host) (w : World) (r : outcome unit) (w' : World)
  (interaction : option Interaction) (text : string) :
  ErrMsg.msg interaction text w = (r, w') -> r = Ok tt /\ quiet_step H w w'.
Proof.
  intros E. destruct (ErrMsg_msg_quiet H interaction text w) as [Hok Hq].
  rewrite E in Hok, Hq. auto.
Qed.

(** [play] without a query, in a guild with an empty queue and autoplay
    off: whatever the engine, the command ends the same way, leaves the
    guild state as it was and starts no stream; when a voice client is
    there and idle, what it does is report that the queue is empty. *)
Lemma play_nothing_to_play (H : Host) (i : Interaction) (querytype : option string)
  (w : World) :
  queue (player_of w (guild_id i)) = [] ->
  autoplay_of H w (guild_id i) = NONE ->
  exists run,
    (forall P, play H P i querytype None w = run) /\
    quiet_step H w (snd run) /\
    (forall vc w1,
       user_voice i <> None ->
       get_voice_client H i true w = (Ok (Some vc), w1) ->
       vc_playing (Voice.vc_at w1 vc) = false ->
       run = ErrMsg.queue_is_empty (Some i) (looked_up H (guild_id i) w1)).
Proof.
  intros Hq Hm. unfold play. cbn zeta.
  destruct (user_voice i) as [vs|] eqn:Huv.
  2: { exists (ErrMsg.user_not_in_voice_channel (Some i) w).
       split; [intros P; reflexivity |]. split.
       - apply ErrMsg_msg_quiet.
       - intros vc w1 Hne. congruence. }
  pose proof (get_voice_client_quiet H i true w) as Hstep.
  destruct (get_voice_client H i true w) as [[[vc|]|e] w1] eqn:G; cbn [snd] in Hstep.
  - destruct (vc_playing (Voice.vc_at w1 vc)) eqn:Hplaying.
    + exists (ErrMsg.already_playing (Some i) w1). split; [| split].
      * intros P. rewrite (bind_ok _ _ _ _ _ G). cbn iota.
        erewrite bind_ok by (unfold Voice.is_playing; rewrite Hplaying; reflexivity).
        reflexivity.
      * eapply quiet_step_trans; [exact Hstep | apply ErrMsg_msg_quiet].
      * intros vc' w1' _ [= <- <-]. congruence.
    + destruct Hstep as [[Hp Ha] Hev].
      exists (ErrMsg.queue_is_empty (Some i) (looked_up H (guild_id i) w1)).
      split; [| split].
      * intros P. rewrite (bind_ok _ _ _ _ _ G). cbn iota.
        erewrite bind_ok by (unfold Voice.is_playing; rewrite Hplaying; reflexivity).
        cbn [andb].
        rewrite (bind_ok _ _ _ _ _ (guild_data_run (guild_id i) w1)).
        rewrite Hp, Hq.
        erewrite bind_ok.
        2: { erewrite bind_ok by apply guild_properties_run. reflexivity. }
        assert (Hm1 : autoplay_of H (with_players
                        (insert (guild_id i) (player_of w (guild_id i))) w1) (guild_id i)
                      = NONE) by (rewrite <- Hm, <- Ha; reflexivity).
        rewrite Hm1. cbn iota.
        unfold looked_up, entered. rewrite guild_data_run. cbn [snd].
        rewrite guild_properties_run. cbn [snd]. rewrite Hp, Hm1. reflexivity.
      * eapply quiet_step_trans; [split; [split; [exact Hp | exact Ha] | exact Hev] |].
        eapply quiet_step_trans; [apply quiet_step_looked_up | apply ErrMsg_msg_quiet].
      * intros vc' w1' _ [= <- <-] _. reflexivity.
  - exists (Raise AttributeError, w1). split; [| split].
    + intros P. rewrite (bind_ok _ _ _ _ _ G). reflexivity.
    + exact Hstep.
    + intros vc' w1' _ [=].
  - exists (Raise e, w1). split; [| split].
    + intros P. rewrite (bind_raise _ _ _ _ _ G). reflexivity.
    + exact Hstep.
    + intros vc' w1' _ [=].
Qed.

(** [play] without a query, once the caller is in a voice channel and the
    bot's voice client is there and idle: the guild's queue is read, and
    its autoplay mode when the queue is empty; with an empty queue and
    autoplay off the command is the report that the queue is empty, and in
    every other case the notice that playback starts followed by the
    engine. *)
Lemma play_without_query (H : Host) (P : Engine) (i : Interaction)
  (querytype : option string) (vs : VoiceState) (vc : nat) (w w1 : World) :
  user_voice i = Some vs ->
  get_voice_client H i true w = (Ok (Some vc), w1) ->
  vc_playing (Voice.vc_at w1 vc) = false ->
  play H P i querytype None w
  = match queue (player_of w (guild_id i)), autoplay_of H w (guild_id i) with
    | [], NONE => ErrMsg.queue_is_empty (Some i) (looked_up H (guild_id i) w1)
    | [], _ =>
        (exec SysMsg.starting_queue_playback H (Some i); play_audio_queue P i vc)
          (looked_up H (guild_id i) w1)
    | _ :: _, _ =>
        (exec SysMsg.starting_queue_playback H (Some i); play_audio_queue P i vc)
          (entered (guild_id i) w1)
    end.
Proof.
  intros Huv G Hidle.
  pose proof (get_voice_client_quiet H i true w) as Hstep. rewrite G in Hstep.
  cbn [snd] in Hstep. destruct Hstep as [[Hp Ha] _].
  unfold play. cbn zeta. rewrite Huv.
  rewrite (bind_ok _ _ _ _ _ G). cbn iota.
  erewrite bind_ok by (unfold Voice.is_playing; rewrite Hidle; reflexivity).
  cbn [andb].
  rewrite (bind_ok _ _ _ _ _ (guild_data_run (guild_id i) w1)).
  rewrite Hp.
  assert (E : with_players (insert (guild_id i) (player_of w (guild_id i))) w1
              = entered (guild_id i) w1).
  { unfold entered. rewrite guild_data_run, Hp. reflexivity. }
  rewrite E.
  destruct (queue (player_of w (guild_id i))) as [|front rest].
  - assert (Hm : autoplay_of H (entered (guild_id i) w1) (guild_id i)
                 = autoplay_of H w (guild_id i)).
    { rewrite <- Ha. unfold entered. rewrite guild_data_run. reflexivity. }
    erewrite bind_ok.
    2: { erewrite bind_ok by apply guild_properties_run. rewrite Hm. reflexivity. }
    assert (E2 : with_autoplay (insert (guild_id i) (autoplay_of H w (guild_id i)))
                   (entered (guild_id i) w1)
                 = looked_up H (guild_id i) w1).
    { unfold looked_up. rewrite guild_properties_run, Hm. reflexivity. }
    rewrite E2. destruct (autoplay_of H w (guild_id i)); reflexivity.
  - erewrite bind_ok by reflexivity. destruct (autoplay_of H w (guild_id i)); reflexivity.
Qed.

(** With nothing to play the command reports it, when it was issued in a
    guild. *)
Lemma play_reports_nothing_to_play (H : Host) (P : Engine) (i : Interaction)
  (querytype : option string) (vc : nat) (w w1 : World) :
  user_voice i <> None ->
  get_voice_client H i true w = (Ok (Some vc), w1) ->
  vc_playing (Voice.vc_at w1 vc) = false ->
  queue (player_of w (guild_id i)) = [] ->
  autoplay_of H w (guild_id i) = NONE ->
  let run := play H P i querytype None w in
  run = ErrMsg.queue_is_empty (Some i) (looked_up H (guild_id i) w1) /\
  fst run = Ok tt /\
  (guild i <> None -> reported w run "Queue is empty.") /\
  (guild i = None -> silent w run).
Proof.
  intros Huv G Hidle Hq Hm. cbn zeta.
  destruct (user_voice i) as [vs|] eqn:Hvs; [| congruence].
  rewrite (play_without_query H P i querytype vs vc w w1 Hvs G Hidle), Hq, Hm.
  assert (Hunsent : unsent w (looked_up H (guild_id i) w1)).
  { eapply unsent_trans; [eapply get_voice_client_some; exact G | apply unsent_looked_up]. }
  unfold ErrMsg.queue_is_empty.
  split; [reflexivity |].
  split; [apply (ErrMsg_msg_quiet H) |].
  split; intros Hg.
  - apply ErrMsg_msg_reported; assumption.
  - apply ErrMsg_msg_silent; assumption.
Qed.

(** With something to play, or autoplay on, the command sends its notice
    and hands over to the engine, with the guild state as it was and the
    voice client still idle. *)
Lemma play_reaches_engine (H : Host) (P : Engine) (i : Interaction)
  (querytype : option string) (vc : nat) (w w1 : World) :
  user_voice i <> None ->
  get_voice_client H i true w = (Ok (Some vc), w1) ->
  vc_playing (Voice.vc_at w1 vc) = false ->
  queue (player_of w (guild_id i)) <> [] \/ autoplay_of H w (guild_id i) <> NONE ->
  exists noticed,
    play H P i querytype None w = play_audio_queue P i vc noticed /\
    (guild i <> None ->
     notified w (Ok tt, noticed) "Started queue playback" None false) /\
    quiet_step H w noticed /\
    vc_playing (Voice.vc_at noticed vc) = false.
Proof.
  intros Huv G Hidle Hany.
  destruct (user_voice i) as [vs|] eqn:Hvs; [| congruence].
  rewrite (play_without_query H P i querytype vs vc w w1 Hvs G Hidle).
  pose proof (get_voice_client_quiet H i true w) as Hstep. rewrite G in Hstep.
  cbn [snd] in Hstep.
  pose proof (get_voice_client_some H i true w w1 vc G) as Hunsent.
  assert (Hfrom : forall w0,
    quiet_step H w1 w0 -> unsent w1 w0 -> voice_heap w0 = voice_heap w1 ->
    exists noticed,
      (exec SysMsg.starting_queue_playback H (Some i); play_audio_queue P i vc) w0
      = play_audio_queue P i vc noticed /\
      (guild i <> None ->
       notified w (Ok tt, noticed) "Started queue playback" None false) /\
      quiet_step H w noticed /\
      vc_playing (Voice.vc_at noticed vc) = false).
  { intros w0 Hq0 Hu0 Hh0. unfold SysMsg.starting_queue_playback.
    destruct (SysMsg_msg_world H (Some i) "Started queue playback" None None false w0)
      as (noticed & Hrun & Hqn & Hhn & _).
    exists noticed. split; [unfold Discord.bind; rewrite Hrun; reflexivity |].
    split.
    { intros Hg. rewrite <- Hrun. apply SysMsg_msg_notified; [exact Hg |].
      eapply unsent_trans; eassumption. }
    split.
    { eapply quiet_step_trans; [exact Hstep |].
      eapply quiet_step_trans; eassumption. }
    unfold Voice.vc_at in *. rewrite Hhn, Hh0. exact Hidle. }
  destruct (queue (player_of w (guild_id i))) as [|front rest] eqn:Hq.
  - destruct (autoplay_of H w (guild_id i)) eqn:Hm.
    + destruct Hany as [Hne | Hne]; congruence.
    + apply Hfrom; [apply quiet_step_looked_up | apply unsent_looked_up
                    | apply voice_looked_up].
    + apply Hfrom; [apply quiet_step_looked_up | apply unsent_looked_up
                    | apply voice_looked_up].
  - destruct (autoplay_of H w (guild_id i));
      (apply Hfrom; [apply quiet_step_entered | apply unsent_entered
                     | apply voice_entered]).
Qed.

(** C6: the [play_audio_queue] of the specification, called when nothing
    is streaming, invokes autoplay expansion if and only if the queue is
    empty and the autoplay mode is not NONE, and so does the whole [play]
    command without a query when it runs with that engine.  The command's
    own guard: with an empty queue and autoplay NONE it does not reach the
    engine, whatever the engine is; the guild's playback state is unchanged
    (so [current_song] stays empty), no stream is started, no expansion is
    made, and, issued in a guild by a caller in a voice channel with the
    bot's voice client idle, it reports "Queue is empty." to the caller:
    at least one delivery attempt is made and each carries that text.  In
    every other case it sends "Started queue playback" and hands over to
    the engine. *)
Theorem autoplay_only_on_empty_queue_and_mode (H : Host) (P : Engine)
  (i : Interaction) (querytype : option string) (vc : nat) (w : World) :
  let gid := guild_id i in
  let q := queue (player_of w gid) in
  let mode := autoplay_of H w gid in
  let run := play H P i querytype None w in
  (vc_playing (Voice.vc_at w vc) = false ->
   (expansion_invoked
      (new_events w (snd (PlayerEngine.play_audio_queue H i vc w))) = true
    <-> q = [] /\ mode <> NONE)) /\
  (q = [] -> mode = NONE ->
   player_of (snd run) gid = player_of w gid /\
   started_playback (new_events w (snd run)) = false /\
   expansion_invoked (new_events w (snd run)) = false /\
   (forall P', play H P' i querytype None w = run)) /\
  (forall vc1 w1,
     user_voice i <> None ->
     get_voice_client H i true w = (Ok (Some vc1), w1) ->
     vc_playing (Voice.vc_at w1 vc1) = false ->
     (expansion_invoked
        (new_events w (snd (play H (spec_engine H) i querytype None w))) = true
      <-> q = [] /\ mode <> NONE) /\
     (q = [] -> mode = NONE ->
      run = ErrMsg.queue_is_empty (Some i) (looked_up H gid w1) /\
      fst run = Ok tt /\
      (guild i <> None -> reported w run "Queue is empty.") /\
      (guild i = None -> silent w run)) /\
     (q <> [] \/ mode <> NONE ->
      exists noticed,
        run = play_audio_queue P i vc1 noticed /\
        (guild i <> None ->
         notified w (Ok tt, noticed) "Started queue playback" None false) /\
        quiet_step H w noticed /\
        vc_playing (Voice.vc_at noticed vc1) = false)).
Proof.
  cbn zeta. split; [apply expansion_iff |].
  assert (Hoff : queue (player_of w (guild_id i)) = [] ->
                 autoplay_of H w (guild_id i) = NONE ->
                 forall P0,
                   (forall g, player_of (snd (play H P0 i querytype None w)) g
                              = player_of w g) /\
                   started_playback (new_events w (snd (play H P0 i querytype None w)))
                   = false /\
                   expansion_invoked (new_events w (snd (play H P0 i querytype None w)))
                   = false /\
                   (forall P', play H P' i querytype None w
                               = play H P0 i querytype None w)).
  { intros Hq Hm P0.
    destruct (play_nothing_to_play H i querytype w Hq Hm) as (run & Hrun & Hstep & _).
    rewrite (Hrun P0).
    destruct (quiet_step_new_events H w (snd run) Hstep) as (_ & Hnoplay & Hnoexp).
    destruct Hstep as [[Hp _] _].
    split; [exact Hp |]. split; [exact Hnoplay |]. split; [exact Hnoexp | exact Hrun]. }
  split.
  { intros Hq Hm. destruct (Hoff Hq Hm P) as (Hp & Hnoplay & Hnoexp & Hsame).
    split; [apply Hp |]. split; [exact Hnoplay |]. split; [exact Hnoexp | exact Hsame]. }
  intros vc1 w1 Huv G Hidle.
  split; [| split].
  - destruct (queue (player_of w (guild_id i))) as [|front rest] eqn:Hq.
    + assert (Hmode : autoplay_of H w (guild_id i) = NONE \/
                      autoplay_of H w (guild_id i) <> NONE)
        by (destruct (autoplay_of H w (guild_id i)); [left | right | right]; congruence).
      destruct Hmode as [Hm | Hm].
      * destruct (Hoff eq_refl Hm (spec_engine H)) as (_ & _ & Hnoexp & _).
        rewrite Hnoexp. split; [discriminate | intros [_ Hne]; congruence].
      * destruct (play_reaches_engine H (spec_engine H) i querytype vc1 w w1 Huv G Hidle)
          as (noticed & Hrun & _ & Hstep & Hidle').
        { right. exact Hm. }
        rewrite Hrun. cbn [play_audio_queue spec_engine].
        destruct (quiet_step_new_events H w noticed Hstep) as (Ht & _ & Hno).
        destruct (play_audio_queue_trace H i vc1 noticed) as (ev & Hev).
        pose proof (expansion_iff H i vc1 noticed Hidle') as Hiff.
        rewrite (new_events_app noticed _ ev Hev) in Hiff.
        rewrite (new_events_app w _ (new_events w noticed ++ ev))
          by (rewrite Hev, Ht, <- app_assoc; reflexivity).
        rewrite expansion_invoked_app, Hno. cbn [orb].
        destruct Hstep as [[Hp Ha] _]. rewrite Hp, Ha, Hq in Hiff. exact Hiff.
    + destruct (play_reaches_engine H (spec_engine H) i querytype vc1 w w1 Huv G Hidle)
        as (noticed & Hrun & _ & Hstep & Hidle').
      { left. rewrite Hq. discriminate. }
      rewrite Hrun. cbn [play_audio_queue spec_engine].
      destruct (quiet_step_new_events H w noticed Hstep) as (Ht & _ & Hno).
      destruct (play_audio_queue_trace H i vc1 noticed) as (ev & Hev).
      pose proof (expansion_iff H i vc1 noticed Hidle') as Hiff.
      rewrite (new_events_app noticed _ ev Hev) in Hiff.
      rewrite (new_events_app w _ (new_events w noticed ++ ev))
        by (rewrite Hev, Ht, <- app_assoc; reflexivity).
      rewrite expansion_invoked_app, Hno. cbn [orb].
      destruct Hstep as [[Hp Ha] _]. rewrite Hp, Ha, Hq in Hiff. exact Hiff.
  - intros Hq Hm.
    exact (play_reports_nothing_to_play H P i querytype vc1 w w1 Huv G Hidle Hq Hm).
  - intros Hany.
    exact (play_reaches_engine H P i querytype vc1 w w1 Huv G Hidle Hany).
Qed.

(** [play] with a query, once the caller is in a voice channel and a
    voice client is obtained: the guild is looked up and the query type
    decides. *)
Lemma play_query_reached (H : Host) (P : Engine) (i : Interaction)
  (querytype : option string) (query : string) (vs : VoiceState) (vc : nat)
  (w w1 : World) :
  user_voice i = Some vs ->
  get_voice_client H i true w = (Ok (Some vc), w1) ->
  play H P i querytype (Some query) w
  = match querytype with
    | None => ErrMsg.msg (Some i) "Please provide a query type."
    | Some querytype =>
        if String.eqb querytype "track" then
          do songs <- lift (search H query 0 0 0 0 1 0);
          match songs with
          | [] => ErrMsg.msg (Some i) ("No track found for **" ++ query ++ "**.")%string
          | song :: _ =>
              exec update_player (guild_id i) (queue_append (Some song));
              exec SysMsg.added_to_queue H (Some i) song;
              play_audio_queue P i vc
          end
        else if String.eqb querytype "album" then
          do album <- lift (search_album H query);
          match album with
          | None => ErrMsg.msg (Some i) ("No album found for **" ++ query ++ "**.")%string
          | Some album =>
              exec append_each (guild_id i) (songs album);
              exec SysMsg.added_album_to_queue H (Some i) album;
              play_audio_queue P i vc
          end
        else play_audio_queue P i vc
    end (entered (guild_id i) w1).
Proof.
  intros Huv G. unfold play. cbn zeta. rewrite Huv.
  rewrite (bind_ok _ _ _ _ _ G). cbn iota.
  erewrite bind_ok by reflexivity.
  rewrite andb_false_r.
  rewrite (bind_ok _ _ _ _ _ (guild_data_run (guild_id i) w1)).
  unfold entered. rewrite guild_data_run. reflexivity.
Qed.

(** When the catalog search of a track query returns the empty list,
    [play] leaves every guild's playback state as it was, so the queue has
    the same length and contents; once a voice client is obtained, what
    the command does is report "No track found for **query**." to the
    caller, when it was issued in a guild. *)
Lemma play_track_not_found (H : Host) (P : Engine) (i : Interaction)
  (query : string) (w : World) :
  search H query 0 0 0 0 1 0 = Ok [] ->
  let gid := guild_id i in
  let run := play H P i (Some "track") (Some query) w in
  let text := ("No track found for **" ++ query ++ "**.")%string in
  (forall g, player_of (snd run) g = player_of w g) /\
  (forall vc w1,
     user_voice i <> None ->
     get_voice_client H i true w = (Ok (Some vc), w1) ->
     run = ErrMsg.msg (Some i) text (entered gid w1) /\
     fst run = Ok tt /\
     (guild i <> None -> reported w run text) /\
     (guild i = None -> silent w run)).
Proof.
  intros Hsearch. cbn zeta.
  assert (Hreached : forall vc w1,
    user_voice i <> None ->
    get_voice_client H i true w = (Ok (Some vc), w1) ->
    play H P i (Some "track") (Some query) w
    = ErrMsg.msg (Some i) ("No track found for **" ++ query ++ "**.")
        (entered (guild_id i) w1)).
  { intros vc w1 Huv G. destruct (user_voice i) as [vs|] eqn:Hvs; [| congruence].
    rewrite (play_query_reached H P i (Some "track") query vs vc w w1 Hvs G).
    cbn [String.eqb Ascii.eqb Bool.eqb].
    unfold lift at 1. rewrite Hsearch.
    erewrite bind_ok by reflexivity. reflexivity. }
  split.
  - destruct (user_voice i) as [vs|] eqn:Huv.
    2: { unfold play. cbn zeta. rewrite Huv.
         destruct (ErrMsg_msg_quiet H (Some i) "You are not connected to a voice channel." w)
           as [_ [[Hp _] _]]. exact Hp. }
    pose proof (get_voice_client_quiet H i true w) as Hstep.
    destruct (get_voice_client H i true w) as [[[vc|]|e] w1] eqn:G; cbn [snd] in Hstep;
      destruct Hstep as [[Hp1 _] _].
    + rewrite (Hreached vc w1 ltac:(discriminate) eq_refl).
      destruct (ErrMsg_msg_quiet H (Some i) ("No track found for **" ++ query ++ "**.")
                  (entered (guild_id i) w1)) as [_ [[Hp _] _]].
      intros g. rewrite Hp, player_of_entered. apply Hp1.
    + unfold play. cbn zeta. rewrite Huv, (bind_ok _ _ _ _ _ G). exact Hp1.
    + unfold play. cbn zeta. rewrite Huv, (bind_raise _ _ _ _ _ G). exact Hp1.
  - intros vc w1 Huv G. rewrite (Hreached vc w1 Huv G).
    assert (Hunsent : unsent w (entered (guild_id i) w1)).
    { eapply unsent_trans; [eapply get_voice_client_some; exact G | apply unsent_entered]. }
    split; [reflexivity |].
    split; [apply (ErrMsg_msg_quiet H) |].
    split; intros Hg.
    + apply ErrMsg_msg_reported; assumption.
    + apply ErrMsg_msg_silent; assumption.
Qed.

(** When the catalog search of a track query fails, so does [play]: the
    error of the search is raised once the voice client is obtained,
    nothing is sent to the caller and every guild's playback state is as
    it was. *)
Lemma play_track_search_fails (H : Host) (P : Engine) (i : Interaction)
  (query : string) (e : exn) (vc : nat) (w w1 : World) :
  search H query 0 0 0 0 1 0 = Raise e ->
  user_voice i <> None ->
  get_voice_client H i true w = (Ok (Some vc), w1) ->
  let run := play H P i (Some "track") (Some query) w in
  run = (Raise e, entered (guild_id i) w1) /\
  silent w run /\
  (forall g, player_of (snd run) g = player_of w g).
Proof.
  intros Hsearch Huv G. cbn zeta.
  assert (Hrun : play H P i (Some "track") (Some query) w
                 = (Raise e, entered (guild_id i) w1)).
  { destruct (user_voice i) as [vs|] eqn:Hvs; [| congruence].
    rewrite (play_query_reached H P i (Some "track") query vs vc w w1 Hvs G).
    cbn [String.eqb Ascii.eqb Bool.eqb].
    unfold lift at 1. rewrite Hsearch.
    erewrite bind_raise by reflexivity. reflexivity. }
  rewrite Hrun. cbn [snd].
  split; [reflexivity |]. split.
  - unfold silent. cbn [snd]. apply unsent_silent.
    eapply unsent_trans; [eapply get_voice_client_some; exact G | apply unsent_entered].
  - intros g. rewrite player_of_entered.
    pose proof (get_voice_client_quiet H i true w) as Hstep. rewrite G in Hstep.
    destruct Hstep as [[Hp _] _]. apply Hp.
Qed.

Lemma append_each_run (gid : Z) (songs : list Song) :
  forall w, exists w',
    append_each gid songs w = (Ok tt, w') /\
    player_of w' gid
      = {| queue := queue (player_of w gid) ++ map Some songs;
           current_song := current_song (player_of w gid) |} /\
    (forall g, g <> gid -> player_of w' g = player_of w g) /\
    guild_autoplay w' = guild_autoplay w /\
    trace w' = trace w /\
    voice_heap w' = voice_heap w.
Proof.
  induction songs as [|song songs IH]; intros w.
  - exists w. split; [reflexivity |]. split.
    + cbn [map]. rewrite app_nil_r. destruct (player_of w gid); reflexivity.
    + repeat split.
  - cbn [append_each].
    erewrite bind_ok by (rewrite update_player_run; reflexivity).
    destruct (IH (with_players (insert gid (queue_append (Some song) (player_of w gid))) w))
      as (w' & Hrun & Hp & Hother & Ha & Ht & Hv).
    exists w'. split; [exact Hrun |].
    rewrite player_of_with_players, decide_True in Hp by reflexivity.
    split; [| split; [| split; [| split]]].
    + rewrite Hp. cbn [queue_append queue current_song map].
      rewrite <- app_assoc. reflexivity.
    + intros g Hg. rewrite (Hother g Hg), player_of_with_players.
      rewrite decide_False by congruence. reflexivity.
    + rewrite Ha. reflexivity.
    + rewrite Ht. reflexivity.
    + rewrite Hv. reflexivity.
Qed.

Lemma added_album_to_queue_players (H : Host) (interaction : option Interaction)
  (album : Album) (w : World) :
  forall g,
    player_of (snd (SysMsg.added_album_to_queue H interaction album w)) g
    = player_of w g.
Proof.
  intros g. unfold SysMsg.added_album_to_queue, Discord.bind, lift.
  destruct (get_album_art_file H (album_cover_id album)) as [cover_art|e];
    [| reflexivity].
  unfold SysMsg.user_display_name.
  destruct interaction as [i|]; [| reflexivity].
  unfold Discord.ret.
  match goal with
  | |- context [SysMsg.msg H ?a ?b ?c ?d ?e w] =>
      destruct (SysMsg_msg_quiet H a b c d e w) as [_ [[Hp _] _]]
  end.
  apply Hp.
Qed.

(** The album branch of [play], once a voice client is obtained and the
    catalog returns an album: the world after the enqueueing loop, and the
    rest of the command from there. *)
Lemma play_album_run (H : Host) (P : Engine) (i : Interaction)
  (query : string) (album : Album) (vc : nat) (w w1 : World) :
  user_voice i <> None ->
  get_voice_client H i true w = (Ok (Some vc), w1) ->
  search_album H query = Ok (Some album) ->
  let gid := guild_id i in
  let enqueued := snd (append_each gid (songs album) (entered gid w1)) in
  queue (player_of enqueued gid)
    = queue (player_of w gid) ++ map Some (songs album) /\
  length (queue (player_of enqueued gid))
    = (length (queue (player_of w gid)) + length (songs album))%nat /\
  current_song (player_of enqueued gid) = current_song (player_of w gid) /\
  (forall g, g <> gid -> player_of enqueued g = player_of w g) /\
  play H P i (Some "album") (Some query) w
    = (exec SysMsg.added_album_to_queue H (Some i) album;
       play_audio_queue P i vc) enqueued /\
  (forall g,
     player_of (snd (SysMsg.added_album_to_queue H (Some i) album enqueued)) g
     = player_of enqueued g).
Proof.
  intros Huv G Halbum. cbn zeta.
  pose proof (get_voice_client_quiet H i true w) as Hstep.
  rewrite G in Hstep. cbn [snd] in Hstep. destruct Hstep as [[Hp1 _] _].
  destruct (append_each_run (guild_id i) (songs album) (entered (guild_id i) w1))
    as (w2 & Hrun & Hp & Hother & _).
  rewrite Hrun. cbn [snd].
  rewrite player_of_entered, Hp1 in Hp.
  split; [rewrite Hp; reflexivity |].
  split; [rewrite Hp; cbn [queue]; rewrite length_app, length_map; reflexivity |].
  split; [rewrite Hp; reflexivity |].
  split; [intros g Hg; rewrite (Hother g Hg), player_of_entered; apply Hp1 |].
  split; [| apply added_album_to_queue_players].
  unfold play. cbn zeta.
  destruct (user_voice i) as [vs|]; [| congruence].
  rewrite (bind_ok _ _ _ _ _ G). cbn iota.
  erewrite bind_ok by reflexivity.
  rewrite andb_false_r.
  rewrite (bind_ok _ _ _ _ _ (guild_data_run (guild_id i) w1)).
  cbn [String.eqb Ascii.eqb Bool.eqb].
  unfold lift at 1. rewrite Halbum.
  erewrite bind_ok by reflexivity.
  unfold entered in Hrun. rewrite guild_data_run in Hrun. cbn [snd] in Hrun.
  cbn iota. rewrite (bind_ok _ _ _ _ _ Hrun). reflexivity.
Qed.

(** C8: once a voice client is obtained and the catalog returns an album,
    [play] with querytype album appends the album's tracks to the guild's
    queue, all of them and in the album's order, behind the tracks already
    queued; [current_song] and the other guilds are left alone.  The
    command then sends its notice, which leaves the playback state alone,
    and hands over to the engine's [play_audio_queue]. *)
Theorem play_album_appends_tracks (H : Host) (P : Engine) (i : Interaction)
  (query : string) (album : Album) (vc : nat) (w w1 : World) :
  user_voice i <> None ->
  get_voice_client H i true w = (Ok (Some vc), w1) ->
  search_album H query = Ok (Some album) ->
  let gid := guild_id i in
  let enqueued := snd (append_each gid (songs album) (entered gid w1)) in
  queue (player_of enqueued gid)
    = queue (player_of w gid) ++ map Some (songs album) /\
  length (queue (player_of enqueued gid))
    = (length (queue (player_of w gid)) + length (songs album))%nat /\
  current_song (player_of enqueued gid) = current_song (player_of w gid) /\
  (forall g, g <> gid -> player_of enqueued g = player_of w g) /\
  play H P i (Some "album") (Some query) w
    = (exec SysMsg.added_album_to_queue H (Some i) album;
       play_audio_queue P i vc) enqueued /\
  (forall g,
     player_of (snd (SysMsg.added_album_to_queue H (Some i) album enqueued)) g
     = player_of enqueued g).
Proof.
  intros Huv G Halbum. exact (play_album_run H P i query album vc w w1 Huv G Halbum).
Qed.

Lemma added_album_to_queue_voice (H : Host) (interaction : option Interaction)
  (album : Album) (w : World) :
  voice_heap (snd (SysMsg.added_album_to_queue H interaction album w)) = voice_heap w.
Proof.
  unfold SysMsg.added_album_to_queue, Discord.bind, lift.
  destruct (get_album_art_file H (album_cover_id album)) as [cover_art|e];
    [| reflexivity].
  unfold SysMsg.user_display_name.
  destruct interaction as [i|]; [| reflexivity].
  unfold Discord.ret.
  match goal with
  | |- context [SysMsg.msg H ?a ?b ?c ?d ?e w] =>
      destruct (SysMsg_msg_run H a b c d e w) as (new & done & script & -> & _)
  end.
  reflexivity.
Qed.

(** The album command while a track is streaming, with the engine of the
    specification: the engine has nothing to start, and the command leaves
    the queue as the old queue followed by the album's tracks. *)
Lemma play_album_while_streaming (H : Host) (i : Interaction) (query : string)
  (album : Album) (vc : nat) (w : World) :
  user_voice i <> None ->
  Voice.utils_get w (guild i) = Some vc ->
  vc_playing (Voice.vc_at w vc) = true ->
  search_album H query = Ok (Some album) ->
  player_of (snd (play H (spec_engine H) i (Some "album") (Some query) w)) (guild_id i)
  = {| queue := queue (player_of w (guild_id i)) ++ map Some (songs album);
       current_song := current_song (player_of w (guild_id i)) |}.
Proof.
  intros Huv Hget Hplaying Halbum.
  pose proof (get_voice_client_found H i true w vc Hget) as G.
  destruct (play_album_run H (spec_engine H) i query album vc w w Huv G Halbum)
    as (_ & _ & _ & _ & Hplay & Hnotice).
  rewrite Hplay.
  destruct (append_each_run (guild_id i) (songs album) (entered (guild_id i) w))
    as (w2 & Hrun & Hp & _ & _ & _ & Hv).
  rewrite Hrun in *. cbn [snd] in *.
  rewrite player_of_entered in Hp.
  pose proof (added_album_to_queue_voice H (Some i) album w2) as Hv2.
  specialize (Hnotice (guild_id i)).
  unfold Discord.bind.
  destruct (SysMsg.added_album_to_queue H (Some i) album w2) as [[[]|e] w3];
    cbn [snd] in *.
  - cbn [play_audio_queue spec_engine].
    rewrite play_audio_queue_streaming.
    + cbn [snd]. rewrite Hnotice. exact Hp.
    + unfold Voice.vc_at. rewrite Hv2, Hv. unfold entered. rewrite guild_data_run.
      exact Hplaying.
  - rewrite Hnotice. exact Hp.
Qed.

(** The [skip] command, with the bot's voice client found and streaming,
    is the engine's [skip_track]. *)
Lemma skip_while_streaming (H : Host) (P : Engine) (i : Interaction) (vc : nat)
  (w : World) :
  Voice.utils_get w (guild i) = Some vc ->
  vc_playing (Voice.vc_at w vc) = true ->
  skip H P i w = skip_track P i vc (entered (guild_id i) w).
Proof.
  intros Hget Hplaying. unfold skip.
  rewrite (bind_ok _ _ _ _ _ (get_voice_client_found H i false w vc Hget)).
  cbn iota.
  erewrite bind_ok by (unfold Voice.is_playing; rewrite Hplaying; reflexivity).
  cbn [negb].
  rewrite (bind_ok _ _ _ _ _ (guild_data_run (guild_id i) w)).
  unfold entered. rewrite guild_data_run. reflexivity.
Qed.

(** With nothing playing and the bot's voice client found, [stop] still
    stops the client, puts [None] in front of the queue and sends its
    confirmation; "No track is playing." is never sent. *)
Lemma stop_without_track (H : Host) (i : Interaction) (w : World) (vc : nat) :
  Voice.utils_get w (guild i) = Some vc ->
  current_song (player_of w (guild_id i)) = None ->
  stop H i w
    = SysMsg.stopping_queue_playback H (Some i) (stopped_world vc (guild_id i) w) /\
  queue (player_of (snd (stop H i w)) (guild_id i))
    = None :: queue (player_of w (guild_id i)).
Proof.
  intros Hget Hcur. split; [apply stop_found, Hget |].
  destruct (stop_run H i w vc Hget) as (_ & Hp & _).
  rewrite Hp, Hcur. reflexivity.
Qed.

(** What the occupancy watcher does is decided by the two readings of the
    member count. *)
Lemma watcher_cases (during_wait : World -> World) (g : Z) (w : World) :
  on_voice_state_update during_wait g w
  = match Voice.utils_get w (Some g) with
    | None => (Ok tt, w)
    | Some vc =>
        if alone w vc then
          if alone (at_recheck during_wait w) vc then
            (exec Voice.disconnect vc;
             exec guild_data g;
             exec update_player g queue_clear;
             exec update_player g (set_current_song None);
             log INFO "The bot has disconnected and cleared the queue as there are no users in the voice channel.")
              (at_recheck during_wait w)
          else
            log DEBUG "Bot is no longer alone in voice channel, aborting disconnect..."
              (at_recheck during_wait w)
        else (Ok tt, w)
    end.
Proof.
  unfold on_voice_state_update, at_recheck.
  erewrite bind_ok by reflexivity.
  destruct (Voice.utils_get w (Some g)) as [vc|]; [| reflexivity].
  destruct (alone w vc); [| reflexivity].
  erewrite bind_ok by reflexivity.
  erewrite bind_ok by reflexivity.
  erewrite bind_ok by reflexivity.
  match goal with
  | |- context [alone ?x vc] => destruct (alone x vc)
  end; reflexivity.
Qed.

End PlayFacts.

(** ** The occupancy watcher *)

Module WatcherFacts.
Import SenderFacts StoreFacts MusicFacts PlayFacts MusicCog.

(** C9: the watcher disconnects and clears only when the bot is the sole
    member of the channel at both readings, before the 10 second wait and
    at the re-check after it.  Not alone before: nothing happens at all.
    Alone before but not at the re-check: the handler only logs that it
    aborts, on top of the world the wait left.  Alone both times: it
    disconnects and empties the guild's queue and current song. *)
Theorem watcher_acts_only_if_alone_twice (during_wait : World -> World) (g : Z)
  (w : World) :
  let run := on_voice_state_update during_wait g w in
  let later := at_recheck during_wait w in
  fst run = Ok tt /\
  (Voice.utils_get w (Some g) = None -> snd run = w) /\
  (forall vc, Voice.utils_get w (Some g) = Some vc ->
     (alone w vc = false -> snd run = w) /\
     (alone w vc = true -> alone later vc = false ->
        snd run
        = with_trace
            (fun t => t ++ [Log DEBUG "Bot is no longer alone in voice channel, aborting disconnect..."])
            later /\
        guild_players (snd run) = guild_players later /\
        voice_clients (snd run) = voice_clients later /\
        voice_heap (snd run) = voice_heap later) /\
     (alone w vc = true -> alone later vc = true ->
        new_events later (snd run)
        = [VoiceDisconnect vc;
           Log INFO "The bot has disconnected and cleared the queue as there are no users in the voice channel."] /\
        player_of (snd run) g = {| queue := []; current_song := None |} /\
        ~ In vc (voice_clients (snd run)))).
Proof.
  cbn zeta. rewrite watcher_cases.
  set (later := at_recheck during_wait w).
  assert (Hacted :
    exists w',
      (exec Voice.disconnect (default 0%nat (Voice.utils_get w (Some g)));
       exec guild_data g;
       exec update_player g queue_clear;
       exec update_player g (set_current_song None);
       log INFO "The bot has disconnected and cleared the queue as there are no users in the voice channel.")
        later = (Ok tt, w') /\
      trace w' = trace later ++
        [VoiceDisconnect (default 0%nat (Voice.utils_get w (Some g)));
         Log INFO "The bot has disconnected and cleared the queue as there are no users in the voice channel."] /\
      player_of w' g = {| queue := []; current_song := None |} /\
      voice_clients w'
      = filter (fun r => r <> default 0%nat (Voice.utils_get w (Some g)))
          (voice_clients later)).
  { eexists. split.
    - unfold Voice.disconnect.
      erewrite bind_ok by reflexivity.
      erewrite bind_ok by apply guild_data_run.
      erewrite bind_ok by (rewrite update_player_run; reflexivity).
      erewrite bind_ok by (rewrite update_player_run; reflexivity).
      reflexivity.
    - split; [| split].
      + cbn [trace with_trace with_players with_voice]. rewrite <- app_assoc. reflexivity.
      + change (player_of (with_trace ?f ?x) g) with (player_of x g).
        rewrite !player_of_with_players, !decide_True by reflexivity. reflexivity.
      + reflexivity. }
  destruct (Voice.utils_get w (Some g)) as [vc|] eqn:Hget.
  2: { split; [reflexivity |]. split; [reflexivity | intros vc [=]]. }
  cbn [default from_option Datatypes.id] in Hacted. destruct Hacted as (w' & Hrun & Ht & Hp & Hc).
  destruct (alone w vc) eqn:Hbefore; [destruct (alone later vc) eqn:Hafter |].
  - rewrite Hrun. cbn [fst snd].
    split; [reflexivity |]. split; [(intros; congruence) |].
    intros vc' [= <-]. split; [(intros; congruence) |]. split; [intros _ Hno; congruence |].
    intros _ _. split; [apply new_events_app, Ht |]. split; [exact Hp |].
    rewrite Hc. intros Hin. apply list_elem_of_In, list_elem_of_filter in Hin.
    destruct Hin as [Hne _]. apply Hne. reflexivity.
  - split; [reflexivity |]. split; [(intros; congruence) |].
    intros vc' [= <-]. split; [(intros; congruence) |]. split; [| intros _ Hyes; congruence].
    intros _ _. repeat split.
  - split; [reflexivity |]. split; [(intros; congruence) |].
    intros vc' [= <-]. split; [reflexivity |]. split; [(intros; congruence) | (intros; congruence)].
Qed.

End WatcherFacts.

(** ** More on the catalog client *)

Module CatalogFacts.
Import SubsonicFacts.

Lemma songs_of_response_items (result_key : string)
  (top envelope result : list (string * json)) (items : list json) :
  dict_get "subsonic-response" top = Some (JObj envelope) ->
  dict_get result_key envelope = Some (JObj result) ->
  dict_get "song" result = Some (JArr items) ->
  songs_of_response result_key (JObj top) = collect_songs items [].
Proof.
  intros Htop Henv Hres. unfold songs_of_response; simpl.
  rewrite Htop; simpl. rewrite Henv; simpl. rewrite Hres. reflexivity.
Qed.

Lemma collect_songs_records (records : list (list (string * json))) :
  forall acc, exists songs,
    collect_songs (map JObj records) acc = Ok (acc ++ songs) /\
    Forall2 (fun d s => Song_init (JObj d) = Ok s) records songs.
Proof.
  induction records as [|d records IH]; intros acc.
  - exists []. rewrite app_nil_r. split; [reflexivity | constructor].
  - cbn [map collect_songs]. rewrite Song_init_dict. cbn [obind].
    destruct (IH (acc ++ [{| _id := default (JStr "") (dict_get "id" d);
                              _title := default (JStr "Unknown Track") (dict_get "title" d);
                              _album := default (JStr "Unknown Artist") (dict_get "artist" d);
                              _artist := default (JStr "Unknown Album") (dict_get "album" d);
                              _duration := default (JNum 0) (dict_get "duration" d) |}]))
      as (songs & Hrun & Hall).
    eexists (_ :: songs). split.
    + rewrite Hrun, <- app_assoc. reflexivity.
    + constructor; [apply Song_init_dict | exact Hall].
Qed.

Lemma songs_of_response_records (result_key : string)
  (top envelope result : list (string * json))
  (records : list (list (string * json))) :
  dict_get "subsonic-response" top = Some (JObj envelope) ->
  dict_get result_key envelope = Some (JObj result) ->
  dict_get "song" result = Some (JArr (map JObj records)) ->
  one_to_one records (songs_of_response result_key (JObj top)).
Proof.
  intros Htop Henv Hres.
  rewrite (songs_of_response_items _ _ _ _ _ Htop Henv Hres).
  destruct (collect_songs_records records []) as (songs & Hrun & Hall).
  exists songs. split; [exact Hrun |]. split; [| exact Hall].
  symmetry. eapply Forall2_length. exact Hall.
Qed.

(** When the song list holds one JSON object per track, the three list
    operations return one Song per object, in the order of the list, each
    the Song its object alone would give. *)
Theorem list_operations_one_song_per_record (E : Env)
  (records : list (list (string * json))) (query : string)
  (artist_count artist_offset album_count album_offset song_count song_offset : Z)
  (size : option Z) (genre : option string) (from_year to_year : option Z)
  (music_folder_id : option string) (id : json) (count : Z) :
  (answers E "searchResult3" (map JObj records) ->
   one_to_one records
     (search E query artist_count artist_offset album_count album_offset
        song_count song_offset)) /\
  (answers E "randomSongs" (map JObj records) ->
   one_to_one records
     (get_random_songs E size genre from_year to_year music_folder_id)) /\
  (answers E "similarSongs2" (map JObj records) ->
   one_to_one records (get_similar_songs E id count)).
Proof.
  repeat split; intros Hans.
  - unfold search. cbn zeta.
    match goal with
    | |- context [requests_get_json E ?u ?p] =>
        destruct (Hans u p) as (top & envelope & result & -> & Htop & Henv & Hres)
    end.
    cbn [obind]. eapply songs_of_response_records; eassumption.
  - unfold get_random_songs. cbn zeta.
    match goal with
    | |- context [requests_get_json E ?u ?p] =>
        destruct (Hans u p) as (top & envelope & result & -> & Htop & Henv & Hres)
    end.
    cbn [obind]. eapply songs_of_response_records; eassumption.
  - unfold get_similar_songs. cbn zeta.
    match goal with
    | |- context [requests_get_json E ?u ?p] =>
        destruct (Hans u p) as (top & envelope & result & -> & Htop & Henv & Hres)
    end.
    cbn [obind]. eapply songs_of_response_records; eassumption.
Qed.

Lemma field_or_error (v : json) (k : string) (d : json) (e : exn) :
  field_or v k d = Raise e -> e = TypeError.
Proof.
  unfold field_or. destruct v; cbn; try (intros [= <-]; reflexivity).
  - destruct (str_contains k s); [intros [= <-]; reflexivity | discriminate].
  - destruct (existsb (is_str k) items); [intros [= <-]; reflexivity | discriminate].
  - destruct (dict_get k fields); discriminate.
Qed.

(** The only exception the constructor raises is TypeError. *)
Lemma Song_init_error (v : json) (e : exn) : Song_init v = Raise e -> e = TypeError.
Proof.
  unfold Song_init.
  repeat match goal with
         | |- obind (field_or ?v ?k ?d) _ = _ -> _ =>
             destruct (field_or v k d) eqn:?; cbn [obind];
             [| intros [= <-]; eapply field_or_error; eassumption]
         end.
  discriminate.
Qed.

Lemma Song_init_scalar (v : json) : scalar v = true -> Song_init v = Raise TypeError.
Proof. destruct v; try discriminate; reflexivity. Qed.

Lemma collect_songs_error (items : list json) :
  forall acc e, collect_songs items acc = Raise e -> e = TypeError.
Proof.
  induction items as [|item items IH]; intros acc e; cbn [collect_songs]; [discriminate |].
  destruct (Song_init item) eqn:Hs; cbn [obind].
  - apply IH.
  - intros [= <-]. eapply Song_init_error. exact Hs.
Qed.

Lemma collect_songs_scalar (items : list json) :
  forall acc, existsb scalar items = true -> collect_songs items acc = Raise TypeError.
Proof.
  induction items as [|item items IH]; intros acc; cbn [existsb collect_songs];
    [discriminate |].
  intros Hex. destruct (Song_init item) eqn:Hs; cbn [obind].
  - apply IH. destruct (scalar item) eqn:Hsc; [| exact Hex].
    rewrite (Song_init_scalar item Hsc) in Hs. discriminate.
  - f_equal. eapply Song_init_error. exact Hs.
Qed.

(** One item of the song list that is a number, a boolean or null makes
    the whole call fail with TypeError: the Songs built from the other
    items are not returned. *)
Theorem list_operations_fail_on_scalar_item (E : Env) (items : list json)
  (query : string)
  (artist_count artist_offset album_count album_offset song_count song_offset : Z)
  (size : option Z) (genre : option string) (from_year to_year : option Z)
  (music_folder_id : option string) (id : json) (count : Z) :
  existsb scalar items = true ->
  (answers E "searchResult3" items ->
   search E query artist_count artist_offset album_count album_offset
     song_count song_offset = Raise TypeError) /\
  (answers E "randomSongs" items ->
   get_random_songs E size genre from_year to_year music_folder_id = Raise TypeError) /\
  (answers E "similarSongs2" items ->
   get_similar_songs E id count = Raise TypeError).
Proof.
  intros Hsc. repeat split; intros Hans.
  - unfold search. cbn zeta.
    match goal with
    | |- context [requests_get_json E ?u ?p] =>
        destruct (Hans u p) as (top & envelope & result & -> & Htop & Henv & Hres)
    end.
    cbn [obind]. rewrite (songs_of_response_items _ _ _ _ _ Htop Henv Hres).
    apply collect_songs_scalar, Hsc.
  - unfold get_random_songs. cbn zeta.
    match goal with
    | |- context [requests_get_json E ?u ?p] =>
        destruct (Hans u p) as (top & envelope & result & -> & Htop & Henv & Hres)
    end.
    cbn [obind]. rewrite (songs_of_response_items _ _ _ _ _ Htop Henv Hres).
    apply collect_songs_scalar, Hsc.
  - unfold get_similar_songs. cbn zeta.
    match goal with
    | |- context [requests_get_json E ?u ?p] =>
        destruct (Hans u p) as (top & envelope & result & -> & Htop & Henv & Hres)
    end.
    cbn [obind]. rewrite (songs_of_response_items _ _ _ _ _ Htop Henv Hres).
    apply collect_songs_scalar, Hsc.
Qed.

Lemma getitem_error (v : json) (k : string) (e : exn) :
  getitem v k = Raise e -> e = TypeError \/ e = KeyError k.
Proof.
  destruct v; cbn; try (intros [= <-]; left; reflexivity).
  destruct (dict_get k fields); [discriminate | intros [= <-]; right; reflexivity].
Qed.

Lemma iter_error (v : json) (e : exn) : Py.iter v = Raise e -> e = TypeError.
Proof. destruct v; cbn; try discriminate; intros [= <-]; reflexivity. Qed.

(** Whatever the service answers, reading the answer fails in two ways
    only: a KeyError on one of the three keys of the path to the song
    list, or a TypeError. *)
Theorem songs_of_response_errors (result_key : string) (search_data : json) (e : exn) :
  songs_of_response result_key search_data = Raise e ->
  e = TypeError \/
  e = KeyError "subsonic-response" \/ e = KeyError result_key \/ e = KeyError "song".
Proof.
  unfold songs_of_response.
  destruct (getitem search_data "subsonic-response") as [envelope|e1] eqn:H1; cbn [obind].
  2: { intros [= <-]. destruct (getitem_error _ _ _ H1) as [-> | ->]; auto. }
  destruct (getitem envelope result_key) as [result|e2] eqn:H2; cbn [obind].
  2: { intros [= <-]. destruct (getitem_error _ _ _ H2) as [-> | ->]; auto. }
  destruct (getitem result "song") as [song|e3] eqn:H3; cbn [obind].
  2: { intros [= <-]. destruct (getitem_error _ _ _ H3) as [-> | ->]; auto. }
  destruct (Py.iter song) as [items|e4] eqn:H4; cbn [obind].
  2: { intros [= <-]. left. eapply iter_error. exact H4. }
  intros Hc. left. eapply collect_songs_error. exact Hc.
Qed.

(** The request of [get_random_songs]: the five shared parameters come
    first and keep their values, and each optional filter is in the request
    exactly when it was given, with the value given. *)
Theorem random_songs_request_parameters (E : Env)
  (size : option Z) (genre : option string) (from_year to_year : option Z)
  (music_folder_id : option string) :
  let request := random_songs_request E size genre from_year to_year music_folder_id in
  let params := snd request in
  get_random_songs E size genre from_year to_year music_folder_id
    = obind (requests_get_json E (fst request) params) (songs_of_response "randomSongs") /\
  map fst params
    = ["u"; "p"; "v"; "c"; "f"]
      ++ (if size is Some _ then ["size"] else [])
      ++ (if genre is Some _ then ["genre"] else [])
      ++ (if from_year is Some _ then ["fromYear"] else [])
      ++ (if to_year is Some _ then ["toYear"] else [])
      ++ (if music_folder_id is Some _ then ["musicFolderId"] else []) /\
  dict_get "u" params = Some (json_of_env (SUB_USER E)) /\
  dict_get "p" params = Some (json_of_env (SUB_PASSWORD E)) /\
  dict_get "f" params = Some (JStr "json") /\
  dict_get "size" params = JNum <$> size /\
  dict_get "genre" params = JStr <$> genre /\
  dict_get "fromYear" params = JNum <$> from_year /\
  dict_get "toYear" params = JNum <$> to_year /\
  dict_get "musicFolderId" params = JStr <$> music_folder_id.
Proof.
  cbn zeta. split; [reflexivity |].
  destruct size, genre, from_year, to_year, music_folder_id; repeat split.
Qed.

End CatalogFacts.

(** ** More on the commands *)

Module CommandFacts.
Import SenderFacts DispatchFacts StoreFacts MusicFacts PlayFacts MusicCog TextFacts.

Lemma find_none_app {A} (f : A -> bool) (l : list A) (x : A) :
  find f l = None -> find f (l ++ [x]) = if f x then Some x else None.
Proof.
  induction l as [|y l IH]; cbn; [reflexivity |].
  destruct (f y); [discriminate | exact IH].
Qed.

Lemma find_ext_in {A} (f g : A -> bool) (l : list A) :
  Forall (fun x => f x = g x) l -> find f l = find g l.
Proof.
  induction 1 as [|x l Hx _ IH]; cbn; [reflexivity |]. rewrite Hx, IH. reflexivity.
Qed.

(** With no voice client for the guild yet, [get_voice_client] connects to
    the caller's channel once: a new idle client of the guild, with the bot
    added to the channel's members, is registered after the existing ones,
    which are left as they were; the next call finds the new client and
    does not connect again. *)
Theorem connect_registers_one_client (H : Host) (i : Interaction) (w : World)
  (members : list Z) :
  well_formed_voice w ->
  Voice.utils_get w (guild i) = None ->
  user_voice i = Some {| channel := Some members |} ->
  connect_succeeds H = true ->
  let run := get_voice_client H i true w in
  let vc := length (voice_heap w) in
  fst run = Ok (Some vc) /\
  new_events w (snd run) = [VoiceConnect vc] /\
  voice_clients (snd run) = voice_clients w ++ [vc] /\
  Voice.vc_at (snd run) vc
    = {| vc_guild := guild_id i; vc_members := members ++ [bot_user H];
         vc_playing := false |} /\
  (forall r, (r < vc)%nat -> Voice.vc_at (snd run) r = Voice.vc_at w r) /\
  well_formed_voice (snd run) /\
  (guild i = Some (guild_id i) ->
   forall b, get_voice_client H i b (snd run) = (Ok (Some vc), snd run)).
Proof.
  intros Hwf Hnone Huv Hconn. cbn zeta.
  set (client := {| vc_guild := guild_id i; vc_members := members ++ [bot_user H];
                    vc_playing := false |}).
  set (w1 := with_trace (fun t => t ++ [VoiceConnect (length (voice_heap w))])
               (with_voice (voice_heap w ++ [client])
                  (voice_clients w ++ [length (voice_heap w)]) w)).
  assert (Hrun : get_voice_client H i true w = (Ok (Some (length (voice_heap w))), w1)).
  { unfold get_voice_client, Discord.bind at 1, Discord.get. cbn beta iota.
    rewrite Hnone, Huv. unfold Voice.connect. rewrite Hconn. reflexivity. }
  rewrite Hrun. cbn [fst snd].
  assert (Hheap : voice_heap w1 = voice_heap w ++ [client]) by reflexivity.
  assert (Hclients : voice_clients w1 = voice_clients w ++ [length (voice_heap w)])
    by reflexivity.
  assert (Hnew : Voice.vc_at w1 (length (voice_heap w)) = client).
  { unfold Voice.vc_at. rewrite Hheap, app_nth2 by lia.
    rewrite Nat.sub_diag. reflexivity. }
  assert (Hold : forall r, (r < length (voice_heap w))%nat ->
                           Voice.vc_at w1 r = Voice.vc_at w r).
  { intros r Hr. unfold Voice.vc_at. rewrite Hheap. apply app_nth1. exact Hr. }
  split; [reflexivity |].
  split; [apply new_events_app; reflexivity |].
  split; [exact Hclients |].
  split; [exact Hnew |].
  split; [exact Hold |].
  split.
  { unfold well_formed_voice. rewrite Hclients, Hheap, length_app. cbn [length].
    apply Forall_app. split.
    - eapply Forall_impl; [exact Hwf |]. cbn. intros r Hr. lia.
    - constructor; [lia | constructor]. }
  intros Hguild b. apply get_voice_client_found.
  rewrite Hguild in *. unfold Voice.utils_get in *. rewrite Hclients.
  rewrite find_none_app.
  - rewrite Hnew. cbn [vc_guild client]. rewrite Z.eqb_refl. reflexivity.
  - rewrite (find_ext_in _ (fun r => vc_guild (Voice.vc_at w r) =? guild_id i));
      [exact Hnone |].
    eapply Forall_impl; [exact Hwf |]. intros r Hr. cbn beta.
    rewrite (Hold r Hr). reflexivity.
Qed.

Lemma get_voice_client_absent (H : Host) (i : Interaction) (w : World) :
  Voice.utils_get w (guild i) = None ->
  get_voice_client H i false w = (Ok None, w).
Proof.
  intros Hnone. unfold get_voice_client, Discord.bind at 1, Discord.get. cbn beta iota.
  rewrite Hnone. reflexivity.
Qed.

(** When there is no client and none can be obtained: without the request
    to connect the answer is [None] and nothing happens; a caller without a
    voice channel gets the report "Cannot connect to voice channel." and
    [None]: issued in a guild, at least one delivery attempt is made and
    every attempt carries the error embed with that text (outside a guild
    only a warning is logged); a failed handshake is not caught.  In no
    case is a client registered. *)
Theorem no_client_without_connection (H : Host) (i : Interaction) (w : World) :
  Voice.utils_get w (guild i) = None ->
  get_voice_client H i false w = (Ok None, w) /\
  ((user_voice i = None \/ user_voice i = Some {| channel := None |}) ->
   let run := get_voice_client H i true w in
   fst run = Ok None /\
   snd run = snd (ErrMsg.msg (Some i) "Cannot connect to voice channel." w) /\
   (guild i <> None ->
    reported w (Ok tt, snd run) "Cannot connect to voice channel.") /\
   (guild i = None -> silent w (Ok tt, snd run)) /\
   voice_clients (snd run) = voice_clients w /\
   voice_heap (snd run) = voice_heap w) /\
  (forall members,
     user_voice i = Some {| channel := Some members |} ->
     connect_succeeds H = false ->
     get_voice_client H i true w = (Raise ClientException, w)).
Proof.
  intros Hnone.
  split; [| split].
  - apply get_voice_client_absent, Hnone.
  - intros Huv. cbn zeta.
    assert (Hrun :
      get_voice_client H i true w
      = (Ok None, snd (ErrMsg.msg (Some i) "Cannot connect to voice channel." w))).
    { unfold get_voice_client, Discord.bind at 1, Discord.get. cbn beta iota.
      rewrite Hnone.
      assert (Hshape :
        (exec ErrMsg.cannot_connect_to_voice_channel (Some i); ret None) w
        = (Ok (@None nat), snd (ErrMsg.msg (Some i) "Cannot connect to voice channel." w))).
      { unfold Discord.bind, ErrMsg.cannot_connect_to_voice_channel.
        destruct (ErrMsg_msg_run (Some i) "Cannot connect to voice channel." w)
          as (new & done & script & -> & _). reflexivity. }
      destruct Huv as [-> | ->]; exact Hshape. }
    rewrite Hrun. cbn [fst snd].
    split; [reflexivity |]. split; [reflexivity |].
    split.
    { intros Hg.
      destruct (ErrMsg_msg_reported i "Cannot connect to voice channel." w w Hg
                  (unsent_refl w)) as (_ & Hsome & Hall & Hresults).
      split; [reflexivity |]. split; [exact Hsome |]. split; [exact Hall | exact Hresults]. }
    split.
    { intros Hg. exact (ErrMsg_msg_silent i "Cannot connect to voice channel." w w Hg
                          (unsent_refl w)). }
    destruct (ErrMsg_msg_run (Some i) "Cannot connect to voice channel." w)
      as (new & done & script & -> & _). split; reflexivity.
  - intros members Huv Hconn.
    unfold get_voice_client, Discord.bind at 1, Discord.get. cbn beta iota.
    rewrite Hnone, Huv. unfold Voice.connect. rewrite Hconn. reflexivity.
Qed.

Lemma get_voice_client_players (H : Host) (i : Interaction) (b : bool) (w : World)
  (r : outcome (option nat)) (w1 : World) :
  get_voice_client H i b w = (r, w1) -> quiet_step H w w1.
Proof.
  intros G. pose proof (get_voice_client_quiet H i b w) as Hq.
  rewrite G in Hq. exact Hq.
Qed.

Lemma refused_intro (H : Host) (i : Interaction) (w w0 : World) (text : string) :
  quiet_step H w w0 -> unsent w w0 ->
  refused H i w (ErrMsg.msg (Some i) text w0) text w0.
Proof.
  intros Hq Hu. destruct (ErrMsg_msg_quiet H (Some i) text w0) as [Hok Hstep].
  split; [reflexivity |]. split; [exact Hok |].
  split; [eapply quiet_step_trans; eassumption |].
  split; intros Hg.
  - apply ErrMsg_msg_reported; assumption.
  - apply ErrMsg_msg_silent; assumption.
Qed.

(** The three refusals of [play].  A caller outside every voice channel is
    told so before anything else: no connection is attempted.  A query
    without a query type is refused once the voice client is there, before
    the catalog is asked.  Without a query, a bot that is already streaming
    answers "Already playing.".  In each of them the text is on the trace:
    issued in a guild, the command makes at least one delivery attempt and
    every attempt carries the error embed with that text; outside a guild
    nothing is sent.  The engine is not reached in any of them. *)
Theorem play_refusals (H : Host) (P : Engine) (i : Interaction)
  (querytype query : option string) (w : World) :
  (user_voice i = None ->
   refused H i w (play H P i querytype query w)
     "You are not connected to a voice channel." w /\
   voice_clients (snd (play H P i querytype query w)) = voice_clients w) /\
  (forall text vs vc w1,
     user_voice i = Some vs ->
     get_voice_client H i true w = (Ok (Some vc), w1) ->
     refused H i w (play H P i None (Some text) w)
       "Please provide a query type." (entered (guild_id i) w1)) /\
  (forall vs vc,
     user_voice i = Some vs ->
     Voice.utils_get w (guild i) = Some vc ->
     vc_playing (Voice.vc_at w vc) = true ->
     refused H i w (play H P i querytype None w) "Already playing." w).
Proof.
  split; [| split].
  - intros Huv.
    assert (Hrun : play H P i querytype query w
                   = ErrMsg.msg (Some i) "You are not connected to a voice channel." w).
    { unfold play. rewrite Huv. reflexivity. }
    rewrite Hrun. split; [apply refused_intro; [apply quiet_step_refl | apply unsent_refl] |].
    destruct (ErrMsg_msg_run (Some i) "You are not connected to a voice channel." w)
      as (new & done & script & -> & _). reflexivity.
  - intros text vs vc w1 Huv G.
    rewrite (play_query_reached H P i None text vs vc w w1 Huv G).
    apply refused_intro.
    + eapply quiet_step_trans;
        [eapply get_voice_client_players; exact G | apply quiet_step_entered].
    + eapply unsent_trans;
        [eapply get_voice_client_some; exact G | apply unsent_entered].
  - intros vs vc Huv Hget Hplaying.
    assert (Hrun : play H P i querytype None w = ErrMsg.msg (Some i) "Already playing." w).
    { unfold play. cbn zeta. rewrite Huv.
      rewrite (bind_ok _ _ _ _ _ (get_voice_client_found H i true w vc Hget)). cbn iota.
      erewrite bind_ok by (unfold Voice.is_playing; rewrite Hplaying; reflexivity).
      reflexivity. }
    rewrite Hrun. apply refused_intro; [apply quiet_step_refl | apply unsent_refl].
Qed.

Lemma with_track_player (H : Host) (i : Interaction) (b : bool) (song : Song)
  (w w1 : World) (r : outcome (option nat)) :
  get_voice_client H i b w = (r, w1) ->
  player_of (with_track (guild_id i) song w1) (guild_id i)
    = {| queue := queue (player_of w (guild_id i)) ++ [Some song];
         current_song := current_song (player_of w (guild_id i)) |} /\
  (forall g, g <> guild_id i ->
     player_of (with_track (guild_id i) song w1) g = player_of w g).
Proof.
  intros G. destruct (get_voice_client_players H i b w r w1 G) as [[Hp _] _].
  unfold with_track. rewrite update_player_run. cbn [snd].
  split.
  - rewrite player_of_with_players, decide_True by reflexivity.
    rewrite player_of_entered, Hp. reflexivity.
  - intros g Hg. rewrite player_of_with_players, decide_False by congruence.
    rewrite player_of_entered. apply Hp.
Qed.

Lemma play_track_enqueues_first_result_aux (H : Host) (P : Engine) (i : Interaction)
  (query : string) (song : Song) (others : list Song) (vc : nat) (w w1 : World) :
  user_voice i <> None ->
  get_voice_client H i true w = (Ok (Some vc), w1) ->
  search H query 0 0 0 0 1 0 = Ok (song :: others) ->
  let gid := guild_id i in
  let enqueued := with_track gid song w1 in
  player_of enqueued gid
    = {| queue := queue (player_of w gid) ++ [Some song];
         current_song := current_song (player_of w gid) |} /\
  (forall g, g <> gid -> player_of enqueued g = player_of w g) /\
  play H P i (Some "track") (Some query) w
    = (exec SysMsg.added_to_queue H (Some i) song; play_audio_queue P i vc) enqueued.
Proof.
  intros Huv G Hsearch. cbn zeta.
  destruct (with_track_player H i true song w w1 _ G) as [Hp Hother].
  split; [exact Hp |]. split; [exact Hother |].
  destruct (user_voice i) as [vs|] eqn:Hvs; [| congruence].
  rewrite (play_query_reached H P i (Some "track") query vs vc w w1 Hvs G).
  cbn [String.eqb Ascii.eqb Bool.eqb].
  unfold lift at 1. rewrite Hsearch.
  erewrite bind_ok by reflexivity. cbn iota.
  erewrite bind_ok by (rewrite update_player_run; reflexivity).
  unfold with_track. rewrite update_player_run. reflexivity.
Qed.

(** The notice for an added track cannot be built: after the description,
    [song.cover_id] is read, an attribute the class does not define. *)
Lemma added_to_queue_raises (H : Host) (interaction : option Interaction) (song : Song)
  (w : World) :
  exists e,
    SysMsg.added_to_queue H interaction song w = (Raise e, w) /\
    (forall text, duration_printable song = Ok text -> e = AttributeError).
Proof.
  unfold SysMsg.added_to_queue, SysMsg.song_desc.
  destruct (duration_printable song) as [text|e].
  - exists AttributeError. split; [reflexivity | reflexivity].
  - exists e. split; [reflexivity | intros text [=]].
Qed.

Lemma unsent_with_track (gid : Z) (song : Song) (w : World) :
  unsent w (with_track gid song w).
Proof.
  unfold with_track. rewrite update_player_run. cbn [snd].
  eapply unsent_trans; [apply (unsent_entered gid) |].
  apply (unsent_step _ _ []); [reflexivity | | reflexivity].
  cbn [trace with_players]. rewrite app_nil_r. reflexivity.
Qed.

(** A track query that finds something: the first result, and only the
    first, goes to the end of the guild's queue; the other guilds and
    [current_song] are left alone.  Then the command fails, whatever the
    engine: building the notice reads [song.cover_id], which the class does
    not define, so AttributeError is raised, nothing is sent to the caller
    and the engine is not reached; the track stays in the queue. *)
Theorem play_track_enqueues_first_result (H : Host) (P : Engine) (i : Interaction)
  (query : string) (song : Song) (others : list Song) (vc : nat) (w w1 : World) :
  user_voice i <> None ->
  get_voice_client H i true w = (Ok (Some vc), w1) ->
  search H query 0 0 0 0 1 0 = Ok (song :: others) ->
  let gid := guild_id i in
  let enqueued := with_track gid song w1 in
  let run := play H P i (Some "track") (Some query) w in
  player_of enqueued gid
    = {| queue := queue (player_of w gid) ++ [Some song];
         current_song := current_song (player_of w gid) |} /\
  (forall g, g <> gid -> player_of enqueued g = player_of w g) /\
  (exists e,
     run = (Raise e, enqueued) /\
     (forall text, duration_printable song = Ok text -> e = AttributeError)) /\
  silent w run /\
  (forall P', play H P' i (Some "track") (Some query) w = run).
Proof.
  intros Huv G Hsearch. cbn zeta.
  destruct (play_track_enqueues_first_result_aux H P i query song others vc w w1
              Huv G Hsearch) as (Hp & Hothers & Hrun).
  destruct (added_to_queue_raises H (Some i) song (with_track (guild_id i) song w1))
    as (e & He & Hattr).
  assert (Hfails : forall P0, play H P0 i (Some "track") (Some query) w
                              = (Raise e, with_track (guild_id i) song w1)).
  { intros P0.
    destruct (play_track_enqueues_first_result_aux H P0 i query song others vc w w1
                Huv G Hsearch) as (_ & _ & Hrun0).
    rewrite Hrun0. apply (bind_raise _ _ _ _ _ He). }
  split; [exact Hp |]. split; [exact Hothers |].
  split; [exists e; split; [apply Hfails | exact Hattr] |].
  rewrite (Hfails P). split.
  - unfold silent. cbn [snd]. apply unsent_silent.
    eapply unsent_trans; [eapply get_voice_client_some; exact G | apply unsent_with_track].
  - exact Hfails.
Qed.

(** The track is appended before its notice is rendered: when the found
    track has a duration that cannot be printed, the command raises the
    rendering error with the track already in the queue, sends nothing and
    does not reach the engine. *)
Theorem play_track_unprintable_duration (H : Host) (P : Engine) (i : Interaction)
  (query : string) (song : Song) (others : list Song) (vc : nat) (w w1 : World)
  (e : exn) :
  user_voice i <> None ->
  get_voice_client H i true w = (Ok (Some vc), w1) ->
  search H query 0 0 0 0 1 0 = Ok (song :: others) ->
  duration_printable song = Raise e ->
  let run := play H P i (Some "track") (Some query) w in
  run = (Raise e, with_track (guild_id i) song w1) /\
  queue (player_of (snd run) (guild_id i))
    = queue (player_of w (guild_id i)) ++ [Some song] /\
  new_events w1 (snd run) = [].
Proof.
  intros Huv G Hsearch Hdur. cbn zeta.
  destruct (play_track_enqueues_first_result_aux H P i query song others vc w w1 Huv G Hsearch)
    as (Hp & _ & Hrun).
  rewrite Hrun.
  assert (Hnotice : SysMsg.added_to_queue H (Some i) song (with_track (guild_id i) song w1)
                    = (Raise e, with_track (guild_id i) song w1)).
  { unfold SysMsg.added_to_queue, SysMsg.song_desc. rewrite Hdur. reflexivity. }
  rewrite (bind_raise _ _ _ _ _ Hnotice). cbn [snd].
  split; [reflexivity |]. split; [rewrite Hp; reflexivity |].
  apply new_events_app. unfold with_track. rewrite update_player_run. cbn [snd].
  unfold entered. rewrite guild_data_run. cbn. rewrite app_nil_r. reflexivity.
Qed.

(** A query type that is neither "track" nor "album" enqueues nothing and
    asks the catalog nothing: the command goes straight to the engine. *)
Theorem play_other_querytype (H : Host) (P : Engine) (i : Interaction)
  (querytype query : string) (vc : nat) (w w1 : World) :
  user_voice i <> None ->
  get_voice_client H i true w = (Ok (Some vc), w1) ->
  querytype <> "track" -> querytype <> "album" ->
  play H P i (Some querytype) (Some query) w
    = play_audio_queue P i vc (entered (guild_id i) w1) /\
  (forall g, player_of (entered (guild_id i) w1) g = player_of w g).
Proof.
  intros Huv G Htrack Halbum.
  destruct (user_voice i) as [vs|] eqn:Hvs; [| congruence].
  rewrite (play_query_reached H P i (Some querytype) query vs vc w w1 Hvs G).
  apply String.eqb_neq in Htrack, Halbum. rewrite Htrack, Halbum.
  split; [reflexivity |].
  intros g. rewrite player_of_entered.
  destruct (get_voice_client_players H i true w _ w1 G) as [[Hp _] _]. apply Hp.
Qed.

(** The voice clients read the same in two worlds with the same heap and
    the same list of clients. *)
Lemma utils_get_same_voice (w w1 : World) (g : option Z) :
  voice_heap w1 = voice_heap w -> voice_clients w1 = voice_clients w ->
  Voice.utils_get w1 g = Voice.utils_get w g.
Proof.
  intros Hh Hc. unfold Voice.utils_get, Voice.vc_at. rewrite Hh, Hc. reflexivity.
Qed.

Lemma vc_at_same_voice (w w1 : World) (vc : nat) :
  voice_heap w1 = voice_heap w -> Voice.vc_at w1 vc = Voice.vc_at w vc.
Proof. intros Hh. unfold Voice.vc_at. rewrite Hh. reflexivity. Qed.

(** [clear] empties the guild's queue and nothing else: the track in
    [current_song] stays, the voice clients are not touched (a running
    stream is not stopped), the other guilds and the autoplay modes are as
    before, and the only new events are those of the notice. *)
Theorem clear_queue_empties_queue_only (H : Host) (i : Interaction) (w : World) :
  let gid := guild_id i in
  let run := clear_queue H i w in
  fst run = Ok tt /\
  player_of (snd run) gid
    = {| queue := []; current_song := current_song (player_of w gid) |} /\
  (forall g, g <> gid -> player_of (snd run) g = player_of w g) /\
  (forall g, autoplay_of H (snd run) g = autoplay_of H w g) /\
  voice_heap (snd run) = voice_heap w /\
  voice_clients (snd run) = voice_clients w /\
  forallb sender_event (new_events w (snd run)) = true.
Proof.
  cbn zeta. unfold clear_queue.
  rewrite (bind_ok _ _ _ _ _ (guild_data_run (guild_id i) w)).
  erewrite bind_ok by (rewrite update_player_run; reflexivity).
  unfold SysMsg.queue_cleared, SysMsg.user_display_name.
  erewrite bind_ok by reflexivity.
  match goal with
  | |- context [SysMsg.msg H ?a ?b ?c ?d ?e ?x] =>
      destruct (SysMsg_msg_run H a b c d e x) as (new & done & script & -> & Hk & _)
  end.
  cbn [fst snd].
  split; [reflexivity |].
  split.
  { unfold after_messages, player_of, with_players; cbn [guild_players].
    rewrite !lookup_insert_eq. reflexivity. }
  split.
  { intros g Hg. unfold after_messages, player_of, with_players; cbn [guild_players].
    rewrite !lookup_insert_ne by congruence. reflexivity. }
  split; [reflexivity |].
  split; [reflexivity |].
  split; [reflexivity |].
  erewrite new_events_app; [exact Hk | reflexivity].
Qed.

(** [skip] asks the engine only when the bot's voice client exists and is
    streaming.  Without a client it reports "Not currently connected to a
    voice channel."; with an idle client it reports "No track is playing.".
    Either way it returns normally with every guild's state as it was, and
    the report is on the trace: issued in a guild, at least one delivery
    attempt is made and every attempt carries the error embed with that
    text; outside a guild (where no client can be found) nothing is sent. *)
Theorem skip_needs_streaming_client (H : Host) (P : Engine) (i : Interaction)
  (w : World) :
  (Voice.utils_get w (guild i) = None ->
   refused H i w (skip H P i w) "Not currently connected to a voice channel." w) /\
  (forall vc,
     Voice.utils_get w (guild i) = Some vc ->
     vc_playing (Voice.vc_at w vc) = false ->
     refused H i w (skip H P i w) "No track is playing." w).
Proof.
  split.
  - intros Hnone.
    assert (Hrun : skip H P i w
                   = ErrMsg.msg (Some i) "Not currently connected to a voice channel." w).
    { unfold skip. rewrite (bind_ok _ _ _ _ _ (get_voice_client_absent H i w Hnone)).
      reflexivity. }
    rewrite Hrun. apply refused_intro; [apply quiet_step_refl | apply unsent_refl].
  - intros vc Hget Hidle.
    assert (Hrun : skip H P i w = ErrMsg.msg (Some i) "No track is playing." w).
    { unfold skip. rewrite (bind_ok _ _ _ _ _ (get_voice_client_found H i false w vc Hget)).
      cbn iota.
      erewrite bind_ok by (unfold Voice.is_playing; rewrite Hidle; reflexivity).
      reflexivity. }
    rewrite Hrun. apply refused_intro; [apply quiet_step_refl | apply unsent_refl].
Qed.

(** [stop] without a voice client of the guild: the guild's entry is
    looked up, the report is "Not currently connected to a voice channel.",
    nothing is stopped and the queue is not touched.  The report is on the
    trace: issued in a guild, at least one delivery attempt is made and
    every attempt carries the error embed with that text; outside a guild
    nothing is sent. *)
Theorem stop_without_connection (H : Host) (i : Interaction) (w : World) :
  Voice.utils_get w (guild i) = None ->
  let run := stop H i w in
  refused H i w run "Not currently connected to a voice channel."
    (entered (guild_id i) w) /\
  voice_heap (snd run) = voice_heap w /\
  forallb sender_event (new_events w (snd run)) = true.
Proof.
  intros Hnone. cbn zeta.
  assert (Hrun : stop H i w
                 = ErrMsg.msg (Some i) "Not currently connected to a voice channel."
                     (entered (guild_id i) w)).
  { unfold stop. rewrite (bind_ok _ _ _ _ _ (guild_data_run (guild_id i) w)).
    cbn zeta.
    assert (Hnone' : Voice.utils_get (with_players (insert (guild_id i)
                        (player_of w (guild_id i))) w) (guild i) = None).
    { rewrite <- Hnone. apply utils_get_same_voice; reflexivity. }
    rewrite (bind_ok _ _ _ _ _ (get_voice_client_absent H i _ Hnone')).
    unfold entered. rewrite guild_data_run. reflexivity. }
  rewrite Hrun.
  split; [apply refused_intro; [apply quiet_step_entered | apply unsent_entered] |].
  destruct (ErrMsg_msg_run (Some i) "Not currently connected to a voice channel."
              (entered (guild_id i) w)) as (new & done & script & -> & Hk & _).
  cbn [snd]. unfold entered. rewrite guild_data_run. cbn [snd].
  split; [reflexivity |].
  erewrite new_events_app; [exact Hk | reflexivity].
Qed.

(** [autoplay] sets the guild's mode from the value of the choice (any
    other value leaves it), for this guild only and without touching the
    playback state or the voice clients, and sends its notice: issued in a
    guild, at least one delivery attempt is made and every attempt carries
    "Autoplay disabled by <caller>", or "Autoplay enabled by <caller>" with
    the name of the mode (outside a guild nothing is sent).  Then, when the
    bot's voice client exists and is idle, it asks the engine to start
    playback, whatever the mode just chosen, "none" included. *)
Theorem autoplay_sets_mode_then_starts_idle_client (H : Host) (P : Engine)
  (i : Interaction) (mode_name mode_value : string) (w : World) :
  let gid := guild_id i in
  exists w1,
    autoplay_of H w1 gid = chosen_mode mode_value (autoplay_of H w gid) /\
    (forall g, g <> gid -> autoplay_of H w1 g = autoplay_of H w g) /\
    (forall g, player_of w1 g = player_of w g) /\
    voice_heap w1 = voice_heap w /\
    voice_clients w1 = voice_clients w /\
    forallb sender_event (new_events w w1) = true /\
    (guild i <> None ->
     notified w (Ok tt, w1) (autoplay_header i mode_value)
       (autoplay_message mode_name mode_value) false) /\
    (guild i = None -> silent w (Ok tt, w1)) /\
    autoplay H P i mode_name mode_value w
    = match Voice.utils_get w (guild i) with
      | Some vc =>
          if vc_playing (Voice.vc_at w vc) then (Ok tt, w1)
          else play_audio_queue P i vc (entered gid w1)
      | None => (Ok tt, w1)
      end.
Proof.
  cbn zeta.
  set (setting :=
    if String.eqb mode_value "none" then
      exec guild_properties H (guild_id i); set_autoplay_mode (guild_id i) NONE
    else if String.eqb mode_value "random" then
      exec guild_properties H (guild_id i); set_autoplay_mode (guild_id i) RANDOM
    else if String.eqb mode_value "similar" then
      exec guild_properties H (guild_id i); set_autoplay_mode (guild_id i) SIMILAR
    else ret tt).
  assert (Hset : exists wa,
    setting w = (Ok tt, wa) /\
    autoplay_of H wa (guild_id i) = chosen_mode mode_value (autoplay_of H w (guild_id i)) /\
    (forall g, g <> guild_id i -> autoplay_of H wa g = autoplay_of H w g) /\
    (forall g, player_of wa g = player_of w g) /\
    voice_heap wa = voice_heap w /\ voice_clients wa = voice_clients w /\
    trace wa = trace w /\ deliveries wa = deliveries w).
  { assert (Hcase : forall m,
      (exec guild_properties H (guild_id i); set_autoplay_mode (guild_id i) m) w
      = (Ok tt, with_autoplay (insert (guild_id i) m)
                  (with_autoplay (insert (guild_id i) (autoplay_of H w (guild_id i))) w))).
    { intros m. rewrite (bind_ok _ _ _ _ _ (guild_properties_run H (guild_id i) w)).
      reflexivity. }
    assert (Hstate : forall m,
      let wa := with_autoplay (insert (guild_id i) m)
                  (with_autoplay (insert (guild_id i) (autoplay_of H w (guild_id i))) w) in
      autoplay_of H wa (guild_id i) = m /\
      (forall g, g <> guild_id i -> autoplay_of H wa g = autoplay_of H w g) /\
      (forall g, player_of wa g = player_of w g) /\
      voice_heap wa = voice_heap w /\ voice_clients wa = voice_clients w /\
      trace wa = trace w /\ deliveries wa = deliveries w).
    { intros m. cbn zeta. split; [| split; [| repeat split]].
      - rewrite autoplay_of_with_autoplay, decide_True by reflexivity. reflexivity.
      - intros g Hg. rewrite !autoplay_of_with_autoplay, !decide_False by congruence.
        reflexivity. }
    unfold setting, chosen_mode.
    destruct (String.eqb mode_value "none");
      [eexists; split; [apply Hcase | apply Hstate] |].
    destruct (String.eqb mode_value "random");
      [eexists; split; [apply Hcase | apply Hstate] |].
    destruct (String.eqb mode_value "similar");
      [eexists; split; [apply Hcase | apply Hstate] |].
    exists w. repeat split. }
  destruct Hset as (wa & Hrun & Hmode & Hothers & Hplayers & Hheap & Hclients & Htrace
                    & Hscript).
  set (notice :=
    if String.eqb mode_value "none" then
      SysMsg.msg H (Some i) ("Autoplay disabled by " ++ display_name i)%string None None false
    else
      SysMsg.msg H (Some i) ("Autoplay enabled by " ++ display_name i)%string
        (Some ("Autoplay mode: **" ++ mode_name ++ "**")%string) None false).
  assert (Hnotice : exists new done script,
    notice wa = (Ok tt, after_messages wa done script (trace wa ++ new)) /\
    forallb sender_event new = true).
  { unfold notice. destruct (String.eqb mode_value "none").
    - destruct (SysMsg_msg_run H (Some i) ("Autoplay disabled by " ++ display_name i)%string
                  None None false wa) as (new & done & script & E & Hk & _).
      exists new, done, script. split; assumption.
    - destruct (SysMsg_msg_run H (Some i) ("Autoplay enabled by " ++ display_name i)%string
                  (Some ("Autoplay mode: **" ++ mode_name ++ "**")%string) None false wa)
        as (new & done & script & E & Hk & _).
      exists new, done, script. split; assumption. }
  destruct Hnotice as (new & done & script & Hsent & Hk).
  assert (Hnoticed : notice = SysMsg.msg H (Some i) (autoplay_header i mode_value)
                             (autoplay_message mode_name mode_value) None false).
  { unfold notice, autoplay_header, autoplay_message.
    destruct (String.eqb mode_value "none"); reflexivity. }
  assert (Hunsent : unsent w wa).
  { apply (unsent_step _ _ []); [exact Hscript | | reflexivity].
    rewrite Htrace, app_nil_r. reflexivity. }
  exists (after_messages wa done script (trace wa ++ new)).
  split; [exact Hmode |].
  split; [exact Hothers |].
  split; [exact Hplayers |].
  split; [exact Hheap |].
  split; [exact Hclients |].
  split.
  { erewrite new_events_app; [exact Hk |]. cbn [trace after_messages].
    rewrite Htrace. reflexivity. }
  split.
  { intros Hg. rewrite <- Hsent, Hnoticed. apply SysMsg_msg_notified; assumption. }
  split.
  { intros Hg. rewrite <- Hsent, Hnoticed. apply SysMsg_msg_silent; assumption. }
  unfold autoplay. cbn zeta. fold setting. fold notice.
  rewrite (bind_ok _ _ _ _ _ Hrun).
  rewrite (bind_ok _ _ _ _ _ Hsent).
  set (w1 := after_messages wa done script (trace wa ++ new)).
  assert (Hget : Voice.utils_get w1 (guild i) = Voice.utils_get w (guild i)).
  { apply utils_get_same_voice; [exact Hheap | exact Hclients]. }
  destruct (Voice.utils_get w (guild i)) as [vc|] eqn:Hvc.
  - rewrite (bind_ok _ _ _ _ _ (get_voice_client_found H i false w1 vc Hget)).
    cbn iota.
    assert (Hsame : Voice.vc_at w1 vc = Voice.vc_at w vc)
      by (apply vc_at_same_voice; exact Hheap).
    erewrite bind_ok by (unfold Voice.is_playing; rewrite Hsame; reflexivity).
    destruct (vc_playing (Voice.vc_at w vc)); cbn [negb]; [reflexivity |].
    rewrite (bind_ok _ _ _ _ _ (guild_data_run (guild_id i) w1)).
    unfold entered. rewrite guild_data_run. reflexivity.
  - rewrite (bind_ok _ _ _ _ _ (get_voice_client_absent H i w1 Hget)). reflexivity.
Qed.

Lemma guild_data_entered (gid : Z) (w : World) :
  guild_data gid (entered gid w) = (Ok (player_of w gid), entered gid w).
Proof.
  rewrite guild_data_run, player_of_entered. f_equal.
  unfold entered. rewrite guild_data_run. cbn [snd].
  unfold with_players; cbn [guild_players guild_autoplay voice_heap voice_clients
                            response_done deliveries trace].
  rewrite insert_insert_eq. reflexivity.
Qed.

(** [show_queue] in two steps: the text is built from the guild's playback
    state, a heading for the current track followed by the numbered
    entries, and then sent; a failure while building it ends the command
    before anything is sent. *)
Lemma show_queue_run (H : Host) (i : Interaction) (w : World) :
  let p := player_of w (guild_id i) in
  exists heading : outcome string,
    (current_song p = None -> heading = Ok "") /\
    (forall output, heading = Ok output -> current_song p <> None -> output <> "") /\
    show_queue H i w
    = match obind heading (queue_entries H 0 (queue p)) with
      | Ok output =>
          SysMsg.msg H (Some i) "Queue"
            (Some (if String.eqb output "" then "Queue is empty!" else output))
            None false (entered (guild_id i) w)
      | Raise e => (Raise e, entered (guild_id i) w)
      end.
Proof.
  cbn zeta.
  assert (E : with_players (insert (guild_id i) (player_of w (guild_id i))) w
              = entered (guild_id i) w)
    by (unfold entered; rewrite guild_data_run; reflexivity).
  assert (Hstart : forall k : Player -> M unit,
            (do playing_now <- guild_data (guild_id i); k playing_now)
              (with_players (insert (guild_id i) (player_of w (guild_id i))) w)
            = k (player_of w (guild_id i)) (entered (guild_id i) w)).
  { intros k. rewrite E. apply bind_ok, guild_data_entered. }
  assert (Hlisted : forall (output : string) (k : string -> M unit),
            (do listed <- guild_data (guild_id i);
             do output0 <- lift (queue_entries H 0 (queue listed) output);
             k output0) (entered (guild_id i) w)
            = match queue_entries H 0 (queue (player_of w (guild_id i))) output with
              | Ok output0 => k output0 (entered (guild_id i) w)
              | Raise e => (Raise e, entered (guild_id i) w)
              end).
  { intros output k.
    rewrite (bind_ok _ _ _ _ _ (guild_data_entered (guild_id i) w)).
    unfold lift, Discord.bind. destruct (queue_entries H 0 _ _); reflexivity. }
  unfold show_queue. cbn zeta.
  rewrite (bind_ok _ _ _ _ _ (guild_data_run (guild_id i) w)).
  rewrite Hstart.
  destruct (current_song (player_of w (guild_id i))) as [song|] eqn:Hcur.
  - destruct (duration_printable song) as [printable | e] eqn:Hd.
    + eexists (Ok _). split; [discriminate |]. split; cycle 1.
      { erewrite bind_ok;
          [| rewrite (bind_ok _ _ _ _ _ (guild_data_entered (guild_id i) w));
             rewrite Hcur, Hd; reflexivity].
        rewrite Hlisted. reflexivity. }
      intros output [= <-] _. discriminate.
    + exists (Raise e). split; [discriminate |]. split; [discriminate |].
      erewrite bind_raise;
        [reflexivity
        | rewrite (bind_ok _ _ _ _ _ (guild_data_entered (guild_id i) w));
          rewrite Hcur, Hd; reflexivity].
  - exists (Ok ""). split; [reflexivity |]. split; [congruence |].
    erewrite bind_ok by reflexivity.
    rewrite Hlisted. reflexivity.
Qed.

Lemma queue_entries_empty_slot (H : Host) (slots : list (option Song)) :
  In None slots ->
  forall n output, exists e, queue_entries H n slots output = Raise e.
Proof.
  induction slots as [|slot slots IH]; [intros [] |].
  intros Hin n output. cbn [queue_entries].
  destruct slot as [song|].
  - destruct Hin as [Hin | Hin]; [discriminate |].
    destruct (queue_entry H n (Some song)) as [entry | e]; cbn [obind].
    + apply IH, Hin.
    + exists e. reflexivity.
  - exists AttributeError. reflexivity.
Qed.

Lemma queue_entries_grows (H : Host) (slots : list (option Song)) :
  forall n output result,
    queue_entries H n slots output = Ok result ->
    (String.length output <= String.length result)%nat /\
    (slots <> [] -> result <> "").
Proof.
  induction slots as [|slot slots IH]; intros n output result.
  - cbn. intros [= <-]. split; [lia | congruence].
  - cbn [queue_entries]. destruct slot as [song|]; [| discriminate].
    cbn [queue_entry]. destruct (duration_printable song) as [printable|]; [| discriminate].
    cbn [obind]. intros Hrest. destruct (IH _ _ _ Hrest) as [Hlen _].
    rewrite length_append in Hlen.
    rewrite !length_append in Hlen. cbn [String.length] in Hlen.
    split; [lia |]. intros _ ->. cbn in Hlen. lia.
Qed.

Lemma show_queue_empty_slot (H : Host) (i : Interaction) (w : World) :
  In None (queue (player_of w (guild_id i))) ->
  exists e, show_queue H i w = (Raise e, entered (guild_id i) w).
Proof.
  intros Hin. destruct (show_queue_run H i w) as (heading & _ & _ & ->).
  destruct heading as [output | e]; cbn [obind].
  - destruct (queue_entries_empty_slot H _ Hin 0%nat output) as [e ->].
    exists e. reflexivity.
  - exists e. reflexivity.
Qed.

(** [queue] only reads: whether it sends the listing or fails while
    building it, every guild's playback state and autoplay mode, and the
    voice clients, are as before, and the only events are those of the
    sender. *)
Theorem show_queue_reads_only (H : Host) (i : Interaction) (w : World) :
  let run := show_queue H i w in
  same_guild_state H w (snd run) /\
  voice_heap (snd run) = voice_heap w /\
  voice_clients (snd run) = voice_clients w /\
  forallb sender_event (new_events w (snd run)) = true.
Proof.
  cbn zeta. destruct (show_queue_run H i w) as (heading & _ & _ & ->).
  assert (Hentered : same_guild_state H w (entered (guild_id i) w) /\
                     voice_heap (entered (guild_id i) w) = voice_heap w /\
                     voice_clients (entered (guild_id i) w) = voice_clients w /\
                     trace (entered (guild_id i) w) = trace w).
  { split; [apply (quiet_step_entered H) |].
    unfold entered. rewrite guild_data_run. repeat split. }
  destruct Hentered as (Hs & Hh & Hc & Ht).
  destruct (obind heading _) as [output | e].
  - match goal with
    | |- context [SysMsg.msg H ?a ?b ?c ?d ?e ?x] =>
        destruct (SysMsg_msg_run H a b c d e x) as (new & done & script & -> & Hk & _)
    end.
    cbn [snd]. split; [| split; [exact Hh | split; [exact Hc |]]].
    + eapply same_guild_state_trans; [exact Hs |]. split; reflexivity.
    + erewrite new_events_app; [exact Hk |]. cbn [trace after_messages].
      rewrite Ht. reflexivity.
  - cbn [snd]. split; [exact Hs | split; [exact Hh | split; [exact Hc |]]].
    rewrite (new_events_app w _ []); [reflexivity |].
    rewrite Ht, app_nil_r. reflexivity.
Qed.

(** [show_queue] in terms of the text it builds: the listing is sent under
    the header "Queue", replaced by "Queue is empty!" when it is empty; a
    failure while building it ends the command before anything is sent. *)
Lemma show_queue_listing (H : Host) (i : Interaction) (w : World) :
  show_queue H i w
  = match queue_listing H (player_of w (guild_id i)) with
    | Ok listing =>
        SysMsg.msg H (Some i) "Queue"
          (Some (if String.eqb listing "" then "Queue is empty!" else listing))
          None false (entered (guild_id i) w)
    | Raise e => (Raise e, entered (guild_id i) w)
    end.
Proof.
  assert (E : with_players (insert (guild_id i) (player_of w (guild_id i))) w
              = entered (guild_id i) w)
    by (unfold entered; rewrite guild_data_run; reflexivity).
  assert (Hstart : forall k : Player -> M unit,
            (do playing_now <- guild_data (guild_id i); k playing_now)
              (with_players (insert (guild_id i) (player_of w (guild_id i))) w)
            = k (player_of w (guild_id i)) (entered (guild_id i) w)).
  { intros k. rewrite E. apply bind_ok, guild_data_entered. }
  assert (Hlisted : forall (output : string) (k : string -> M unit),
            (do listed <- guild_data (guild_id i);
             do output0 <- lift (queue_entries H 0 (queue listed) output);
             k output0) (entered (guild_id i) w)
            = match queue_entries H 0 (queue (player_of w (guild_id i))) output with
              | Ok output0 => k output0 (entered (guild_id i) w)
              | Raise e => (Raise e, entered (guild_id i) w)
              end).
  { intros output k.
    rewrite (bind_ok _ _ _ _ _ (guild_data_entered (guild_id i) w)).
    unfold lift, Discord.bind. destruct (queue_entries H 0 _ _); reflexivity. }
  unfold show_queue. cbn zeta.
  rewrite (bind_ok _ _ _ _ _ (guild_data_run (guild_id i) w)).
  rewrite Hstart. unfold queue_listing.
  destruct (current_song (player_of w (guild_id i))) as [song|] eqn:Hcur.
  - unfold queue_heading.
    destruct (duration_printable song) as [printable | e] eqn:Hd; cbn [obind].
    + erewrite bind_ok;
        [| rewrite (bind_ok _ _ _ _ _ (guild_data_entered (guild_id i) w));
           rewrite Hcur, Hd; reflexivity].
      rewrite Hlisted. reflexivity.
    + erewrite bind_raise;
        [reflexivity
        | rewrite (bind_ok _ _ _ _ _ (guild_data_entered (guild_id i) w));
          rewrite Hcur, Hd; reflexivity].
  - erewrite bind_ok by reflexivity. cbn [obind].
    rewrite Hlisted. reflexivity.
Qed.

Lemma queue_listing_empty (H : Host) (p : Player) (listing : string) :
  queue_listing H p = Ok listing ->
  (listing = "" <-> current_song p = None /\ queue p = []).
Proof.
  unfold queue_listing. intros Hl. split.
  - intros ->. destruct (current_song p) as [song|].
    + unfold queue_heading in Hl.
      destruct (duration_printable song) as [printable|]; cbn [obind] in Hl;
        [| discriminate].
      apply queue_entries_grows in Hl as [Hlen _].
      rewrite length_append in Hlen. cbn [String.length] in Hlen. lia.
    + cbn [obind] in Hl. split; [reflexivity |].
      destruct (queue p) as [|slot slots] eqn:Hq; [reflexivity |].
      apply queue_entries_grows in Hl as [_ Hne]. exfalso. apply Hne; [discriminate |].
      reflexivity.
  - intros [Hcur Hq]. rewrite Hcur, Hq in Hl. cbn in Hl. congruence.
Qed.

(** What [queue] shows is the listing built from the guild's playback
    state: the heading for the current track, if any, and the numbered
    entries of the queue.  The listing is empty exactly when there is
    neither a current track nor a queued one, and then "Queue is empty!"
    is shown in its place.  Issued in a guild, the command makes at least
    one delivery attempt and every attempt carries the header "Queue" and
    that text cut to the display limit of 4096 characters (the first 4093
    and an ellipsis when it is longer); outside a guild nothing is sent.
    When the listing cannot be built the command raises and sends
    nothing. *)
Theorem show_queue_empty_text (H : Host) (i : Interaction) (w : World) :
  let p := player_of w (guild_id i) in
  let run := show_queue H i w in
  (forall listing,
     queue_listing H p = Ok listing ->
     let text := if String.eqb listing "" then "Queue is empty!" else listing in
     (listing = "" <-> current_song p = None /\ queue p = []) /\
     fst run = Ok tt /\
     (guild i <> None -> notified w run "Queue" (Some text) false) /\
     (guild i = None -> silent w run)) /\
  (forall e,
     queue_listing H p = Raise e ->
     run = (Raise e, entered (guild_id i) w) /\ silent w run).
Proof.
  cbn zeta. rewrite show_queue_listing.
  split.
  - intros listing Hl. rewrite Hl.
    split; [exact (queue_listing_empty H _ listing Hl) |].
    split; [apply (SysMsg_msg_quiet H) |].
    split; intros Hg.
    + apply SysMsg_msg_notified; [exact Hg | apply unsent_entered].
    + apply SysMsg_msg_silent; [exact Hg | apply unsent_entered].
  - intros e Hl. rewrite Hl. split; [reflexivity |].
    unfold silent. cbn [snd]. apply unsent_silent, unsent_entered.
Qed.

(** A queue slot that holds no track makes [queue] fail: the command
    raises before anything is sent. *)
Theorem show_queue_fails_on_empty_slot (H : Host) (i : Interaction) (w : World) :
  In None (queue (player_of w (guild_id i))) ->
  exists e,
    show_queue H i w = (Raise e, entered (guild_id i) w) /\
    new_events w (entered (guild_id i) w) = [].
Proof.
  intros Hin. destruct (show_queue_empty_slot H i w Hin) as [e He].
  exists e. split; [exact He |].
  apply new_events_app. unfold entered. rewrite guild_data_run, app_nil_r. reflexivity.
Qed.

(** [stop] and [queue] together: after a [stop] issued while nothing was
    playing, with the bot connected, the guild's queue cannot be listed
    any more; [queue] raises instead of answering. *)
Theorem queue_unlistable_after_idle_stop (H : Host) (i : Interaction) (w : World)
  (vc : nat) :
  Voice.utils_get w (guild i) = Some vc ->
  current_song (player_of w (guild_id i)) = None ->
  let stopped := snd (stop H i w) in
  fst (stop H i w) = Ok tt /\
  exists e, show_queue H i stopped = (Raise e, entered (guild_id i) stopped).
Proof.
  intros Hget Hcur. cbn zeta.
  destruct (stop_run H i w vc Hget) as (Hok & Hp & _).
  split; [exact Hok |].
  apply show_queue_empty_slot. rewrite Hp, Hcur. left. reflexivity.
Qed.

End CommandFacts.

(** ** Durations and the track selection helpers *)

Module DisplayFacts.
Import SubsonicFacts TextFacts.

Lemma format_02d_two_digits (k : Z) : 0 <= k < 100 -> format_02d k = two_digits k.
Proof.
  intros Hk.
  assert (Hall : forallb (fun m => String.eqb (format_02d (Z.of_nat m))
                                     (two_digits (Z.of_nat m))) (seq 0 100) = true)
    by (vm_compute; reflexivity).
  rewrite forallb_forall in Hall.
  specialize (Hall (Z.to_nat k)). rewrite Z2Nat.id in Hall by lia.
  apply String.eqb_eq, Hall, in_seq. lia.
Qed.

(** A duration below 100 minutes is printed as a clock of five characters,
    two digits of minutes, a colon and two digits of seconds; minutes are
    not carried into hours. *)
Theorem duration_printable_clock (s : Song) (n : Z) :
  duration s = JNum n -> 0 <= n < 6000 ->
  duration_printable s
  = Ok (two_digits (n / 60) ++ ":" ++ two_digits (n mod 60))%string /\
  (forall text, duration_printable s = Ok text ->
     String.length text = 5%nat /\ String.get 2 text = Some ":"%char).
Proof.
  intros Hd Hn. unfold duration in Hd.
  assert (Hrun : duration_printable s
                 = Ok (two_digits (n / 60) ++ ":" ++ two_digits (n mod 60))%string).
  { unfold duration_printable, minutes_seconds. rewrite Hd.
    assert (Hm : 0 <= n / 60 < 100)
      by (split; [apply Z.div_pos; lia | apply Z.div_lt_upper_bound; lia]).
    assert (Hs : 0 <= n mod 60 < 100)
      by (pose proof (Z.mod_pos_bound n 60); lia).
    rewrite (format_02d_two_digits _ Hm), (format_02d_two_digits _ Hs). reflexivity. }
  split; [exact Hrun |].
  intros text. rewrite Hrun. intros [= <-]. split; reflexivity.
Qed.

(** The constructor takes the record's duration as it is; one that is not
    an int is accepted there and fails only when it is printed, and with it
    everything that shows the track: its description in a notice and its
    entry in a selection list. *)
Theorem unprintable_duration_fails_late (H : Host) (d : list (string * json))
  (v : json) :
  dict_get "duration" d = Some v -> is_printable v = false ->
  exists s e,
    Song_init (JObj d) = Ok s /\ duration s = v /\
    duration_printable s = Raise e /\
    SysMsg.song_desc H s = Raise e /\
    (forall entry, selection_entry H s <> Ok entry).
Proof.
  intros Hd Hv. rewrite Song_init_dict, Hd. cbn [default from_option Datatypes.id].
  eexists. 
  assert (Hraise : exists e, match v with
                             | JNum n => Ok (minutes_seconds n)
                             | JBool b => Ok (minutes_seconds (if b then 1 else 0))
                             | JFloat _ _ => Raise ValueError
                             | JNull | JStr _ | JArr _ | JObj _ => Raise TypeError
                             end = Raise e).
  { destruct v; try discriminate; eexists; reflexivity. }
  destruct Hraise as [e He]. exists e.
  split; [reflexivity |]. split; [reflexivity |].
  assert (Hp : duration_printable
                 {| _id := default (JStr "") (dict_get "id" d);
                    _title := default (JStr "Unknown Track") (dict_get "title" d);
                    _album := default (JStr "Unknown Artist") (dict_get "artist" d);
                    _artist := default (JStr "Unknown Album") (dict_get "album" d);
                    _duration := v |} = Raise e) by exact He.
  split; [exact Hp |]. split.
  - unfold SysMsg.song_desc. rewrite Hp. reflexivity.
  - intros entry. unfold selection_entry. rewrite Hp.
    destruct (trimmed_album _); cbn [obind]; [| discriminate].
    destruct (trimmed_top _ _); cbn [obind]; discriminate.
Qed.



Lemma trimmed_album_text (s : string) :
  exists t, trimmed_album (JStr s) = Ok (JStr t).
Proof.
  unfold trimmed_album, len. cbn [obind].
  destruct (68 <? _); eexists; reflexivity.
Qed.




Lemma trimmed_top_text (t a : string) :
  exists p, trimmed_top (JStr t) (JStr a) = Ok p.
Proof.
  unfold trimmed_top. destruct (71 <? _); [destruct (String.ltb a t) |];
    eexists; reflexivity.
Qed.


Lemma selection_options_from (H : Host) (results : list Song) :
  forall i o,
    In o (selection_options H i results) ->
    i <= value o /\
    exists song,
      nth_error results (Z.to_nat (value o - i)) = Some song /\
      label o = format_value H (title song) /\
      option_description o = ("by " ++ format_value H (artist song))%string.
Proof.
  induction results as [|song results IH]; intros i o; [intros [] |].
  cbn [selection_options]. intros [<- | Hin].
  - cbn [value label option_description]. split; [lia |].
    exists song. rewrite Z.sub_diag. repeat split.
  - destruct (IH _ _ Hin) as (Hle & song' & Hnth & Hlabel & Hdesc).
    split; [lia |]. exists song'.
    replace (Z.to_nat (value o - i)) with (S (Z.to_nat (value o - (i + 1)))) by lia.
    repeat split; assumption.
Qed.

Lemma selection_options_values (H : Host) (results : list Song) :
  forall i, map value (selection_options H i results)
            = map (fun n => i + Z.of_nat n) (seq 0 (length results)).
Proof.
  induction results as [|song results IH]; intros i; [reflexivity |].
  cbn [selection_options map length seq value]. rewrite IH.
  f_equal; [lia |]. rewrite <- seq_shift, map_map.
  apply map_ext. intros n. lia.
Qed.

(** The selection list has one option per result, numbered from 0 in the
    order of the results, and the value of every option leads back to the
    song it was made from: its label is that song's title and its
    description names that song's artist. *)
Theorem selection_options_index_their_songs (H : Host) (results : list Song) :
  let options := parse_search_as_track_selection_options H results in
  map value options = map Z.of_nat (seq 0 (length results)) /\
  length options = length results /\
  forall o, In o options ->
    0 <= value o /\
    exists song,
      nth_error results (Z.to_nat (value o)) = Some song /\
      label o = format_value H (title song) /\
      option_description o = ("by " ++ format_value H (artist song))%string.
Proof.
  cbn zeta. unfold parse_search_as_track_selection_options.
  pose proof (selection_options_values H results 0) as Hvalues.
  split; [rewrite Hvalues; apply map_ext; intros n; lia |].
  split.
  - rewrite <- (length_map value), Hvalues, length_map, length_seq. reflexivity.
  - intros o Hin. destruct (selection_options_from H results 0 o Hin)
      as (Hle & song & Hnth & Hrest).
    split; [exact Hle |]. exists song. rewrite Z.sub_0_r in Hnth.
    split; [exact Hnth | exact Hrest].
Qed.

Lemma selection_entry_text (H : Host) (s : Song) :
  text_tags s -> exists entry, selection_entry H s = Ok entry.
Proof.
  intros ((t & Ht) & (a & Ha) & (al & Hal) & (n & Hn)).
  unfold selection_entry. rewrite Ht, Ha, Hal.
  destruct (trimmed_album_text al) as (tr & ->).
  destruct (trimmed_top_text t a) as (p & ->).
  unfold duration_printable. unfold duration in Hn. rewrite Hn.
  cbn [obind]. eexists. reflexivity.
Qed.

Lemma selection_entries_text (H : Host) (results : list Song) :
  Forall text_tags results ->
  forall start, exists body, selection_entries H results start = Ok body.
Proof.
  induction 1 as [|s results Hs _ IH]; intros start; [exists start; reflexivity |].
  cbn [selection_entries]. destruct (selection_entry_text H s Hs) as [entry ->].
  cbn [obind]. apply IH.
Qed.

Lemma selection_entries_fail (H : Host) (results : list Song) (s : Song) :
  In s results -> (forall entry, selection_entry H s <> Ok entry) ->
  forall start, exists e, selection_entries H results start = Raise e.
Proof.
  intros Hin Hbad. induction results as [|s' results IH]; [destruct Hin |].
  intros start. cbn [selection_entries].
  destruct (selection_entry H s') as [entry | e] eqn:Hentry; cbn [obind].
  - destruct Hin as [-> | Hin]; [exfalso; exact (Hbad entry Hentry) |].
    apply IH, Hin.
  - exists e. reflexivity.
Qed.

(** The selection embed is built when every result has text tags and an
    int duration: it is orange, titled after the query, and its text ends
    with the page number.  One result whose title or artist is not a
    string makes the whole embed fail, where the selection list of the same
    results is still built. *)
Theorem selection_embed_needs_text_tags (H : Host) (results : list Song)
  (query : string) (page_num : Z) :
  (Forall text_tags results ->
   exists body,
     parse_search_as_track_selection_embed H results query page_num
     = Ok {| color := 0xe67e22;
             embed_title := ("Results for: " ++ query)%string;
             description := Some (body ++ "Current page: " ++ str_of_int page_num)%string;
             embed_thumbnail := None |}) /\
  (forall s, In s results ->
     (forall t, title s <> JStr t) \/ (forall a, artist s <> JStr a) ->
     (exists e, parse_search_as_track_selection_embed H results query page_num = Raise e) /\
     length (parse_search_as_track_selection_options H results) = length results).
Proof.
  split.
  - intros Htext. destruct (selection_entries_text H results Htext "") as [body Hbody].
    exists body. unfold parse_search_as_track_selection_embed. rewrite Hbody. reflexivity.
  - intros s Hin Hbad. split.
    + assert (Hentry : forall entry, selection_entry H s <> Ok entry).
      { intros entry. unfold selection_entry.
        destruct (trimmed_album (album s)); cbn [obind]; [| discriminate].
        assert (Htop : exists e, trimmed_top (title s) (artist s) = Raise e).
        { unfold trimmed_top. destruct Hbad as [Ht | Ha].
          - destruct (title s) as [|b1|n1|m1 x1|t|l1|d1]; try (eexists; reflexivity).
            exfalso. exact (Ht t eq_refl).
          - destruct (title s) as [|b1|n1|m1 x1|t|l1|d1]; try (eexists; reflexivity).
            destruct (artist s) as [|b2|n2|m2 x2|a'|l2|d2]; try (eexists; reflexivity).
            exfalso. exact (Ha a' eq_refl). }
        destruct Htop as [e ->]. discriminate. }
      destruct (selection_entries_fail H results s Hin Hentry "") as [e He].
      exists e. unfold parse_search_as_track_selection_embed. rewrite He. reflexivity.
    + unfold parse_search_as_track_selection_options.
      rewrite <- (length_map value), selection_options_values, length_map, length_seq.
      reflexivity.
Qed.

End DisplayFacts.

(** ** What the occupancy watcher leaves alone *)

Module IsolationFacts.
Import SenderFacts StoreFacts MusicFacts PlayFacts MusicCog.

(** When the watcher disconnects, it does so for its guild only: the
    client found before the wait is taken off the list of voice clients
    and stops streaming, the other clients stay registered and are as the
    wait left them, and so are the playback state of every other guild and
    every autoplay mode. *)
Theorem watcher_disconnects_one_guild (H : Host) (during_wait : World -> World)
  (g : Z) (w : World) (vc : nat) :
  Voice.utils_get w (Some g) = Some vc ->
  alone w vc = true ->
  alone (at_recheck during_wait w) vc = true ->
  let run := on_voice_state_update during_wait g w in
  let later := at_recheck during_wait w in
  voice_clients (snd run) = filter (fun r => r <> vc) (voice_clients later) /\
  vc_playing (Voice.vc_at (snd run) vc) = false /\
  (forall r, r <> vc -> Voice.vc_at (snd run) r = Voice.vc_at later r) /\
  (forall g', g' <> g -> player_of (snd run) g' = player_of later g') /\
  (forall g', autoplay_of H (snd run) g' = autoplay_of H later g').
Proof.
  intros Hget Hbefore Hafter. cbn zeta. rewrite watcher_cases, Hget, Hbefore, Hafter.
  set (later := at_recheck during_wait w).
  unfold Voice.disconnect.
  erewrite bind_ok by reflexivity.
  erewrite bind_ok by apply guild_data_run.
  erewrite bind_ok by (rewrite update_player_run; reflexivity).
  erewrite bind_ok by (rewrite update_player_run; reflexivity).
  cbn [snd log emit modify].
  split; [reflexivity |].
  split.
  { pose proof (vc_at_update later vc false) as Hu.
    unfold Voice.vc_at, Voice.update_vc, with_voice in *;
      cbn [voice_heap with_players with_trace] in *.
    rewrite Hu. destruct (decide _); reflexivity. }
  split.
  { intros r Hr.
    unfold Voice.vc_at, Voice.update_vc, with_voice;
      cbn [voice_heap with_players with_trace].
    rewrite !nth_lookup, list_lookup_insert_ne by congruence. reflexivity. }
  split.
  { intros g' Hg.
    change (player_of (with_trace ?f ?x) g') with (player_of x g').
    rewrite !player_of_with_players, !decide_False by congruence. reflexivity. }
  intros g'. reflexivity.
Qed.

End IsolationFacts.

(** ** The properties at sample worlds *)

Module Examples.
Import Fixtures MusicCog.

(** C1, at a guild with one queued track, nothing playing and the bot
    connected: [stop] returns normally having stopped the voice client and
    put [None] in front of the queue, and what it sends is the
    confirmation "Stopped queue playback"; the claim has it report that no
    track is playing and leave the queue as it was. *)
Theorem stop_mutates_queue_when_nothing_plays :
  let run := stop host listener idle_with_queue in
  current_song (player_of idle_with_queue 7) = None /\
  queue (player_of idle_with_queue 7) = [Some song_b] /\
  fst run = Ok tt /\
  queue (player_of (snd run) 7) = [None; Some song_b] /\
  new_events idle_with_queue (snd run)
  = [VoiceStop 0;
     Send Response None
       {| color := 0x50C470; embed_title := "Stopped queue playback";
          description := None; embed_thumbnail := None |}
       false Delivered].
Proof.
  vm_compute. repeat split.
Qed.


Lemma senders_return_on_invalid_interaction_witness :
  (@None Interaction = None \/
   exists i, @None Interaction = Some i /\ guild i = None) /\
  fst (ErrMsg.msg None "Queue is empty." nothing_queued) = Ok tt /\
  attempts (new_events nothing_queued
              (snd (ErrMsg.msg None "Queue is empty." nothing_queued))) = 0%nat.
Proof.
  split; [left; reflexivity |].
  destruct (SenderFacts.senders_return_on_invalid_interaction host None "" "Queue is empty."
              None None false nothing_queued (or_introl eq_refl))
    as [_ (Hok & _ & Ha & _)].
  split; [exact Hok | exact Ha].
Defined.

Lemma stop_requeues_and_skip_discards_witness :
  Voice.utils_get playing_song_a (guild listener) = Some 0%nat /\
  current_song (player_of playing_song_a (guild_id listener)) = Some song_a /\
  player_of (snd (stop host listener playing_song_a)) 7
  = {| queue := [Some song_a; Some song_b]; current_song := None |}.
Proof.
  split; [reflexivity |]. split; [reflexivity |].
  destruct (MusicFacts.stop_requeues_and_skip_discards host listener playing_song_a
              0%nat song_a eq_refl eq_refl) as [(_ & _ & _ & Hp) _].
  exact Hp.
Defined.

Lemma autoplay_only_on_empty_queue_and_mode_witness :
  vc_playing (Voice.vc_at nothing_queued 0) = false /\
  queue (player_of nothing_queued 7) = [] /\
  autoplay_of host nothing_queued 7 = NONE /\
  user_voice listener <> None /\
  get_voice_client host listener true nothing_queued
  = (Ok (Some 0%nat), nothing_queued) /\
  guild listener <> None /\
  expansion_invoked
    (new_events nothing_queued
       (snd (PlayerEngine.play_audio_queue host listener 0 nothing_queued))) <> true /\
  player_of (snd (play host (spec_engine host) listener None None nothing_queued)) 7
  = player_of nothing_queued 7 /\
  reported nothing_queued
    (play host (spec_engine host) listener None None nothing_queued) "Queue is empty.".
Proof.
  split; [reflexivity |]. split; [reflexivity |]. split; [reflexivity |].
  split; [discriminate |]. split; [reflexivity |]. split; [discriminate |].
  destruct (PlayFacts.autoplay_only_on_empty_queue_and_mode host (spec_engine host)
              listener None 0%nat nothing_queued) as (Hiff & Hplay & Hcommand).
  split; [| split].
  - intros Hinv. apply (Hiff eq_refl) in Hinv. destruct Hinv as [_ Hmode].
    apply Hmode. reflexivity.
  - destruct (Hplay eq_refl eq_refl) as (Hp & _). exact Hp.
  - destruct (Hcommand 0%nat nothing_queued ltac:(discriminate) eq_refl eq_refl)
      as (_ & Hoff & _).
    destruct (Hoff eq_refl eq_refl) as (_ & _ & Hreport & _).
    apply Hreport. discriminate.
Defined.

(** A host whose catalog answers a search without match the usual way,
    with a result object that has no song list. *)
Definition zero_match_host : Host :=
  {| catalog := SubsonicFacts.no_match_service "searchResult3";
     repr := fun _ => "?";
     get_album_art_file := fun _ => Ok None;
     search_album := fun _ => Ok None;
     discord_File := fun _ => None;
     connect_succeeds := true;
     bot_user := 1;
     default_autoplay := NONE;
     recent_track := fun _ => None |}.

(** C7, at a catalog that answers a track search with zero matches by
    leaving the song list out (the answer of C3): the search raises
    KeyError on "song" and so does [play]; the queue is unchanged, but
    nothing at all is sent to the caller, where the claim has the command
    report that no track was found.  With the song list present and empty
    the command does report "No track found for **so what**.". *)
Theorem play_track_fails_on_zero_match_answer :
  let run := play zero_match_host (spec_engine zero_match_host) listener
               (Some "track") (Some "so what") idle_with_queue in
  user_voice listener <> None /\
  get_voice_client zero_match_host listener true idle_with_queue
  = (Ok (Some 0%nat), idle_with_queue) /\
  search zero_match_host "so what" 0 0 0 0 1 0 = Raise (KeyError "song") /\
  fst run = Raise (KeyError "song") /\
  new_events idle_with_queue (snd run) = [] /\
  queue (player_of (snd run) 7) = queue (player_of idle_with_queue 7) /\
  search host "so what" 0 0 0 0 1 0 = Ok [] /\
  reported idle_with_queue
    (play host (spec_engine host) listener (Some "track") (Some "so what")
       idle_with_queue)
    "No track found for **so what**.".
Proof.
  cbn zeta.
  split; [discriminate |]. split; [reflexivity |]. split; [reflexivity |].
  destruct (PlayFacts.play_track_search_fails zero_match_host
              (spec_engine zero_match_host) listener "so what" (KeyError "song")
              0%nat idle_with_queue idle_with_queue eq_refl ltac:(discriminate) eq_refl)
    as (Hrun & _ & Hplayers).
  split; [rewrite Hrun; reflexivity |].
  split; [rewrite Hrun; reflexivity |].
  split; [rewrite Hplayers; reflexivity |].
  split; [reflexivity |].
  destruct (PlayFacts.play_track_not_found host (spec_engine host) listener "so what"
              idle_with_queue eq_refl) as (_ & Hreport).
  destruct (Hreport 0%nat idle_with_queue ltac:(discriminate) eq_refl)
    as (_ & _ & Hin & _).
  apply Hin. discriminate.
Qed.

Lemma play_album_appends_tracks_witness :
  user_voice listener <> None /\
  get_voice_client host listener true idle_with_queue = (Ok (Some 0%nat), idle_with_queue) /\
  search_album host "kind of blue" = Ok (Some kind_of_blue) /\
  queue (player_of
           (snd (append_each 7 (songs kind_of_blue) (entered 7 idle_with_queue))) 7)
  = [Some song_b] ++ [Some song_a; Some song_b].
Proof.
  split; [discriminate |]. split; [reflexivity |]. split; [reflexivity |].
  destruct (PlayFacts.play_album_appends_tracks host (spec_engine host) listener
              "kind of blue" kind_of_blue 0%nat idle_with_queue idle_with_queue
              ltac:(discriminate) eq_refl eq_refl) as (Hq & _).
  exact Hq.
Defined.

Lemma watcher_acts_only_if_alone_twice_witness :
  Voice.utils_get bot_alone (Some 7) = Some 0%nat /\
  alone bot_alone 0 = true /\
  alone (at_recheck member_returns bot_alone) 0 = false /\
  guild_players (snd (on_voice_state_update member_returns 7 bot_alone))
  = guild_players (at_recheck member_returns bot_alone).
Proof.
  split; [reflexivity |]. split; [reflexivity |]. split; [reflexivity |].
  destruct (WatcherFacts.watcher_acts_only_if_alone_twice member_returns 7 bot_alone)
    as (_ & _ & Hvc).
  destruct (Hvc 0%nat eq_refl) as (_ & Habort & _).
  destruct (Habort eq_refl eq_refl) as (_ & Hp & _).
  exact Hp.
Defined.

End Examples.

(** ** The further properties at sample worlds *)

Module Samples.
Import Fixtures MusicCog.

Lemma thumbnail_failure_is_not_fatal_witness :
  no_longer_valid (Some listener) = false /\
  hd_error (new_events nothing_queued
              (snd (SysMsg.msg host_without_covers (Some listener) "Now Playing:" None
                      (Some "cover.png") false nothing_queued)))
  = Some (Log ERROR "Failed to attach thumbnail: No such file").
Proof.
  split; [reflexivity |].
  destruct (DispatchFacts.thumbnail_failure_is_not_fatal host_without_covers
              (Some listener) "Now Playing:" "cover.png" None false nothing_queued
              eq_refl) as (_ & _ & Hlog & _).
  exact Hlog.
Defined.

Lemma list_operations_fail_on_scalar_item_witness :
  existsb scalar [blue_in_green_record; JNum 3] = true /\
  answers (service_listing [blue_in_green_record; JNum 3]) "searchResult3"
    [blue_in_green_record; JNum 3] /\
  search (service_listing [blue_in_green_record; JNum 3]) "blue" 20 0 20 0 20 0
  = Raise TypeError.
Proof.
  split; [reflexivity |].
  assert (Hanswers : answers (service_listing [blue_in_green_record; JNum 3])
                       "searchResult3" [blue_in_green_record; JNum 3]).
  { intros url params. eexists _, _, _. repeat split. }
  split; [exact Hanswers |].
  destruct (CatalogFacts.list_operations_fail_on_scalar_item
              (service_listing [blue_in_green_record; JNum 3])
              [blue_in_green_record; JNum 3] "blue" 20 0 20 0 20 0
              None None None None None (JStr "17") 50 eq_refl) as (Hsearch & _).
  exact (Hsearch Hanswers).
Defined.

Lemma songs_of_response_errors_witness :
  songs_of_response "searchResult3" (JObj []) = Raise (KeyError "subsonic-response") /\
  (KeyError "subsonic-response" = TypeError \/
   KeyError "subsonic-response" = KeyError "subsonic-response" \/
   KeyError "subsonic-response" = KeyError "searchResult3" \/
   KeyError "subsonic-response" = KeyError "song").
Proof.
  split; [reflexivity |].
  exact (CatalogFacts.songs_of_response_errors "searchResult3" (JObj [])
           (KeyError "subsonic-response") eq_refl).
Defined.

Lemma connect_registers_one_client_witness :
  well_formed_voice not_connected /\
  Voice.utils_get not_connected (guild listener) = None /\
  user_voice listener = Some {| channel := Some [2] |} /\
  connect_succeeds host = true /\
  voice_clients (snd (get_voice_client host listener true not_connected))
  = voice_clients not_connected ++ [0%nat].
Proof.
  split; [constructor |].
  split; [reflexivity |]. split; [reflexivity |]. split; [reflexivity |].
  destruct (CommandFacts.connect_registers_one_client host listener not_connected [2]
              ltac:(constructor) eq_refl eq_refl eq_refl) as (_ & _ & Hclients & _).
  exact Hclients.
Defined.

Lemma no_client_without_connection_witness :
  Voice.utils_get not_connected (guild outsider) = None /\
  user_voice outsider = None /\
  guild outsider <> None /\
  get_voice_client host outsider false not_connected = (Ok None, not_connected) /\
  fst (get_voice_client host outsider true not_connected) = Ok None /\
  reported not_connected (Ok tt, snd (get_voice_client host outsider true not_connected))
    "Cannot connect to voice channel.".
Proof.
  split; [reflexivity |]. split; [reflexivity |]. split; [discriminate |].
  destruct (CommandFacts.no_client_without_connection host outsider not_connected
              eq_refl) as (Hquiet & Hfails & _).
  split; [exact Hquiet |].
  destruct (Hfails (or_introl eq_refl)) as (Hnone & _ & Hreport & _).
  split; [exact Hnone |]. apply Hreport. discriminate.
Defined.

Lemma play_track_enqueues_first_result_witness :
  user_voice listener <> None /\
  get_voice_client (host_listing [blue_in_green_record]) listener true idle_with_queue
  = (Ok (Some 0%nat), idle_with_queue) /\
  search (host_listing [blue_in_green_record]) "blue" 0 0 0 0 1 0 = Ok [song_a] /\
  player_of (with_track 7 song_a idle_with_queue) 7
  = {| queue := [Some song_b] ++ [Some song_a]; current_song := None |} /\
  exists e,
    play (host_listing [blue_in_green_record])
      (spec_engine (host_listing [blue_in_green_record])) listener
      (Some "track") (Some "blue") idle_with_queue
    = (Raise e, with_track 7 song_a idle_with_queue) /\
    (forall text, duration_printable song_a = Ok text -> e = AttributeError).
Proof.
  split; [discriminate |]. split; [reflexivity |]. split; [reflexivity |].
  destruct (CommandFacts.play_track_enqueues_first_result
              (host_listing [blue_in_green_record])
              (spec_engine (host_listing [blue_in_green_record])) listener "blue"
              song_a [] 0%nat idle_with_queue idle_with_queue
              ltac:(discriminate) eq_refl eq_refl) as (Hplayer & _ & Hfails & _).
  split; [exact Hplayer | exact Hfails].
Defined.

Lemma play_track_unprintable_duration_witness :
  user_voice listener <> None /\
  search (host_listing [JObj clock_text_record]) "flamenco" 0 0 0 0 1 0
  = Ok [flamenco_sketches] /\
  duration_printable flamenco_sketches = Raise TypeError /\
  play (host_listing [JObj clock_text_record])
    (spec_engine (host_listing [JObj clock_text_record])) listener
    (Some "track") (Some "flamenco") idle_with_queue
  = (Raise TypeError, with_track 7 flamenco_sketches idle_with_queue).
Proof.
  split; [discriminate |]. split; [reflexivity |]. split; [reflexivity |].
  destruct (CommandFacts.play_track_unprintable_duration
              (host_listing [JObj clock_text_record])
              (spec_engine (host_listing [JObj clock_text_record])) listener "flamenco"
              flamenco_sketches [] 0%nat idle_with_queue idle_with_queue TypeError
              ltac:(discriminate) eq_refl eq_refl eq_refl) as (Hrun & _).
  exact Hrun.
Defined.

Lemma play_other_querytype_witness :
  user_voice listener <> None /\
  get_voice_client host listener true idle_with_queue
  = (Ok (Some 0%nat), idle_with_queue) /\
  "playlist" <> "track" /\ "playlist" <> "album" /\
  play host (spec_engine host) listener (Some "playlist") (Some "jazz") idle_with_queue
  = PlayerEngine.play_audio_queue host listener 0 (entered 7 idle_with_queue).
Proof.
  split; [discriminate |]. split; [reflexivity |].
  split; [discriminate |]. split; [discriminate |].
  destruct (CommandFacts.play_other_querytype host (spec_engine host) listener
              "playlist" "jazz" 0%nat idle_with_queue idle_with_queue
              ltac:(discriminate) eq_refl ltac:(discriminate) ltac:(discriminate))
    as (Hrun & _).
  exact Hrun.
Defined.

Lemma stop_without_connection_witness :
  Voice.utils_get not_connected (guild listener) = None /\
  guild listener <> None /\
  voice_heap (snd (stop host listener not_connected)) = voice_heap not_connected /\
  reported not_connected (stop host listener not_connected)
    "Not currently connected to a voice channel.".
Proof.
  split; [reflexivity |]. split; [discriminate |].
  destruct (CommandFacts.stop_without_connection host listener not_connected eq_refl)
    as ((_ & _ & _ & Hreport & _) & Hheap & _).
  split; [exact Hheap |]. apply Hreport. discriminate.
Defined.

Lemma play_refusals_witness :
  user_voice outsider = None /\
  guild outsider <> None /\
  reported idle_with_queue (play host (spec_engine host) outsider None None idle_with_queue)
    "You are not connected to a voice channel.".
Proof.
  split; [reflexivity |]. split; [discriminate |].
  destruct (CommandFacts.play_refusals host (spec_engine host) outsider None None
              idle_with_queue) as (Houtside & _).
  destruct (Houtside eq_refl) as ((_ & _ & _ & Hreport & _) & _).
  apply Hreport. discriminate.
Defined.

Lemma skip_needs_streaming_client_witness :
  Voice.utils_get idle_with_queue (guild listener) = Some 0%nat /\
  vc_playing (Voice.vc_at idle_with_queue 0) = false /\
  guild listener <> None /\
  reported idle_with_queue (skip host (spec_engine host) listener idle_with_queue)
    "No track is playing.".
Proof.
  split; [reflexivity |]. split; [reflexivity |]. split; [discriminate |].
  destruct (CommandFacts.skip_needs_streaming_client host (spec_engine host) listener
              idle_with_queue) as (_ & Hidle).
  destruct (Hidle 0%nat eq_refl eq_refl) as (_ & _ & _ & Hreport & _).
  apply Hreport. discriminate.
Defined.

Lemma autoplay_sets_mode_then_starts_idle_client_witness :
  guild listener <> None /\
  exists w1,
    autoplay_of host w1 7 = RANDOM /\
    notified nothing_queued (Ok tt, w1) "Autoplay enabled by ana"
      (Some "Autoplay mode: **Random**") false.
Proof.
  split; [discriminate |].
  destruct (CommandFacts.autoplay_sets_mode_then_starts_idle_client host
              (spec_engine host) listener "Random" "random" nothing_queued)
    as (w1 & Hmode & _ & _ & _ & _ & _ & Hnotice & _).
  exists w1. split; [exact Hmode |]. apply Hnotice. discriminate.
Defined.

Lemma show_queue_empty_text_witness :
  queue_listing host (player_of nothing_queued (guild_id listener)) = Ok "" /\
  guild listener <> None /\
  notified nothing_queued (show_queue host listener nothing_queued) "Queue"
    (Some "Queue is empty!") false.
Proof.
  split; [reflexivity |]. split; [discriminate |].
  destruct (CommandFacts.show_queue_empty_text host listener nothing_queued)
    as (Hsent & _).
  destruct (Hsent "" eq_refl) as (_ & _ & Hnotice & _).
  apply Hnotice. discriminate.
Defined.

Lemma show_queue_fails_on_empty_slot_witness :
  In None (queue (player_of with_empty_slot (guild_id listener))) /\
  exists e,
    show_queue host listener with_empty_slot
    = (Raise e, entered (guild_id listener) with_empty_slot) /\
    new_events with_empty_slot (entered (guild_id listener) with_empty_slot) = [].
Proof.
  split; [left; reflexivity |].
  exact (CommandFacts.show_queue_fails_on_empty_slot host listener with_empty_slot
           (or_introl eq_refl)).
Defined.

Lemma queue_unlistable_after_idle_stop_witness :
  Voice.utils_get idle_with_queue (guild listener) = Some 0%nat /\
  current_song (player_of idle_with_queue (guild_id listener)) = None /\
  exists e,
    show_queue host listener (snd (stop host listener idle_with_queue))
    = (Raise e, entered (guild_id listener) (snd (stop host listener idle_with_queue))).
Proof.
  split; [reflexivity |]. split; [reflexivity |].
  destruct (CommandFacts.queue_unlistable_after_idle_stop host listener idle_with_queue
              0%nat eq_refl eq_refl) as (_ & Hfails).
  exact Hfails.
Defined.

Lemma duration_printable_clock_witness :
  duration song_a = JNum 337 /\ 0 <= 337 < 6000 /\
  duration_printable song_a = Ok "05:37".
Proof.
  split; [reflexivity |]. split; [lia |].
  destruct (DisplayFacts.duration_printable_clock song_a 337 eq_refl ltac:(lia))
    as (Hrun & _).
  exact Hrun.
Defined.

Lemma unprintable_duration_fails_late_witness :
  dict_get "duration" clock_text_record = Some (JStr "9:26") /\
  is_printable (JStr "9:26") = false /\
  exists s e,
    Song_init (JObj clock_text_record) = Ok s /\ duration_printable s = Raise e.
Proof.
  split; [reflexivity |]. split; [reflexivity |].
  destruct (DisplayFacts.unprintable_duration_fails_late host clock_text_record
              (JStr "9:26") eq_refl eq_refl) as (s & e & Hinit & _ & Hprint & _).
  exists s, e. split; [exact Hinit | exact Hprint].
Defined.

Lemma watcher_disconnects_one_guild_witness :
  Voice.utils_get bot_alone (Some 7) = Some 0%nat /\
  alone bot_alone 0 = true /\
  alone (at_recheck (fun w => w) bot_alone) 0 = true /\
  voice_clients (snd (on_voice_state_update (fun w => w) 7 bot_alone)) = [].
Proof.
  split; [reflexivity |]. split; [reflexivity |]. split; [reflexivity |].
  destruct (IsolationFacts.watcher_disconnects_one_guild host (fun w => w) 7 bot_alone
              0%nat eq_refl eq_refl eq_refl) as (Hclients & _).
  exact Hclients.
Defined.

End Samples.
